(** * finit helpers.c: process execution and supervision helpers

    A shallow embedding of [src/helpers.c]: the command tokenizer and
    fork/exec/wait wrapper [run], its interactive wrapper, the directory
    batch executor [run_parts], name based signalling [procname_kill] and
    [pidfile_read].

    C strings are lists of characters ended by NUL; a heap buffer is a list
    of characters addressed by offset, a pointer into it is [option nat]
    ([None] is NULL).  System calls take their answers from an explicit
    record of the environment, and every call the code makes is appended to
    a trace. *)

From Stdlib Require Import List Ascii String ZArith Lia Bool Arith.
From Stdlib Require Import Sorting.Sorted Sorting.Permutation.
Import ListNotations.

Set Implicit Arguments.

(* ================================================================== *)
(** ** C strings and the libc functions the helpers call *)
(* ================================================================== *)

Module CStr.

Definition char := ascii.
Definition NUL : char := Ascii.zero.

Definition is_nul (c : char) : bool := Ascii.eqb c NUL.

Definition lit (s : string) : list char := list_ascii_of_string s.
Definition show (l : list char) : string := string_of_list_ascii l.

(** The characters a [char *] denotes: everything before the first NUL. *)
Fixpoint c_str (l : list char) : list char :=
  match l with
  | [] => []
  | c :: l' => if is_nul c then [] else c :: c_str l'
  end.

Definition strlen (l : list char) : nat := List.length (c_str l).

(** [strdup]: a fresh buffer holding the string and its terminator. *)
Definition strdup (s : list char) : list char := c_str s ++ [NUL].

Fixpoint mem (c : char) (set : list char) : bool :=
  match set with
  | [] => false
  | d :: set' => Ascii.eqb c d || mem c set'
  end.

(** Value of a character as [unsigned char]. *)
Definition uchar (c : char) : Z := Z.of_nat (nat_of_ascii c).

(** [strcmp]: difference of the first pair of differing characters, read as
    unsigned; a list that ends stands for its terminator. *)
Fixpoint strcmp (a b : list char) : Z :=
  match a, b with
  | [], [] => 0
  | [], d :: _ => if is_nul d then 0 else (0 - uchar d)
  | c :: _, [] => if is_nul c then 0 else uchar c
  | c :: a', d :: b' =>
      if Ascii.eqb c d then (if is_nul c then 0 else strcmp a' b')
      else (uchar c - uchar d)
  end%Z.

(** [strncmp]: as [strcmp] over at most [n] characters ([n] is a [size_t],
    kept in [Z]). *)
Fixpoint strncmp (a b : list char) (n : Z) : Z :=
  if (n <=? 0)%Z then 0%Z else
  match a, b with
  | [], [] => 0
  | [], d :: _ => if is_nul d then 0 else (0 - uchar d)
  | c :: _, [] => if is_nul c then 0 else uchar c
  | c :: a', d :: b' =>
      if Ascii.eqb c d then (if is_nul c then 0 else strncmp a' b' (n - 1))
      else (uchar c - uchar d)
  end%Z.

(** [size_t] and [unsigned long] are 64 bits wide (LP64). *)
Definition SIZE_MAX : Z := (2 ^ 64 - 1)%Z.
Definition ULONG_MAX : Z := (2 ^ 64 - 1)%Z.

(** Subtraction of [size_t] values. *)
Definition size_sub (a b : Z) : Z := ((a - b) mod (SIZE_MAX + 1))%Z.

Definition isdigit (c : char) : bool :=
  (48 <=? nat_of_ascii c) && (nat_of_ascii c <=? 57).

Definition isspace (c : char) : bool :=
  let n := nat_of_ascii c in (n =? 32) || ((9 <=? n) && (n <=? 13)).

Definition newline : char := "010"%char.

(** [fgets(buf, size, fp)] on a stream positioned at the start of
    [content]: [None] at end of file, otherwise at most [size - 1]
    characters, stopping after the first newline. *)
Fixpoint fgets_take (n : nat) (content : list char) : list char :=
  match n, content with
  | O, _ => []
  | _, [] => []
  | S n', c :: rest =>
      if Ascii.eqb c newline then [c] else c :: fgets_take n' rest
  end.

Definition fgets (size : nat) (content : list char) : option (list char) :=
  match content with
  | [] => None
  | _ => Some (fgets_take (size - 1) content)
  end.

Fixpoint skip_space (l : list char) : list char :=
  match l with
  | c :: l' => if isspace c then skip_space l' else l
  | [] => []
  end.

Definition digit_val (c : char) : option Z :=
  let n := nat_of_ascii c in
  if (48 <=? n) && (n <=? 57) then Some (Z.of_nat n - 48)%Z
  else if (97 <=? n) && (n <=? 122) then Some (Z.of_nat n - 87)%Z
  else if (65 <=? n) && (n <=? 90) then Some (Z.of_nat n - 55)%Z
  else None.

(** The longest run of digits of [base], accumulated; the flag tells
    whether any digit was consumed. *)
Fixpoint digits (base : Z) (l : list char) (acc : Z) (any : bool) : Z * bool :=
  match l with
  | c :: l' =>
      match digit_val c with
      | Some d => if (d <? base)%Z then digits base l' (acc * base + d)%Z true
                  else (acc, any)
      | None => (acc, any)
      end
  | [] => (acc, any)
  end.

Definition strip_sign (l : list char) : bool * list char :=
  match l with
  | c :: r => if Ascii.eqb c "-" then (true, r)
              else if Ascii.eqb c "+" then (false, r) else (false, l)
  | [] => (false, [])
  end.

Definition is_hex (c : char) : bool :=
  match digit_val c with Some d => (d <? 16)%Z | None => false end.

(** Base selection of [strtoul(_, _, 0)]. *)
Definition pick_base (l : list char) : Z * list char :=
  match l with
  | z :: x :: h :: r =>
      if Ascii.eqb z "0" then
        if (Ascii.eqb x "x" || Ascii.eqb x "X") && is_hex h then (16%Z, h :: r)
        else (8%Z, l)
      else (10%Z, l)
  | z :: _ => if Ascii.eqb z "0" then (8%Z, l) else (10%Z, l)
  | [] => (10%Z, l)
  end.

Definition ERANGE : Z := 34.

(** [strtoul(s, NULL, 0)] with a 64-bit [unsigned long]: the value and the
    [errno] it leaves when [errno] was 0 before the call. *)
Definition strtoul0 (s : list char) : Z * Z :=
  let '(neg, s2) := strip_sign (skip_space (c_str s)) in
  let '(base, s3) := pick_base s2 in
  let '(v, _) := digits base s3 0%Z false in
  if (v >? ULONG_MAX)%Z then (ULONG_MAX, ERANGE)
  else ((if neg then (ULONG_MAX + 1 - v) mod (ULONG_MAX + 1) else v)%Z, 0%Z).

(** Conversion of an integer to the 32-bit signed [pid_t] / [int]. *)
Definition to_int (v : Z) : Z := ((v + 2 ^ 31) mod 2 ^ 32 - 2 ^ 31)%Z.

(** [atoi]: blanks, an optional sign, decimal digits. *)
Definition atoi (s : list char) : Z :=
  let '(neg, s2) := strip_sign (skip_space (c_str s)) in
  let '(v, _) := digits 10%Z s2 0%Z false in
  to_int (if neg then (- v)%Z else v).

End CStr.

(* ================================================================== *)
(** ** The tokenizer of [run] (helpers.c, lines 398-421) *)
(* ================================================================== *)

Module Tokenizer.
Import CStr.

Definition NUM_ARGS : nat := 16.

(** Outcome of code that may dereference a bad pointer. *)
Inductive mem_result (A : Type) : Type :=
| Ok (a : A)
| Fault.
Arguments Fault {A}.

Definition mbind {A B} (m : mem_result A) (k : A -> mem_result B) : mem_result B :=
  match m with
  | Ok a => k a
  | Fault => Fault
  end.

Declare Scope mem_scope.
Delimit Scope mem_scope with mem.
Notation "x <- m ;; k" := (mbind m (fun x => k))
  (at level 61, m at next level, right associativity) : mem_scope.
Notation "' p <- m ;; k" := (mbind m (fun x => let p := x in k))
  (at level 61, p pattern, m at next level, right associativity) : mem_scope.
Local Open Scope mem_scope.

Definition buffer := list char.
Definition ptr := option nat.

(** [*p] as an rvalue. *)
Definition peek (buf : buffer) (p : nat) : mem_result char :=
  match nth_error buf p with
  | Some c => Ok c
  | None => Fault
  end.

(** [*p = c]. *)
Definition poke (buf : buffer) (p : nat) (c : char) : mem_result buffer :=
  if p <? List.length buf then Ok (firstn p buf ++ c :: skipn (S p) buf) else Fault.

(** Offset of the first character that is NUL or in [delim], and whether it
    is a delimiter; [None] when the scan leaves the buffer. *)
Fixpoint scan (delim : list char) (l : list char) : option (nat * bool) :=
  match l with
  | [] => None
  | c :: l' =>
      if is_nul c then Some (O, false)
      else if mem c delim then Some (O, true)
      else match scan delim l' with
           | Some (n, b) => Some (S n, b)
           | None => None
           end
  end.

(** [strsep(&arg, delim)] with [arg] = [p] not NULL: the token starts at
    [p]; a delimiter found is overwritten by NUL and [arg] moves past it,
    otherwise [arg] becomes NULL. *)
Definition strsep (buf : buffer) (p : nat) (delim : list char)
  : mem_result (buffer * ptr) :=
  match scan delim (skipn p buf) with
  | None => Fault
  | Some (n, true) =>
      buf' <- poke buf (p + n) NUL ;;
      Ok (buf', Some (p + n + 1))
  | Some (n, false) => Ok (buf, None)
  end.

Definition blanks : list char := lit (String "009" " ").
Definition squote : char := "'"%char.
Definition dquote : char := ascii_of_nat 34.

(** The [args] array: [NUM_ARGS + 1] slots of [char *]. *)
Definition argv_array := list ptr.

Fixpoint store (A : Type) (l : list A) (i : nat) (v : A) : list A :=
  match l, i with
  | [], _ => []
  | _ :: l', O => v :: l'
  | x :: l', S i' => x :: store l' i' v
  end.

Record tok_state := {
  t_buf  : buffer;
  t_arg  : ptr;
  t_args : argv_array;
  t_i    : nat
}.

(** One pass through the body of the [do ... while]. *)
Definition tok_body (s : tok_state) : mem_result tok_state :=
  match t_arg s with
  | None => Fault
  | Some p =>
      c <- peek (t_buf s) p ;;
      if Ascii.eqb c squote || Ascii.eqb c dquote then
        let delim := [c] in
        let args1 := store (t_args s) (t_i s) (Some p) in
        ' (buf1, arg1) <- strsep (t_buf s) (S p) delim ;;
        match arg1 with
        | None => Fault
        | Some a =>
            match a with
            | O => Fault
            | S a' =>
                buf2 <- poke buf1 a' c ;;
                buf3 <- poke buf2 a NUL ;;
                Ok {| t_buf := buf3; t_arg := Some (S a);
                      t_args := args1; t_i := S (t_i s) |}
            end
        end
      else
        ' (buf1, arg1) <- strsep (t_buf s) p blanks ;;
        Ok {| t_buf := buf1; t_arg := arg1;
              t_args := store (t_args s) (t_i s) (Some p); t_i := S (t_i s) |}
  end.

Definition tok_cond (s : tok_state) : bool :=
  match t_arg s with
  | Some _ => t_i s <? NUM_ARGS
  | None => false
  end.

(** [do body while (arg && i < NUM_ARGS)]; [fuel] bounds the passes. *)
Fixpoint tok_loop (fuel : nat) (s : tok_state) : mem_result (option tok_state) :=
  match fuel with
  | O => Ok None
  | S fuel' =>
      s' <- tok_body s ;;
      if tok_cond s' then tok_loop fuel' s' else Ok (Some s')
  end.

(** [args[i] = NULL] after the loop (line 421). *)
Definition tok_finish (s : tok_state) : tok_state :=
  {| t_buf := t_buf s; t_arg := t_arg s;
     t_args := store (t_args s) (t_i s) None; t_i := t_i s |}.

Definition tok_init (buf1 : buffer) (arg1 : ptr) : tok_state :=
  {| t_buf := buf1; t_arg := arg1;
     t_args := store (repeat (@None nat) (S NUM_ARGS)) 0 (Some 0); t_i := 1 |}.

(** Lines 399-421: the copy, the first [strsep], the loop, the final
    store. *)
Definition tokenize_fuel (fuel : nat) (cmd : list char)
  : mem_result (option tok_state) :=
  ' (buf1, arg1) <- strsep (strdup cmd) 0 blanks ;;
  r <- tok_loop fuel (tok_init buf1 arg1) ;;
  Ok (option_map tok_finish r).

(** [NUM_ARGS] passes always suffice (lemma [tokenize_fuel_enough]), so
    the fuel never runs out and [Fault] here is a bad dereference. *)
Definition tokenize (cmd : list char) : mem_result tok_state :=
  r <- tokenize_fuel NUM_ARGS cmd ;;
  match r with
  | Some s => Ok s
  | None => Fault
  end.

(** The string a pointer into the buffer denotes. *)
Definition cstr_at (buf : buffer) (p : nat) : list char := c_str (skipn p buf).

(** The argument vector [execvp] reads: the slots up to the first NULL. *)
Fixpoint argv_of (buf : buffer) (args : argv_array) : list string :=
  match args with
  | Some p :: args' => show (cstr_at buf p) :: argv_of buf args'
  | _ => []
  end.

(** The first [n] slots of the array hold pointers. *)
Definition filled (n : nat) (args : argv_array) : Prop :=
  forall j, j < n -> exists p, nth_error args j = Some (Some p).

Definition tokens (cmd : string) : mem_result (list string) :=
  s <- tokenize (lit cmd) ;;
  Ok (argv_of (t_buf s) (t_args s)).

End Tokenizer.

(* ================================================================== *)
(** ** Wait statuses (<sys/wait.h>, Linux encoding) *)
(* ================================================================== *)

Module WaitStatus.
Local Open Scope Z_scope.

(** How a child ended: [exit(code)] or an uncaught signal. *)
Inductive termination :=
| Exited (code : Z)
| Signaled (sig : Z) (core : bool).

Definition WCOREFLAG : Z := 128.

(** The status [waitpid] stores for a terminated child. *)
Definition wstatus (t : termination) : Z :=
  match t with
  | Exited code => Z.shiftl (Z.land code 255) 8
  | Signaled sig core => Z.lor sig (if core then WCOREFLAG else 0)
  end.

Definition WEXITSTATUS (status : Z) : Z := Z.shiftr (Z.land status 65280) 8.
Definition WTERMSIG (status : Z) : Z := Z.land status 127.
Definition WIFEXITED (status : Z) : bool := WTERMSIG status =? 0.

(** [(signed char) v] for [0 <= v < 256]. *)
Definition signed_char (v : Z) : Z := if v >=? 128 then v - 256 else v.

Definition WIFSIGNALED (status : Z) : bool :=
  Z.shiftr (signed_char (Z.land status 127 + 1)) 1 >? 0.

(** A termination the kernel can report: an exit code of one byte, a signal
    number between 1 and 126. *)
Definition plausible (t : termination) : Prop :=
  match t with
  | Exited code => 0 <= code < 256
  | Signaled sig _ => 1 <= sig < 127
  end.

(** The exit codes and the signal numbers of plausible terminations. *)
Definition exit_codes : list Z := map Z.of_nat (seq 0 256).
Definition signal_numbers : list Z := map Z.of_nat (seq 1 126).

End WaitStatus.

(* ================================================================== *)
(** ** Processes: state, events and the monad of system calls *)
(* ================================================================== *)

Module Sys.
Import WaitStatus.

Definition EINTR : Z := 4.
Definition ECHILD : Z := 10.
Definition EINVAL : Z := 22.
Definition EOVERFLOW : Z := 75.

Definition STDIN_FILENO : Z := 0.
Definition STDOUT_FILENO : Z := 1.
Definition STDERR_FILENO : Z := 2.

(** How a forked child leaves the code of this file: its image is replaced
    by a successful [exec], or it exits. *)
Inductive child_end :=
| ExecOK (file : string) (argv : list string)
| ExitWith (code : Z).

(** What a forked child does before that. *)
Inductive cevent :=
| CLog (msg : string)
| CSigDfl (signo : nat)                  (* sigaction(signo, SIG_DFL) *)
| CDup2 (oldfd newfd : Z)
| CExecFailed (file : string) (argv : list string).

Record child := {
  c_events : list cevent;
  c_end    : child_end
}.

(** Calls made by the calling process, in program order. *)
Inductive event :=
| Log (msg : string)
| Alloc (what : string)
| Free (what : string)
| Fopen (path : string) (ok : bool)
| Tmpfile (ok : bool)
| Fclose (what : string)
| Fork (pid : positive) (c : child)      (* fork() returned pid in the parent *)
| ForkFailed
| Waitpid (pid : Z)
| Dup (fd newfd : Z)
| Dup2 (oldfd newfd : Z)
| PrintDescr (action descr : string)
| PrintResult (fail : Z)
| WriteStderr (text : list ascii)
| Getcwd (ok : bool)
| Chdir (path : option string) (ok : bool)
| Opendir (path : string) (ok : bool)
| Closedir
| Kill (pid : Z) (signo : Z) (ok : bool).

Record proc := {
  p_trace : list event;
  p_errno : Z;
  p_cwd   : string
}.

(** A computation continues with a value, or the process has crashed on
    undefined behaviour. *)
Inductive res (A : Type) : Type :=
| Cont (a : A) (s : proc)
| Crash (s : proc).
Arguments Crash {A}.

Definition M (A : Type) : Type := proc -> res A.

Definition ret {A} (a : A) : M A := fun s => Cont a s.

Definition bind {A B} (m : M A) (k : A -> M B) : M B :=
  fun s => match m s with
           | Cont a s' => k a s'
           | Crash s' => Crash s'
           end.

Definition crash {A} : M A := fun s => Crash s.

Definition emit (e : event) : M unit :=
  fun s => Cont tt {| p_trace := p_trace s ++ [e];
                      p_errno := p_errno s; p_cwd := p_cwd s |}.

Definition set_errno (e : Z) : M unit :=
  fun s => Cont tt {| p_trace := p_trace s; p_errno := e; p_cwd := p_cwd s |}.

Definition get_errno : M Z := fun s => Cont (p_errno s) s.

Definition get_cwd : M string := fun s => Cont (p_cwd s) s.

Definition set_cwd (d : string) : M unit :=
  fun s => Cont tt {| p_trace := p_trace s; p_errno := p_errno s; p_cwd := d |}.

Definition when (b : bool) (m : M unit) : M unit := if b then m else ret tt.

Declare Scope sys_scope.
Delimit Scope sys_scope with sys.
Notation "x <- m ;; k" := (bind m (fun x => k))
  (at level 61, m at next level, right associativity) : sys_scope.
Notation "m ;; k" := (bind m (fun _ => k))
  (at level 61, right associativity) : sys_scope.

(** The children a trace created, in order. *)
Fixpoint forks (tr : list event) : list (positive * child) :=
  match tr with
  | [] => []
  | Fork pid c :: rest => (pid, c) :: forks rest
  | _ :: rest => forks rest
  end.

(** The [exec] calls a child made, failed ones included. *)
Definition exec_calls (c : child) : list (string * list string) :=
  flat_map (fun ev => match ev with
                      | CExecFailed file argv => [(file, argv)]
                      | _ => []
                      end) (c_events c)
  ++ match c_end c with
     | ExecOK file argv => [(file, argv)]
     | ExitWith _ => []
     end.

(** The signals whose disposition a child reset. *)
Definition signals_reset (c : child) : list nat :=
  flat_map (fun ev => match ev with
                      | CSigDfl signo => [signo]
                      | _ => []
                      end) (c_events c).

Definition start (cwd : string) : proc :=
  {| p_trace := []; p_errno := 0%Z; p_cwd := cwd |}.

(** The value a computation returns, if it does. *)
Definition returned {A} (r : res A) : option A :=
  match r with
  | Cont a _ => Some a
  | Crash _ => None
  end.

Definition final {A} (r : res A) : proc :=
  match r with
  | Cont _ s => s
  | Crash s => s
  end.

End Sys.

(* ================================================================== *)
(** ** [run] and [run_interactive] (helpers.c, lines 391-527) *)
(* ================================================================== *)

Module Runner.
Import CStr Tokenizer WaitStatus Sys.
Local Open Scope string_scope.
Local Open Scope list_scope.
Local Open Scope sys_scope.

(** The answers of the system to one call of [run]. *)
Record run_env := {
  e_strdup_ok : bool;            (* strdup(cmd) *)
  e_devnull   : option Z;        (* fopen("/dev/null", "w"): its descriptor *)
  e_fork      : option positive; (* fork(): the child's pid, None on failure *)
  e_exec_ok   : bool;            (* execvp() in the child *)
  e_prog      : termination;     (* how the executed program ends *)
  e_wait      : option Z         (* waitpid(): errno when it fails *)
}.

Definition is_some {A} (o : option A) : bool :=
  match o with Some _ => true | None => false end.

Section Run.

(** [NSIG], from <signal.h>. *)
Variable NSIG : nat.

(** Modelled from the spec: the macro [DFLSIG] of sig.h, which is not
    under src/; the spec has the child reset "the disposition of every
    signal number to default", so [DFLSIG(sa, signo, 0)] is the call that
    puts signal [signo] back to its default disposition. *)
Definition DFLSIG (signo : nat) : cevent := CSigDfl signo.

(** Lines 441-442: [for (i = 1; i < NSIG; i++) DFLSIG(sa, i, 0);] *)
Definition reset_signals : list cevent := map DFLSIG (seq 1 (NSIG - 1)).

(** Lines 445-451. *)
Definition redirect_stdio (fp : option Z) : list cevent :=
  match fp with
  | Some fd => [CDup2 fd STDIN_FILENO; CDup2 fd STDOUT_FILENO;
                CDup2 fd STDERR_FILENO]
  | None => []
  end.

(** Lines 436-454: the child. *)
Definition run_child (exec_ok : bool) (fp : option Z) (argv : list string)
  : child :=
  let file := hd "" argv in
  let before := reset_signals ++ redirect_stdio fp in
  if exec_ok then {| c_events := before; c_end := ExecOK file argv |}
  else {| c_events := before ++ [CExecFailed file argv];
          c_end := ExitWith 1 |}.

(** How the child is found to have ended by [waitpid]. *)
Definition ended (c : child_end) (prog : termination) : termination :=
  match c with
  | ExecOK _ _ => prog
  | ExitWith code => Exited code
  end.

(** Lines 474-483. *)
Definition result_of (status : Z) : Z :=
  let result := WEXITSTATUS status in
  if WIFEXITED status then result
  else if WIFSIGNALED status then (if (result =? 0)%Z then 1%Z else result)
  else result.

Definition wait_status_log (status : Z) : M unit :=
  if WIFEXITED status then emit (Log "Started and ended OK")
  else if WIFSIGNALED status then emit (Log "Process terminated by signal")
  else ret tt.

(** Lines 460-472: the messages of a failed [waitpid]. *)
Definition wait_failure_log (err : Z) : M unit :=
  if (err =? EINTR)%Z then emit (Log "Caught unblocked signal, aborting.")
  else if (err =? ECHILD)%Z then emit (Log "Caught SIGCHLD, aborting.")
  else emit (Log "Failed starting").

(** Lines 427-432: the capacity check. *)
Definition too_long (t : tok_state) : bool :=
  (t_i t =? NUM_ARGS)%nat && is_some (nth (t_i t) (t_args t) None).

Definition run (e : run_env) (cmd : list char) : M Z :=
  if negb (e_strdup_ok e) then ret 1%Z else
  emit (Alloc "backup") ;;
  match tokenize cmd with
  | Fault => crash
  | Ok t =>
      if too_long t then
        emit (Log "Command too long") ;;
        emit (Free "backup") ;;
        set_errno EOVERFLOW ;;
        ret 1%Z
      else
        let argv := argv_of (t_buf t) (t_args t) in
        let fp := e_devnull e in
        emit (Fopen "/dev/null" (is_some fp)) ;;
        match e_fork e with
        | None =>
            emit ForkFailed ;;
            emit (Log "fork") ;;
            ret (-1)%Z
        | Some pid =>
            let c := run_child (e_exec_ok e) fp argv in
            emit (Fork pid c) ;;
            match e_wait e with
            | Some err =>
                emit (Waitpid (Z.pos pid)) ;;
                set_errno err ;;
                wait_failure_log err ;;
                when (is_some fp) (emit (Fclose "/dev/null")) ;;
                emit (Free "backup") ;;
                ret 1%Z
            | None =>
                emit (Waitpid (Z.pos pid)) ;;
                let status := wstatus (ended (c_end c) (e_prog e)) in
                wait_status_log status ;;
                when (is_some fp) (emit (Fclose "/dev/null")) ;;
                emit (Free "backup") ;;
                ret (result_of status)
            end
        end
  end.

(** The answers of the system to one call of [run_interactive]. *)
Record ri_env := {
  ri_tmpfile  : option Z;     (* tmpfile(): its descriptor *)
  ri_debug    : bool;         (* the global debug flag *)
  ri_oldout   : Z;            (* dup(STDOUT_FILENO) *)
  ri_olderr   : Z;            (* dup(STDERR_FILENO) *)
  ri_run      : run_env;
  ri_captured : list char     (* what the command left in the scratch file *)
}.

(** [LINE_SIZE], from finit.h. *)
Variable LINE_SIZE : nat.

(** Lines 519-522: [fwrite(line, len, sizeof(char), stderr)] writes one
    item of [len] bytes, so [written] is 1, or 0 when [len] is 0; the write
    itself is taken to succeed.  A pass that goes on has read one byte, so
    the length of the data bounds the passes. *)
Fixpoint replay (fuel : nat) (data : list char) : M unit :=
  match fuel with
  | O => ret tt
  | S fuel' =>
      let chunk := firstn LINE_SIZE data in
      let len := List.length chunk in
      let written := if (len =? 0)%nat then 0%nat else 1%nat in
      when (0 <? len)%nat (emit (WriteStderr chunk)) ;;
      if (0 <? len)%nat && (written =? len)%nat
      then replay fuel' (skipn LINE_SIZE data)
      else ret tt
  end.

Definition run_interactive (e : ri_env) (cmd : list char) (descr : string)
  : M Z :=
  let fp := ri_tmpfile e in
  emit (Tmpfile (is_some fp)) ;;
  emit (PrintDescr "" descr) ;;
  let capture := is_some fp && negb (ri_debug e) in
  let fd := match fp with Some fd => fd | None => 0%Z end in
  let oldout := if capture then ri_oldout e else 1%Z in
  let olderr := if capture then ri_olderr e else 2%Z in
  when capture
    (emit (Dup STDOUT_FILENO oldout) ;;
     emit (Dup STDERR_FILENO olderr) ;;
     emit (Dup2 fd STDOUT_FILENO) ;;
     emit (Dup2 fd STDERR_FILENO)) ;;
  status <- run (ri_run e) cmd ;;
  when capture
    (emit (Dup2 oldout STDOUT_FILENO) ;;
     emit (Dup2 olderr STDERR_FILENO)) ;;
  emit (PrintResult status) ;;
  when capture
    (replay (S (List.length (ri_captured e))) (ri_captured e) ;;
     emit (Fclose "tmpfile")) ;;
  ret status.

End Run.

End Runner.

(* ================================================================== *)
(** ** [run_parts] (helpers.c, lines 590-661) *)
(* ================================================================== *)

Module Batch.
Import CStr Tokenizer WaitStatus Sys Runner.
Local Open Scope string_scope.
Local Open Scope list_scope.
Local Open Scope sys_scope.

Definition NUM_SCRIPTS : nat := 128.
Definition DT_REG : Z := 8.
Definition S_IXUSR : Z := 64.    (* 0100 *)

Record dirent := {
  d_name : string;
  d_type : Z;
  d_stat : option Z      (* stat(d_name, &st): st_mode when it succeeds *)
}.

(** The answers of the system to one call of [run_parts]; paths given to
    the file system are absolute. *)
Record parts_env := {
  b_getcwd_ok : bool;                          (* getcwd(NULL, 0) *)
  b_chdir     : string -> bool;                (* chdir(path) *)
  b_opendir   : string -> option (list dirent);
  b_fork      : nat -> option positive;        (* fork() for the i-th script *)
  b_exec_ok   : string -> bool                 (* execv() of a script *)
}.

(** A path as the kernel resolves it from the working directory. *)
Definition resolve (cwd path : string) : string :=
  match path with
  | String "/" _ => path
  | _ => cwd ++ "/" ++ path
  end.

(** [chdir(path)]: true when it returns 0. *)
Definition sys_chdir (e : parts_env) (path : option string) : M bool :=
  match path with
  | None => emit (Chdir None false) ;; ret false
  | Some p =>
      cwd <- get_cwd ;;
      let target := resolve cwd p in
      if b_chdir e target then
        emit (Chdir path true) ;; set_cwd target ;; ret true
      else
        emit (Chdir path false) ;; ret false
  end.

(** Whether [sys_chdir] succeeds from a given state. *)
Definition b_chdir_result (e : parts_env) (path : option string) (s : proc)
  : bool :=
  match path with
  | None => false
  | Some p => b_chdir e (resolve (p_cwd s) p)
  end.

(** [cmp], lines 590-593. *)
Definition cmp (s1 s2 : string) : Z := strcmp (lit s1) (lit s2).

(** [qsort(ent, num, sizeof(char * ), cmp)], as an insertion sort; names
    without NUL have one sorted arrangement (lemma [qsort_unique]), so the
    choice of the algorithm does not show. *)
Fixpoint insert (x : string) (l : list string) : list string :=
  match l with
  | [] => [x]
  | y :: l' => if (cmp x y <=? 0)%Z then x :: l else y :: insert x l'
  end.

Fixpoint qsort (l : list string) : list string :=
  match l with
  | [] => []
  | x :: l' => insert x (qsort l')
  end.

(** Line 617: the variable arguments, read up to their NULL, fill
    [args[1 ..]]. *)
Fixpoint va_fill (extra : list string) (argnum : nat)
  (args : list (option string)) : list (option string) :=
  if (argnum <? NUM_ARGS)%nat then
    match extra with
    | [] => store args argnum None
    | a :: rest => va_fill rest (S argnum) (store args argnum (Some a))
    end
  else args.

(** The vector [execv] reads from [args]: the slots before the first NULL. *)
Fixpoint argv_read (args : list (option string)) : list string :=
  match args with
  | Some a :: rest => a :: argv_read rest
  | _ => []
  end.

(** Lines 620-629: the scan of the directory; [ent] holds [num] names. *)
Fixpoint collect (entries : list dirent) (ent : list string)
  : M (list string) :=
  match entries with
  | [] => ret ent
  | e :: rest =>
      if (d_type e =? DT_REG)%Z then
        match d_stat e with
        | Some mode =>
            emit (Log ("Found " ++ d_name e)) ;;
            if negb (Z.land mode S_IXUSR =? 0)%Z then
              emit (Alloc (d_name e)) ;;
              let ent' := ent ++ [d_name e] in
              if (NUM_SCRIPTS <=? List.length ent')%nat then ret ent'
              else collect rest ent'
            else collect rest ent
        | None => collect rest ent
        end
      else collect rest ent
  end.

(** Lines 648-652: the child of one script. *)
Definition parts_child (exec_ok : bool) (script : string)
  (argv : list string) : child :=
  if exec_ok then
    {| c_events := [CLog ("Calling " ++ script)];
       c_end := ExecOK script argv |}
  else
    {| c_events := [CLog ("Calling " ++ script); CExecFailed script argv];
       c_end := ExitWith 0 |}.

(** Lines 640-655; a failed [fork] leaves [pid] at -1, which [waitpid]
    takes as any child. *)
Fixpoint exec_all (e : parts_env) (args : list (option string)) (i : nat)
  (ent : list string) : M unit :=
  match ent with
  | [] => ret tt
  | script :: rest =>
      let args0 := store args 0 (Some script) in
      let args1 := store args0 1 None in
      match b_fork e i with
      | Some pid =>
          emit (Fork pid (parts_child (b_exec_ok e script) script
                            (argv_read args1))) ;;
          emit (Waitpid (Z.pos pid)) ;;
          emit (Free script) ;;
          exec_all e args1 (S i) rest
      | None =>
          emit ForkFailed ;;
          emit (Waitpid (-1)%Z) ;;
          emit (Free script) ;;
          exec_all e args1 (S i) rest
      end
  end.

Definition run_parts (e : parts_env) (dir : string) (extra : list string)
  : M Z :=
  cwd0 <- get_cwd ;;
  emit (Getcwd (b_getcwd_ok e)) ;;
  let oldpwd := if b_getcwd_ok e then Some cwd0 else None in
  ok <- sys_chdir e (Some dir) ;;
  if negb ok then
    when (is_some oldpwd) (emit (Free "oldpwd")) ;;
    ret (-1)%Z
  else
    cwd1 <- get_cwd ;;
    match b_opendir e (resolve cwd1 dir) with
    | None =>
        emit (Opendir dir false) ;;
        when (is_some oldpwd) (emit (Free "oldpwd")) ;;
        ret (-1)%Z
    | Some entries =>
        emit (Opendir dir true) ;;
        let args := va_fill extra 1 (repeat None NUM_ARGS) in
        ent <- collect entries [] ;;
        emit Closedir ;;
        if (List.length ent =? 0)%nat then
          when (is_some oldpwd) (emit (Free "oldpwd")) ;;
          ret 0%Z
        else
          exec_all e args 0 (qsort ent) ;;
          _ <- sys_chdir e oldpwd ;;
          emit (Free "oldpwd") ;;
          ret 0%Z
    end.

(** An entry the scan keeps: a regular file whose [stat] shows the owner's
    execute bit. *)
Definition runnable (d : dirent) : bool :=
  (d_type d =? DT_REG)%Z &&
  match d_stat d with
  | Some mode => negb (Z.land mode S_IXUSR =? 0)%Z
  | None => false
  end.

(** The names kept: the first [NUM_SCRIPTS] runnable ones, in directory
    order. *)
Definition scripts (entries : list dirent) : list string :=
  firstn NUM_SCRIPTS (map d_name (filter runnable entries)).

(** The order of [cmp]. *)
Definition cmp_le (a b : string) : Prop := (cmp a b <= 0)%Z.

(** A name as [readdir] gives it: no NUL inside. *)
Definition plain (s : string) : Prop := ~ In NUL (lit s).

(** The next [fork] or [waitpid] of a trace is the [waitpid] for [pid]. *)
Fixpoint awaited (pid : positive) (tr : list event) : bool :=
  match tr with
  | [] => false
  | Waitpid p :: _ => (p =? Z.pos pid)%Z
  | Fork _ _ :: _ => false
  | ForkFailed :: _ => false
  | _ :: rest => awaited pid rest
  end.

(** Every child of the trace is waited for before anything else is
    forked. *)
Fixpoint sequential (tr : list event) : bool :=
  match tr with
  | [] => true
  | Fork pid _ :: rest => awaited pid rest && sequential rest
  | _ :: rest => sequential rest
  end.

(** Events that neither fork nor wait. *)
Definition quiet_event (ev : event) : bool :=
  match ev with
  | Fork _ _ | ForkFailed | Waitpid _ => false
  | _ => true
  end.

(** The [exec] calls of the children of a trace, and the programs they
    name. *)
Definition calls (tr : list event) : list (string * list string) :=
  flat_map (fun f => exec_calls (snd f)) (forks tr).

Definition programs (tr : list event) : list string := map fst (calls tr).

(** A call that passes a program nothing but its own name. *)
Definition bare (name : string) : string * list string := (name, [name]).

End Batch.

(* ================================================================== *)
(** ** [procname_kill] (helpers.c, lines 299-343) *)
(* ================================================================== *)

Module ProcName.
Import CStr Sys Runner.
Local Open Scope string_scope.
Local Open Scope list_scope.
Local Open Scope sys_scope.

(** One entry of /proc as the scan meets it. *)
Record proc_entry := {
  pe_d_name  : string;
  pe_status  : option (list char); (* /proc/<d_name>/status: its contents,
                                      None when fopen fails *)
  pe_kill_ok : bool                (* kill() of that pid returns 0 *)
}.

Record kill_env := {
  k_opendir : option (list proc_entry)   (* opendir("/proc") and its entries *)
}.

(** [snprintf(path, sizeof(path), "/proc/%s/status", d_name)]. *)
Definition status_path (d_name : string) : string :=
  show (firstn 31 (lit ("/proc/" ++ d_name ++ "/status"))).

(** Line 326: [strncmp(pname, name, strlen(pname) - 1) == 0]. *)
Definition name_matches (pname name : list char) : bool :=
  (strncmp pname name (size_sub (Z.of_nat (strlen pname)) 1) =? 0)%Z.

(** Lines 313-338: one pass of the [while]; [line + 6] is read only when
    [fgets] stored that far. *)
Definition visit (name : list char) (signo : Z) (pe : proc_entry)
  (result : Z) : M Z :=
  if negb (isdigit (hd NUL (lit (pe_d_name pe)))) then ret result
  else
    let path := status_path (pe_d_name pe) in
    match pe_status pe with
    | None => emit (Fopen path false) ;; ret result
    | Some content =>
        emit (Fopen path true) ;;
        r <- match fgets 64 content with
             | None => ret result
             | Some line =>
                 if (strlen line <? 6)%nat then crash
                 else
                   let pname := skipn 6 (c_str line) in
                   if name_matches pname name then
                     let pid := atoi (lit (pe_d_name pe)) in
                     if pe_kill_ok pe then
                       emit (Kill pid signo true) ;;
                       ret (result + 1)%Z
                     else
                       emit (Kill pid signo false) ;;
                       emit (Log "Failed signalling") ;;
                       ret result
                   else ret result
             end ;;
        emit (Fclose path) ;;
        ret r
    end.

Fixpoint scan_proc (name : list char) (signo : Z) (entries : list proc_entry)
  (result : Z) : M Z :=
  match entries with
  | [] => ret result
  | pe :: rest =>
      r <- visit name signo pe result ;;
      scan_proc name signo rest r
  end.

Definition procname_kill (e : kill_env) (name : option (list char))
  (signo : Z) : M Z :=
  emit (Opendir "/proc" (is_some (k_opendir e))) ;;
  match k_opendir e, name with
  | Some entries, Some nm =>
      result <- scan_proc nm signo entries 0%Z ;;
      emit Closedir ;;
      ret result
  | _, _ =>
      set_errno EINVAL ;;
      ret 0%Z
  end.

(** The name the scan compares for an entry: the first line of its status
    file past the six characters of the label, newline included. *)
Definition candidate (pe : proc_entry) : option (list char) :=
  match pe_status pe with
  | Some content =>
      match fgets 64 content with
      | Some line =>
          if (strlen line <? 6)%nat then None else Some (skipn 6 (c_str line))
      | None => None
      end
  | None => None
  end.

(** The entries the scan signals. *)
Definition selected (name : list char) (pe : proc_entry) : bool :=
  isdigit (hd NUL (lit (pe_d_name pe))) &&
  match candidate pe with
  | Some pname => name_matches pname name
  | None => false
  end.

(** A first line, when there is one, reaches past the label. *)
Definition well_formed (pe : proc_entry) : bool :=
  match pe_status pe with
  | Some content =>
      match fgets 64 content with
      | Some line => (6 <=? strlen line)%nat
      | None => true
      end
  | None => true
  end.

(** The [kill] calls of a trace: pid, signal, success. *)
Fixpoint kills (tr : list event) : list (Z * Z * bool) :=
  match tr with
  | [] => []
  | Kill pid signo ok :: rest => (pid, signo, ok) :: kills rest
  | _ :: rest => kills rest
  end.

Definition label : list char := lit "Name:" ++ ["009"%char].

(** The [kill] call an entry receives when it is selected. *)
Definition kill_call (signo : Z) (pe : proc_entry) : Z * Z * bool :=
  (atoi (lit (pe_d_name pe)), signo, pe_kill_ok pe).

End ProcName.

(* ================================================================== *)
(** ** [pidfile_read] (helpers.c, lines 151-178) *)
(* ================================================================== *)

Module PidFile.
Import CStr Sys Runner.
Local Open Scope string_scope.
Local Open Scope list_scope.
Local Open Scope sys_scope.

Record pidfile_env := {
  f_exists  : bool;                 (* fexist(pidfile), from helpers.h *)
  f_content : option (list char)    (* fopen(pidfile, "r"): the contents,
                                       None when it fails *)
}.

(** Lines 169-174. *)
Definition parse_pid (buf : list char) : M Z :=
  set_errno 0%Z ;;
  let '(v, err) := strtoul0 buf in
  set_errno err ;;
  errno <- get_errno ;;
  if negb (errno =? 0)%Z then ret 0%Z else ret (to_int v).

Definition ENOENT : Z := 2.

(** [fexist(path)] of helpers.h, which is not under src/: its answer is
    the environment's.  A miss leaves [errno] at [ENOENT], as the comment
    of [pidfile_read] has it (lines 146-147: when the pidfile does not
    exist, -1 and errno set to ENOENT); nothing else on that path sets
    [errno]. *)
Definition fexist (found : bool) : M bool :=
  if found then ret true else set_errno ENOENT ;; ret false.

Definition pidfile_read (e : pidfile_env) (pidfile : option string) : M Z :=
  match pidfile with
  | None => set_errno EINVAL ;; ret (-1)%Z
  | Some path =>
      found <- fexist (f_exists e) ;;
      if negb found then ret (-1)%Z
      else
        match f_content e with
        | None => emit (Fopen path false) ;; ret (-1)%Z
        | Some content =>
            emit (Fopen path true) ;;
            pid <- match fgets 16 content with
                   | Some buf => parse_pid buf
                   | None => ret 0%Z
                   end ;;
            emit (Fclose path) ;;
            ret pid
        end
  end.

End PidFile.

(* ================================================================== *)
(** ** Concrete inputs *)
(* ================================================================== *)

Module Examples.
Import CStr Tokenizer WaitStatus Sys Runner Batch ProcName PidFile.
Local Open Scope string_scope.

Definition dq : string := String dquote "".
Definition tab : string := String "009" "".
Definition nl : string := String newline "".

Definition echo_cmd : string := "echo hello".

(** [su -c "dbus-daemon --system" messagebus] *)
Definition su_cmd : string :=
  "su -c " ++ dq ++ "dbus-daemon --system" ++ dq ++ " messagebus".

Definition echo_argv : list string := ["echo"; "hello"].

Definition true_cmd : string := "/bin/true".

(** The third word of [su_cmd] as the code leaves it, and as it would be
    with the quotes stripped. *)
Definition quoted_word : string := dq ++ "dbus-daemon --system" ++ dq.
Definition su_argv : list string := ["su"; "-c"; quoted_word; "messagebus"].
Definition su_argv_stripped : list string :=
  ["su"; "-c"; "dbus-daemon --system"; "messagebus"].

(** Seventeen words. *)
Definition long_cmd : string := "a b c d e f g h i j k l m n o p q".

(** An environment in which every call of [run] succeeds and the program
    ends as [prog]. *)
Definition env_runs (prog : termination) : run_env :=
  {| e_strdup_ok := true; e_devnull := Some 3%Z; e_fork := Some 100%positive;
     e_exec_ok := true; e_prog := prog; e_wait := None |}.

(** The same, but [execvp] fails in the child. *)
Definition env_exec_fails : run_env :=
  {| e_strdup_ok := true; e_devnull := Some 3%Z; e_fork := Some 100%positive;
     e_exec_ok := false; e_prog := Exited 0; e_wait := None |}.

Definition SIGINT : Z := 2.
Definition SIGKILL : Z := 9.

Definition echo_tok : tok_state :=
  Eval vm_compute in
    match tokenize (lit echo_cmd) with
    | Ok t => t
    | Fault => tok_init [] None
    end.

(** The state of the tokenizer of [su_cmd] when it meets the quote. *)
Definition su_pre : list char := (lit "su" ++ NUL :: lit "-c" ++ [NUL])%list.
Definition su_body : list char := lit "dbus-daemon --system".
Definition su_rest : list char := (lit "messagebus" ++ [NUL])%list.
Definition su_args : argv_array :=
  store (store (repeat None (S NUM_ARGS)) 0 (Some 0)) 1 (Some 3).
Definition su_state : tok_state :=
  {| t_buf := (su_pre ++ dquote :: su_body ++ dquote :: " "%char :: su_rest)%list;
     t_arg := Some (List.length su_pre); t_args := su_args; t_i := 2 |}.

Definition letters : list string :=
  ["a"; "b"; "c"; "d"; "e"; "f"; "g"; "h"; "i"; "j"; "k"; "l"; "m"; "n";
   "o"; "p"].

(** A directory of boot scripts, one of documents only. *)
Definition script (name : string) (mode : Z) : dirent :=
  {| d_name := name; d_type := DT_REG; d_stat := Some mode |}.

Definition rc_entries : list dirent :=
  [script "S02b" 493; script "S01a" 493; script "README" 420].

Definition doc_entries : list dirent := [script "README" 420].

(** Every call succeeds; /etc/rc.d and /etc/docs exist, and nothing else
    can be opened. *)
Definition rc_env : parts_env :=
  {| b_getcwd_ok := true;
     b_chdir := fun _ => true;
     b_opendir := fun p =>
       if String.eqb p "/etc/rc.d" then Some rc_entries
       else if String.eqb p "/etc/docs" then Some doc_entries
       else None;
     b_fork := fun i => Some (Pos.of_nat (200 + i));
     b_exec_ok := fun _ => true |}.

(** /proc/<pid>/status of a process called [comm]. *)
Definition status_of (comm : string) : list char :=
  lit ("Name:" ++ tab ++ comm ++ nl ++ "State:" ++ tab ++ "S (sleeping)" ++ nl).

Definition live (pid comm : string) : proc_entry :=
  {| pe_d_name := pid; pe_status := Some (status_of comm);
     pe_kill_ok := true |}.

(** One process, called foobar, and the entry /proc/self. *)
Definition foobar_env : kill_env :=
  {| k_opendir := Some [live "self" "foobar"; live "42" "foobar"] |}.

(** Processes called foo and foobar. *)
Definition foo_env : kill_env :=
  {| k_opendir := Some [live "42" "foobar"; live "43" "foo"] |}.

Definition SIGTERM : Z := 15.

Definition pidfile_with (content : string) : pidfile_env :=
  {| f_exists := true; f_content := Some (lit content) |}.

Definition pidfile_absent : pidfile_env :=
  {| f_exists := false; f_content := None |}.

End Examples.

(* ================================================================== *)
(** ** Command lines as words (for the tokenizer of [run]) *)
(* ================================================================== *)

Module Words.
Import CStr Tokenizer.

(** A command line written as a first word and further words, each after
    one separating character. *)
Definition join (w0 : list char) (rest : list (char * list char)) : list char :=
  w0 ++ flat_map (fun sw => fst sw :: snd sw) rest.

(** A word holds neither NUL nor a blank. *)
Definition word_ok (w : list char) : Prop :=
  ~ In NUL w /\ (forall c, In c w -> mem c blanks = false).

(** A word that does not open with a quote. *)
Definition unquoted (w : list char) : bool :=
  match w with
  | c :: _ => negb (Ascii.eqb c squote || Ascii.eqb c dquote)
  | [] => true
  end.

(** A blank and the unquoted word after it. *)
Definition spaced (sw : char * list char) : Prop :=
  mem (fst sw) blanks = true /\ word_ok (snd sw) /\ unquoted (snd sw) = true.

End Words.

Module Samples.
Import CStr Tokenizer Words.
Local Open Scope string_scope.
Local Open Scope list_scope.

(** [mount -t proc proc /proc], the first gap a tab. *)
Definition mount_word : list char := lit "mount".
Definition mount_rest : list (char * list char) :=
  [("009"%char, lit "-t"); (" "%char, lit "proc"); (" "%char, lit "proc");
   (" "%char, lit "/proc")].
Definition mount_argv : list string := ["mount"; "-t"; "proc"; "proc"; "/proc"].

End Samples.

(* ================================================================== *)
(** ** What a trace takes and gives back *)
(* ================================================================== *)

Module Resources.
Import CStr Sys Runner.
Local Open Scope string_scope.
Local Open Scope list_scope.

(** The blocks a trace allocated and freed, the streams it opened and
    closed, the children it waited for and the bytes it wrote to the
    standard error stream, each in program order. *)
Definition allocated (tr : list event) : list string :=
  flat_map (fun ev => match ev with Alloc w => [w] | _ => [] end) tr.

Definition freed (tr : list event) : list string :=
  flat_map (fun ev => match ev with Free w => [w] | _ => [] end) tr.

Definition opened (tr : list event) : list string :=
  flat_map (fun ev => match ev with Fopen p true => [p] | _ => [] end) tr.

Definition closed (tr : list event) : list string :=
  flat_map (fun ev => match ev with Fclose p => [p] | _ => [] end) tr.

Definition waited (tr : list event) : list Z :=
  flat_map (fun ev => match ev with Waitpid p => [p] | _ => [] end) tr.

Definition created (tr : list event) : list Z :=
  map (fun pc => Z.pos (fst pc)) (forks tr).

Definition stderr_text (tr : list event) : list char :=
  flat_map (fun ev => match ev with WriteStderr t => t | _ => [] end) tr.

(** Fork fails; every other call succeeds. *)
Definition env_fork_fails : run_env :=
  {| e_strdup_ok := true; e_devnull := Some 3%Z; e_fork := None;
     e_exec_ok := true; e_prog := WaitStatus.Exited 0; e_wait := None |}.

(** A call of [run_interactive] whose command leaves twelve bytes in the
    scratch file. *)
Definition ri_echo : ri_env :=
  {| ri_tmpfile := Some 4%Z; ri_debug := false; ri_oldout := 5%Z;
     ri_olderr := 6%Z; ri_run := Examples.env_runs (WaitStatus.Exited 0);
     ri_captured := lit "hello world" ++ [newline] |}.

End Resources.

(* ================================================================== *)
(** ** [chomp] (helpers.c, lines 695-701) *)
(* ================================================================== *)

Module Lines.
Import CStr Tokenizer.
Local Open Scope list_scope.
Local Open Scope mem_scope.

(** [strchr(s, c)] on the object that starts at [s]: the offset of the
    first [c] of the string, its terminator included, [None] when there is
    none; the scan faults when it leaves the object. *)
Fixpoint strchr (l : list char) (c : char) : mem_result (option nat) :=
  match l with
  | [] => Fault
  | d :: l' =>
      if Ascii.eqb d c then Ok (Some O)
      else if is_nul d then Ok None
      else r <- strchr l' c ;; Ok (option_map S r)
  end.

Definition chomp (str : buffer) : mem_result buffer :=
  x <- strchr str newline ;;
  match x with
  | Some p => poke str p NUL
  | None => Ok str
  end.

End Lines.

(* ================================================================== *)
(** ** [makepath] (helpers.c, lines 59-80) *)
(* ================================================================== *)

Module MakePath.
Import CStr Tokenizer Sys.
Local Open Scope list_scope.
Local Open Scope mem_scope.

Definition slash : char := "/"%char.

(** What a call that returns leaves: its value, the [errno] it assigned
    itself, and the directories it asked [mkdir] for, in order. *)
Record made := {
  m_ret   : Z;
  m_errno : option Z;
  m_dirs  : list (list char)
}.

Section Make.

(** [PATH_MAX], from <limits.h>: the size of [buf]. *)
Variable PATH_MAX : nat.

(** [mkdir(buf, 0777)]: its return value for each path. *)
Variable mkdir : list char -> Z.

(** Lines 71-73, the inner [do ... while]: [path] is what the pointer
    still has before it, [buf] what has been written, [x] lying at its
    end. *)
Fixpoint copy_component (path buf : list char)
  : mem_result (list char * list char) :=
  match path with
  | [] => Fault
  | c :: path' =>
      if PATH_MAX <=? List.length buf then Fault
      else
        match path' with
        | [] => Fault
        | d :: _ =>
            if negb (is_nul d) && negb (Ascii.eqb d slash)
            then copy_component path' (buf ++ [c])
            else Ok (path', buf ++ [c])
        end
  end.

(** Line 77: the test of the outer loop, [*path] not NUL and either not
    a slash or followed by a byte that is not NUL. *)
Definition goes_on (path : list char) : mem_result bool :=
  match path with
  | [] => Fault
  | c :: path' =>
      if is_nul c then Ok false
      else if negb (Ascii.eqb c slash) then Ok true
      else match path' with
           | [] => Fault
           | d :: _ => Ok (negb (is_nul d))
           end
  end.

(** Lines 70-77, the outer [do ... while]; a pass consumes a byte of the
    path, so its length bounds the passes, and [None], for passes used
    up, is not met from [makepath] (lemma [make_loop_enough]). *)
Fixpoint make_loop (fuel : nat) (path buf : list char)
  : mem_result (option (Z * list (list char))) :=
  match fuel with
  | O => Ok None
  | S fuel' =>
      ' (path1, buf1) <- copy_component path buf ;;
      if PATH_MAX <=? List.length buf1 then Fault
      else
        let dir := c_str (buf1 ++ [NUL]) in
        let ret := mkdir dir in
        again <- goes_on path1 ;;
        if again then
          r <- make_loop fuel' path1 buf1 ;;
          Ok (option_map (fun rc => (fst rc, dir :: snd rc)) r)
        else Ok (Some (ret, [dir]))
  end.

Definition makepath (path : option (list char)) : mem_result (option made) :=
  match path with
  | None => Ok (Some {| m_ret := (-1)%Z; m_errno := Some EINVAL;
                        m_dirs := [] |})
  | Some p =>
      r <- make_loop (S (List.length p)) p [] ;;
      Ok (option_map (fun rc => {| m_ret := fst rc; m_errno := None;
                                   m_dirs := snd rc |}) r)
  end.

End Make.

(** The cuts of the path [pre ++ c :: r] from [c] on: before every slash
    behind [c], and at the end unless the path stops at such a slash. *)
Fixpoint cuts (pre : list char) (c : char) (r : list char)
  : list (list char) :=
  match r with
  | [] => [pre ++ [c]]
  | d :: r' =>
      if Ascii.eqb d slash then
        (pre ++ [c]) :: match r' with
                        | [] => []
                        | _ :: _ => cuts (pre ++ [c]) d r'
                        end
      else cuts (pre ++ [c]) d r'
  end.

(** [q] is followed by a slash in the path, or is all of a path that
    does not end in a slash behind its first byte. *)
Definition cut_of (s q : list char) : Prop :=
  q <> [] /\
  exists t, s = q ++ t /\
    ((exists t', t = slash :: t') \/
     (t = [] /\ (List.length q = 1 \/ last q NUL <> slash))).

Definition shorter (a b : list char) : Prop := List.length a < List.length b.

(** A path that ends in a slash, and a [mkdir] that finds /usr in
    place. *)
Definition usr_local : list char := lit "/usr/local/".

Definition mkdir_usr (dir : list char) : Z :=
  if String.eqb (show dir) "/usr" then (-1)%Z else 0%Z.

End MakePath.

(* ================================================================== *)
(** ** [pidfile_poll] (helpers.c, lines 192-211) *)
(* ================================================================== *)

Module Poll.
Import CStr Sys Runner PidFile.
Local Open Scope string_scope.
Local Open Scope list_scope.
Local Open Scope sys_scope.

(** The answers of the system to one call of [pidfile_poll]: what
    [fexist(path)] says at each of its calls from this function, counted
    from 0, and what [pidfile_read] meets. *)
Record poll_env := {
  pl_exists : nat -> bool;
  pl_read   : pidfile_env
}.

(** Lines 198-201, [while (!fexist(path) && tries++ < 100) usleep(50000)]:
    the calls of [fexist] made, [tries], and the calls of [usleep] made. *)
Fixpoint wait_loop (fuel : nat) (ex : nat -> bool) (probe tries slept : nat)
  : M (option (nat * nat * nat)) :=
  match fuel with
  | O => ret None
  | S fuel' =>
      found <- fexist (ex probe) ;;
      if negb found then
        if (tries <? 100)%nat
        then wait_loop fuel' ex (S probe) (S tries) (S slept)
        else ret (Some (S probe, S tries, slept))
      else ret (Some (S probe, tries, slept))
  end.

(** The value returned, and with it the count of the calls of [usleep].
    101 passes always suffice (lemma [wait_loop_enough]), so the fuel never
    runs out. *)
Definition pidfile_poll (e : poll_env) (cmd path : string) : M (Z * nat) :=
  r <- wait_loop 101 (pl_exists e) 0 0 0 ;;
  match r with
  | None => crash
  | Some (probe, _, slept) =>
      found <- fexist (pl_exists e probe) ;;
      if negb found then
        emit (Log "Timeout! No PID found") ;;
        ret (0%Z, slept)
      else
        pid <- pidfile_read (pl_read e) (Some path) ;;
        ret (pid, slept)
  end.

(** The state after a call of [fexist] that did not find the file. *)
Definition missed (s : proc) : proc :=
  {| p_trace := p_trace s; p_errno := ENOENT; p_cwd := p_cwd s |}.

(** The file appears before the fourth look and stays. *)
Definition appears_at (k : nat) : nat -> bool := fun n => (k <=? n)%nat.

Definition poll_env_late : poll_env :=
  {| pl_exists := appears_at 3;
     pl_read := Examples.pidfile_with ("4711" ++ Examples.nl)%string |}.

Definition poll_env_never : poll_env :=
  {| pl_exists := fun _ => false; pl_read := Examples.pidfile_absent |}.

End Poll.

(* ================================================================== *)
(** ** [pid_alive] (helpers.c, lines 221-228) *)
(* ================================================================== *)

Module Printf.
Import CStr.
Local Open Scope string_scope.
Local Open Scope list_scope.
Local Open Scope Z_scope.

Definition INT_MIN : Z := - 2 ^ 31.
Definition INT_MAX : Z := 2 ^ 31 - 1.

Definition digit_char (d : Z) : char := ascii_of_nat (48 + Z.to_nat d).

(** The decimal digits of [n], most significant first, before [acc]. *)
Fixpoint udecimal (fuel : nat) (n : Z) (acc : list char) : list char :=
  match fuel with
  | O => acc
  | S fuel' =>
      let acc' := digit_char (n mod 10) :: acc in
      if n <? 10 then acc' else udecimal fuel' (n / 10) acc'
  end.

(** What [%d] prints for an [int]: a minus sign for a negative value,
    then its digits, ten at most. *)
Definition decimal (n : Z) : list char :=
  if n <? 0 then "-"%char :: udecimal 10 (- n) [] else udecimal 10 n [].

(** [snprintf(buf, size, ...)] leaves at most [size - 1] characters. *)
Definition snprintf (size : nat) (text : list char) : list char :=
  firstn (size - 1) text.

(** [fexist], from helpers.h, answers for each path. *)
Definition pid_alive (fexist : string -> bool) (pid : Z) : bool :=
  let name := snprintf 24 (lit "/proc/" ++ decimal pid) in
  fexist (show name).

End Printf.

(* ================================================================== *)
(** ** [copyfile] (helpers.c, lines 115-137) *)
(* ================================================================== *)

Module CopyFile.
Import CStr Tokenizer Printf.
Local Open Scope list_scope.
Local Open Scope mem_scope.
Local Open Scope Z_scope.

(** The two files as [copyfile] finds them: both are regular files, so a
    [read] returns what is left of the file up to the count asked for. *)
Record copy_env := {
  cf_src    : option (list char);  (* open(src, O_RDONLY): the contents,
                                      None when it fails *)
  cf_dst_ok : bool;                (* open(dst, O_WRONLY | O_CREAT, 0644) *)
  cf_old    : list char            (* what dst holds before the call,
                                      nothing when it is created *)
}.

(** [size], what is left to read of the source, what has been written
    to the destination and what the destination holds behind that. *)
Record cp_state := {
  st_size : Z;
  st_src  : list char;
  st_out  : list char;
  st_old  : list char
}.

Section Copy.

(** [BUF_SIZE], from finit.h. *)
Variable BUF_SIZE : Z.

(** Lines 127-131, one pass of the [do ... while], and [n].  The count
    given to [read] is a [size_t]: a negative [csize] becomes a count
    above [SSIZE_MAX], which spans no range of user memory, so that
    [read] fails with [EFAULT], returns -1 and stores nothing.  Otherwise
    [read] stores into [buffer] what is left of the file, [csize] bytes
    at most. *)
Definition copy_pass (st : cp_state) : mem_result (cp_state * Z) :=
  let csize := if st_size st >? BUF_SIZE then BUF_SIZE else st_size st in
  if csize <? 0 then
    Ok ({| st_size := st_size st - csize; st_src := st_src st;
           st_out := st_out st; st_old := st_old st |}, -1)
  else
    let len := Z.to_nat (Z.min csize (Z.of_nat (List.length (st_src st)))) in
    let n := Z.of_nat len in
    if n >? BUF_SIZE then Fault
    else
      Ok ({| st_size := st_size st - csize;
             st_src := skipn len (st_src st);
             st_out := if n >? 0 then st_out st ++ firstn len (st_src st)
                       else st_out st;
             st_old := if n >? 0 then skipn len (st_old st) else st_old st |},
          n).

(** Lines 126-132; a pass that goes on has read [BUF_SIZE] bytes. *)
Fixpoint copy_loop (fuel : nat) (st : cp_state)
  : mem_result (option cp_state) :=
  match fuel with
  | O => Ok None
  | S fuel' =>
      ' (st', n) <- copy_pass st ;;
      if (st_size st' >? 0) && (n =? BUF_SIZE)
      then copy_loop fuel' st'
      else Ok (Some st')
  end.

(** What the destination holds after the call.  With [BUF_SIZE]
    positive, one pass more than the source has bytes always suffices
    (lemma [copy_loop_spec]); [Fault] is a [read] that overruns
    [buffer]. *)
Definition copyfile (e : copy_env) (size : Z) : mem_result (list char) :=
  let size := if size =? 0 then INT_MAX else size in
  match cf_src e with
  | None => Ok (cf_old e)
  | Some src =>
      if negb (cf_dst_ok e) then Ok (cf_old e)
      else
        r <- copy_loop (S (List.length src))
               {| st_size := size; st_src := src; st_out := [];
                  st_old := cf_old e |} ;;
        match r with
        | Some st => Ok (st_out st ++ st_old st)
        | None => Fault
        end
  end.

End Copy.

(** How many bytes a call is to copy at most. *)
Definition limit (size : Z) : Z := if size =? 0 then INT_MAX else size.

(** A short file copied over a longer one. *)
Definition env_overwrite : copy_env :=
  {| cf_src := Some (lit "finit"); cf_dst_ok := true;
     cf_old := lit "0123456789" |}.

End CopyFile.

(* ================================================================== *)
(** ** [print_descr] (helpers.c, lines 367-379) *)
(* ================================================================== *)

Module Progress.
Import CStr Sys Runner.
Local Open Scope string_scope.
Local Open Scope list_scope.
Local Open Scope sys_scope.

(** ["\r\e[K"]. *)
Definition home : list char :=
  [ascii_of_nat 13; ascii_of_nat 27; "["%char; "K"%char].

(** A space and sixty-nine dots. *)
Definition dots : list char := " "%char :: repeat "."%char 69.

(** [sizeof(dots)]: the string and its terminator. *)
Definition sizeof_dots : Z := Z.of_nat (List.length dots) + 1.

Definition EFAULT : Z := 14.

(** [SSIZE_MAX], with a [ssize_t] of 64 bits. *)
Definition SSIZE_MAX : Z := (2 ^ 63 - 1)%Z.

(** [write(STDERR_FILENO, buf, count)] of the first [count] bytes of an
    object.  A count above [SSIZE_MAX] spans no range of user memory: the
    kernel refuses it with [EFAULT] before it reads a byte, and the call
    returns -1; a smaller count beyond the object reads outside it. *)
Definition write_stderr (object : list char) (count : Z) : M unit :=
  if (count >? Z.of_nat (List.length object))%Z then
    if (count >? SSIZE_MAX)%Z then set_errno EFAULT else crash
  else emit (WriteStderr (firstn (Z.to_nat count) object)).

(** [print_uptime] writes [uptime]: nothing when [CONFIG_PRINTK_TIME] is
    not defined or /proc/uptime cannot be opened. *)
Definition print_descr (uptime : list char) (action descr : list char)
  : M unit :=
  emit (WriteStderr home) ;;
  emit (WriteStderr uptime) ;;
  emit (WriteStderr (c_str action)) ;;
  emit (WriteStderr (c_str descr)) ;;
  write_stderr (dots ++ [NUL])
    (size_sub (size_sub 60 (Z.of_nat (strlen descr)))
       (Z.of_nat (strlen action))).

End Progress.

(* ================================================================== *)
(** ** [set_hostname] (helpers.c, lines 703-715) *)
(* ================================================================== *)

Module HostName.
Import CStr Tokenizer Lines.
Local Open Scope list_scope.
Local Open Scope mem_scope.

(** [strlen(s)] on the object that starts at [s]; without a terminator
    the scan leaves the object. *)
Definition strlen_in (object : buffer) : mem_result nat :=
  if existsb is_nul object then Ok (strlen object) else Fault.

(** [fgets(s, size, fp)] into the object that starts at [s], the stream
    at the start of [content]: the characters and a terminator are
    stored, nothing at end of file. *)
Definition fgets_into (object : buffer) (size : nat) (content : list char)
  : mem_result buffer :=
  match fgets size content with
  | Some line =>
      if List.length object <? List.length line + 1 then Fault
      else Ok (line ++ NUL :: skipn (List.length line + 1) object)
  | None => Ok object
  end.

Section Host.

(** [HOSTNAME_SIZE], from finit.h. *)
Variable HOSTNAME_SIZE : nat.

(** [file] is what /etc/hostname holds, [None] when [fopen] fails;
    [hostname] the caller's object.  The result is the name given to
    [sethostname], and the object as the call leaves it. *)
Definition set_hostname (file : option (list char)) (hostname : buffer)
  : mem_result (list char * buffer) :=
  buf <- match file with
         | Some content =>
             b <- fgets_into hostname HOSTNAME_SIZE content ;;
             chomp b
         | None => Ok hostname
         end ;;
  len <- strlen_in buf ;;
  Ok (firstn len buf, buf).

End Host.

(** The first line of a text, [n] characters of it at most: what stands
    before its first newline or NUL. *)
Fixpoint first_line (n : nat) (l : list char) : list char :=
  match n, l with
  | S n', c :: l' =>
      if Ascii.eqb c newline || is_nul c then [] else c :: first_line n' l'
  | _, _ => []
  end.

End HostName.

(* ================================================================== *)
(** ** [pid_get_name] and [procname_set] (helpers.c, lines 243-285) *)
(* ================================================================== *)

Module Names.
Import CStr Tokenizer Lines HostName Printf ProcName.
Local Open Scope string_scope.
Local Open Scope list_scope.
Local Open Scope mem_scope.

(** What a call of [pid_get_name] leaves: the string it returns, [None]
    for NULL, the caller's object and the static [line]. *)
Record got := {
  g_ret  : option (list char);
  g_name : option buffer;
  g_line : buffer
}.

Section Names.

(** [strlcpy(dst, src, size)] is not under src/: a parameter, given the
    object written to, the object read and the size. *)
Variable strlcpy : buffer -> buffer -> nat -> mem_result buffer.

(** The same call with both pointers into one object, at the offsets
    [dst] and [src]. *)
Variable strlcpy_within : buffer -> nat -> nat -> nat -> mem_result buffer.

(** The result is the name given to [prctl] and the object of [args[0]]
    as the call leaves it. *)
Definition procname_set (name : buffer) (arg0 : buffer)
  : mem_result (list char * buffer) :=
  n <- strlen_in arg0 ;;
  let len := n + 1 in
  let zeroed := repeat NUL len ++ skipn len arg0 in
  b <- strlcpy zeroed name len ;;
  Ok (c_str name, b).

(** [status] is what [fopen] finds at a path, [line] the static array of
    64 bytes as earlier calls left it. *)
Definition pid_get_name (status : string -> option (list char)) (pid : Z)
  (name : option buffer) (len : nat) (line : buffer) : mem_result got :=
  let path := show (snprintf 32 (lit "/proc/" ++ decimal pid
                                   ++ lit "/status")) in
  let untouched := {| g_ret := None; g_name := name; g_line := line |} in
  match status path with
  | None => Ok untouched
  | Some content =>
      match fgets 64 content with
      | None => Ok untouched
      | Some _ =>
          line1 <- fgets_into line 64 content ;;
          pname <- chomp (skipn 6 line1) ;;
          let line2 := firstn 6 line1 ++ pname in
          match name with
          | Some buf =>
              if Nat.eqb len 0 then
                line3 <- strlcpy_within line2 0 6 len ;;
                Ok {| g_ret := Some (c_str line3); g_name := name;
                      g_line := line3 |}
              else
                buf' <- strlcpy buf pname len ;;
                Ok {| g_ret := Some (c_str buf'); g_name := Some buf';
                      g_line := line2 |}
          | None =>
              line3 <- strlcpy_within line2 0 6 len ;;
              Ok {| g_ret := Some (c_str line3); g_name := None;
                    g_line := line3 |}
          end
      end
  end.

End Names.

(** What is asked of [strlcpy] between two objects: with room for [size]
    bytes, it leaves [size - 1] characters of the string at most, and a
    terminator. *)
Definition copies_bounded
  (strlcpy : buffer -> buffer -> nat -> mem_result buffer) : Prop :=
  forall dst src size,
    (0 < size)%nat -> (size <= List.length dst)%nat ->
    let s := firstn (size - 1) (c_str src) in
    strlcpy dst src size = Ok (s ++ NUL :: skipn (List.length s + 1) dst).

(** And within one object: with a size of 0 nothing is written. *)
Definition writes_nothing_at_zero
  (strlcpy_within : buffer -> nat -> nat -> nat -> mem_result buffer) : Prop :=
  forall object dst src, strlcpy_within object dst src 0 = Ok object.

(** The function as OpenBSD has it, between two objects. *)
Definition strlcpy_bsd (dst src : buffer) (size : nat) : mem_result buffer :=
  match size with
  | O => Ok dst
  | S n =>
      let s := firstn n (c_str src) in
      if Nat.ltb (List.length dst) (List.length s + 1) then Fault
      else Ok (s ++ NUL :: skipn (List.length s + 1) dst)
  end.

(** Its loop within one object: bytes are copied from the lowest address
    up, until the terminator or until [nleft] is used up. *)
Fixpoint copy_up (nleft : nat) (object : buffer) (dst src : nat)
  : mem_result buffer :=
  match nleft with
  | O => poke object dst NUL
  | S n =>
      c <- peek object src ;;
      object' <- poke object dst c ;;
      if is_nul c then Ok object' else copy_up n object' (S dst) (S src)
  end.

Definition strlcpy_within_bsd (object : buffer) (dst src size : nat)
  : mem_result buffer :=
  match size with
  | O => Ok object
  | S n => copy_up n object dst src
  end.

(** The status file of a process named syslogd. *)
Definition syslogd_status : list char :=
  label ++ lit "syslogd" ++ newline :: lit "State:" ++ [newline].

Definition proc_17 (path : string) : option (list char) :=
  if String.eqb path "/proc/17/status" then Some syslogd_status else None.

(** The entry of /proc for that process. *)
Definition entry_17 : proc_entry :=
  {| pe_d_name := "17"; pe_status := Some syslogd_status;
     pe_kill_ok := true |}.

End Names.

(* ================================================================== *)
(** ** [run_getty] (helpers.c, lines 529-588) *)
(* ================================================================== *)

Module Getty.
Import CStr Tokenizer WaitStatus Sys Runner.
Local Open Scope string_scope.
Local Open Scope list_scope.

(** What the child of [run_getty] does, in program order. *)
Inductive gevent :=
| GVhangup
| GClose (fd : Z)
| GOpen (fd : Z)              (* open(CONSOLE, O_RDWR) returned fd *)
| GUnblock                    (* sigprocmask(SIG_UNBLOCK, {SIGCHLD}) *)
| GSigDfl (signo : nat)       (* sigaction(signo, SIG_DFL) *)
| GDup2 (oldfd newfd : Z)
| GProcname (name : string)   (* procname_set(name, argv) *)
| GSleep                      (* sleep(1) *)
| GPrompt                     (* the prompt written to stderr *)
| GRead (calls : nat)         (* the calls of read() of one prompt *)
| GRun (status : Z).          (* run(cmd) returned status *)

(** How the child is left: it has exited, it has crashed on undefined
    behaviour, or it is in the loop still. *)
Inductive gend :=
| GExit (code : Z)
| GCrashed
| GWaiting.

(** The answers of the system during one pass of the [while]. *)
Record round := {
  r_shutdown     : bool;     (* fexist(SYNC_SHUTDOWN), line 566 *)
  r_stopped      : bool;     (* fexist(SYNC_STOPPED), line 569 *)
  r_typed        : nat;      (* bytes read before the newline, or before
                                the read that fails *)
  r_stopped_then : bool;     (* fexist(SYNC_STOPPED), line 578 *)
  r_run          : run_env   (* what run(cmd) meets *)
}.

Record getty_env := {
  g_fork   : option positive;  (* fork(): the child's pid *)
  g_open   : Z;                (* open(CONSOLE, O_RDWR) in the child *)
  g_rounds : list round
}.

Section Getty.

Variable NSIG : nat.

(** Lines 566-582; when the answers are used up the child is in the loop
    still. *)
Fixpoint console_loop (cmd : list char) (rounds : list round)
  : list gevent * gend :=
  match rounds with
  | [] => ([], GWaiting)
  | r :: rest =>
      if r_shutdown r then ([], GExit 0)
      else if r_stopped r then
        let '(evs, fin) := console_loop cmd rest in (GSleep :: evs, fin)
      else
        let asked := [GPrompt; GRead (S (r_typed r))] in
        if r_stopped_then r then
          let '(evs, fin) := console_loop cmd rest in (asked ++ evs, fin)
        else
          match run NSIG (r_run r) cmd (start "/") with
          | Crash _ => (asked, GCrashed)
          | Cont status _ =>
              let '(evs, fin) := console_loop cmd rest in
              (asked ++ GRun status :: evs, fin)
          end
  end.

(** Lines 540-584: the child. *)
Definition console_child (e : getty_env) (cmd : list char)
  : list gevent * gend :=
  let detach := [GVhangup; GClose 2; GClose 1; GClose 0; GOpen (g_open e)] in
  if negb (g_open e =? 0)%Z then (detach, GExit 1)
  else
    let setup :=
      detach ++ GUnblock :: map GSigDfl (seq 1 (NSIG - 1))
      ++ [GDup2 0 STDIN_FILENO; GDup2 0 STDOUT_FILENO; GDup2 0 STDERR_FILENO;
          GProcname "console"] in
    let '(evs, fin) := console_loop cmd (g_rounds e) in
    (setup ++ evs, fin).

(** The value returned to the caller, and the child when there is one. *)
Definition run_getty (e : getty_env) (cmd : list char)
  : Z * option (list gevent * gend) :=
  match g_fork e with
  | Some pid => (Z.pos pid, Some (console_child e cmd))
  | None => ((-1)%Z, None)
  end.

End Getty.

(** The passes made before the shutdown marker is seen. *)
Fixpoint live (rounds : list round) : list round :=
  match rounds with
  | [] => []
  | r :: rest => if r_shutdown r then [] else r :: live rest
  end.

(** A pass in which the console is not stopped, before the prompt or
    after it. *)
Definition answered (r : round) : bool :=
  negb (r_stopped r) && negb (r_stopped_then r).

Definition prompts (evs : list gevent) : nat :=
  List.length (filter (fun ev => match ev with GPrompt => true | _ => false end)
                 evs).

Definition sleeps (evs : list gevent) : nat :=
  List.length (filter (fun ev => match ev with GSleep => true | _ => false end)
                 evs).

Definition runs (evs : list gevent) : nat :=
  List.length (filter (fun ev => match ev with GRun _ => true | _ => false end)
                 evs).

Definition resets (evs : list gevent) : list nat :=
  flat_map (fun ev => match ev with GSigDfl n => [n] | _ => [] end) evs.

(** What the child does before the loop, the console attached: it has
    let go of the old terminal, unblocked SIGCHLD, reset every signal,
    tied the three standard streams to the console and taken its name. *)
Definition attach (NSIG : nat) : list gevent :=
  [GVhangup; GClose 2; GClose 1; GClose 0; GOpen 0; GUnblock]
  ++ map GSigDfl (seq 1 (NSIG - 1))
  ++ [GDup2 0 STDIN_FILENO; GDup2 0 STDOUT_FILENO; GDup2 0 STDERR_FILENO;
      GProcname "console"].

(** What one pass is to add when [run] gets through the command: a
    sleep where the console is stopped; otherwise the prompt, then the
    reads, and then, where the console is not stopped by then, the run,
    with the value [run] returned. *)
Definition pass (NSIG : nat) (cmd : list char) (r : round) : list gevent :=
  if r_stopped r then [GSleep]
  else
    GPrompt :: GRead (S (r_typed r))
    :: (if r_stopped_then r then []
        else match returned (run NSIG (r_run r) cmd (start "/")) with
             | Some status => [GRun status]
             | None => []
             end).

(** A console that is stopped, then answered twice, then shut down. *)
Definition calm (stopped : bool) : round :=
  {| r_shutdown := false; r_stopped := stopped; r_typed := 0;
     r_stopped_then := false;
     r_run := Examples.env_runs (Exited 0) |}.

Definition the_end : round :=
  {| r_shutdown := true; r_stopped := false; r_typed := 0;
     r_stopped_then := false;
     r_run := Examples.env_runs (Exited 0) |}.

Definition getty_day : getty_env :=
  {| g_fork := Some 200%positive; g_open := 0%Z;
     g_rounds := [calm true; calm false; calm false; the_end] |}.

End Getty.

(* ================================================================== *)
(** ** [run_parts]: what [waitpid] is asked for *)
(* ================================================================== *)

Module BatchWaits.
Import Sys Batch.
Local Open Scope list_scope.

(** The pid the [i]-th [waitpid] of [run_parts] is given: that of the
    child, or the -1 that a failed [fork] returned. *)
Definition wait_target (e : parts_env) (i : nat) : Z :=
  match b_fork e i with
  | Some pid => Z.pos pid
  | None => (-1)%Z
  end.

Definition child_of (e : parts_env) (i : nat) : list Z :=
  match b_fork e i with
  | Some pid => [Z.pos pid]
  | None => []
  end.

(** As [rc_env], but no [fork] succeeds. *)
Definition rc_env_no_fork : parts_env :=
  {| b_getcwd_ok := true;
     b_chdir := b_chdir Examples.rc_env;
     b_opendir := b_opendir Examples.rc_env;
     b_fork := fun _ => None;
     b_exec_ok := fun _ => true |}.

End BatchWaits.

(* ================================================================== *)
(** ** [run_parts]: the directory listed and the programs executed *)
(* ================================================================== *)

Module BatchRuns.
Import CStr Sys Runner Batch.
Local Open Scope string_scope.
Local Open Scope list_scope.

(** A path that starts at the root. *)
Definition is_absolute (path : string) : bool :=
  match path with
  | String "/" _ => true
  | _ => false
  end.

(** The programs a trace did execute: the [exec] calls of its children
    that succeeded, in the order of the forks. *)
Definition executed (tr : list event) : list (string * list string) :=
  flat_map (fun f => match c_end (snd f) with
                     | ExecOK file argv => [(file, argv)]
                     | ExitWith _ => []
                     end) (forks tr).

End BatchRuns.

(* ================================================================== *)
(** * Properties *)
(* ================================================================== *)

Unset Implicit Arguments.

(** ** Characters and strings *)

Module CStrFacts.
Import CStr.

Lemma nat_of_ascii_inj c d : nat_of_ascii c = nat_of_ascii d -> c = d.
Proof.
  intros H. rewrite <- (ascii_nat_embedding c), <- (ascii_nat_embedding d), H.
  reflexivity.
Qed.

Lemma uchar_inj c d : uchar c = uchar d -> c = d.
Proof. unfold uchar. intros H. apply nat_of_ascii_inj. lia. Qed.

Lemma is_nul_cases c :
  (is_nul c = true /\ c = NUL /\ uchar c = 0%Z) \/
  (is_nul c = false /\ (0 < uchar c)%Z).
Proof.
  unfold is_nul. destruct (Ascii.eqb c NUL) eqn:E.
  - left. apply Ascii.eqb_eq in E. subst c. repeat split.
  - right. split; [reflexivity|]. apply Ascii.eqb_neq in E.
    assert (uchar c <> 0%Z).
    { intros H. apply E. apply uchar_inj. rewrite H. reflexivity. }
    unfold uchar in *. lia.
Qed.

Lemma eqb_cases c d :
  (Ascii.eqb c d = true /\ c = d) \/
  (Ascii.eqb c d = false /\ uchar c <> uchar d).
Proof.
  destruct (Ascii.eqb c d) eqn:E.
  - left. apply Ascii.eqb_eq in E. auto.
  - right. split; [reflexivity|]. apply Ascii.eqb_neq in E.
    intros H. apply E. apply uchar_inj. exact H.
Qed.

Lemma uchar_diff c d : Ascii.eqb c d = false -> (uchar c - uchar d)%Z <> 0%Z.
Proof.
  intros E. destruct (eqb_cases c d) as [[K _]|[_ K]]; [congruence|lia].
Qed.

Lemma uchar_nonzero c : is_nul c = false -> uchar c <> 0%Z.
Proof.
  intros E. destruct (is_nul_cases c) as [[K _]|[_ K]]; [congruence|lia].
Qed.

Lemma not_in_nul x l : ~ In NUL (x :: l) -> is_nul x = false /\ ~ In NUL l.
Proof.
  intros H. split.
  - destruct (is_nul_cases x) as [(_ & K & _)|[K _]]; [|exact K].
    exfalso. apply H. left. auto.
  - intros K. apply H. right. exact K.
Qed.

Lemma c_str_id l : ~ In NUL l -> c_str l = l.
Proof.
  induction l as [|x l IH]; intros H; [reflexivity|].
  destruct (not_in_nul x l H) as [Hx Hl]. cbn [c_str]. rewrite Hx.
  f_equal. apply IH. exact Hl.
Qed.

Lemma not_in_app (c : char) l1 l2 : ~ In c l1 -> ~ In c l2 -> ~ In c (l1 ++ l2).
Proof.
  intros H1 H2 K. apply in_app_or in K. destruct K; auto.
Qed.

(** [strcmp] is antisymmetric as a three-way comparison. *)
Lemma strcmp_antisym a : forall b, strcmp b a = (- strcmp a b)%Z.
Proof.
  induction a as [|c a IH]; intros [|d b]; cbn [strcmp].
  - reflexivity.
  - destruct (is_nul d); lia.
  - destruct (is_nul c); lia.
  - rewrite Ascii.eqb_sym. destruct (Ascii.eqb c d) eqn:E.
    + apply Ascii.eqb_eq in E. subst d. destruct (is_nul c); [reflexivity|].
      apply IH.
    + lia.
Qed.

Ltac char_cases :=
  repeat match goal with
  | H : context [is_nul ?u] |- _ =>
      destruct (is_nul_cases u) as [(?E & ? & ?)|[?E ?]];
      rewrite ?E in *; clear E
  | |- context [is_nul ?u] =>
      destruct (is_nul_cases u) as [(?E & ? & ?)|[?E ?]];
      rewrite ?E in *; clear E
  | H : context [Ascii.eqb ?u ?v] |- _ =>
      destruct (eqb_cases u v) as [[?E ?]|[?E ?]];
      rewrite ?E in *; clear E
  | |- context [Ascii.eqb ?u ?v] =>
      destruct (eqb_cases u v) as [[?E ?]|[?E ?]];
      rewrite ?E in *; clear E
  end.

(** The order of [strcmp] is transitive. *)
Lemma strcmp_trans a : forall b c,
  (strcmp a b <= 0 -> strcmp b c <= 0 -> strcmp a c <= 0)%Z.
Proof.
  induction a as [|x a IH]; intros [|y b] [|z c]; cbn [strcmp];
    intros H1 H2; char_cases; subst; try lia; eauto.
Qed.

(** Strings that compare equal are the same up to their terminators. *)
Lemma strcmp_zero a : forall b, strcmp a b = 0%Z -> c_str a = c_str b.
Proof.
  induction a as [|x a IH]; intros [|y b]; cbn [strcmp c_str];
    intros H; char_cases; subst; try lia; try reflexivity.
  f_equal. apply IH. exact H.
Qed.

End CStrFacts.

(** ** Memory and the tokenizer *)

Module TokenizerFacts.
Import CStr Tokenizer Examples.
Local Open Scope mem_scope.

Lemma store_length (A : Type) (l : list A) i v :
  List.length (store l i v) = List.length l.
Proof.
  revert i; induction l as [|x l IH]; intros [|i]; simpl; auto.
Qed.

Lemma firstn_store (A : Type) (l : list A) i v n :
  n <= i -> firstn n (store l i v) = firstn n l.
Proof.
  revert i n; induction l as [|x l IH]; intros [|i] [|n] H; simpl; auto;
    try lia.
  f_equal. apply IH. lia.
Qed.

Lemma nth_store_same (A : Type) (l : list A) i v d :
  i < List.length l -> nth i (store l i v) d = v.
Proof.
  revert i; induction l as [|x l IH]; intros [|i] H; simpl in *; try lia; auto.
  apply IH. lia.
Qed.

Lemma nth_error_store_same (A : Type) (l : list A) i v :
  i < List.length l -> nth_error (store l i v) i = Some v.
Proof.
  revert i; induction l as [|x l IH]; intros [|i] H; simpl in *; try lia; auto.
  apply IH. lia.
Qed.

Lemma poke_inv buf p c buf' :
  poke buf p c = Ok buf' ->
  p < List.length buf /\ buf' = firstn p buf ++ c :: skipn (S p) buf.
Proof.
  unfold poke. destruct (p <? List.length buf) eqn:E; [|discriminate].
  apply Nat.ltb_lt in E. intros H. split; [exact E | congruence].
Qed.

Lemma poke_length buf p c buf' :
  poke buf p c = Ok buf' -> List.length buf' = List.length buf.
Proof.
  intros H. apply poke_inv in H. destruct H as [E ->].
  rewrite length_app, length_firstn. cbn [List.length].
  rewrite length_skipn. lia.
Qed.

Lemma poke_firstn buf p c buf' n :
  poke buf p c = Ok buf' -> n <= p -> firstn n buf' = firstn n buf.
Proof.
  intros H Hn. apply poke_inv in H. destruct H as [E ->].
  rewrite firstn_app, length_firstn.
  replace (n - Nat.min p (List.length buf)) with 0 by lia.
  cbn [firstn]. rewrite app_nil_r, firstn_firstn. f_equal. lia.
Qed.

Lemma poke_app pre x tl c :
  poke (pre ++ x :: tl) (List.length pre) c = Ok (pre ++ c :: tl).
Proof.
  unfold poke.
  assert (E : (List.length pre <? List.length (pre ++ x :: tl)) = true).
  { apply Nat.ltb_lt. rewrite length_app. cbn [List.length]. lia. }
  rewrite E. f_equal.
  rewrite firstn_app, firstn_all, Nat.sub_diag. cbn [firstn].
  rewrite app_nil_r. f_equal. f_equal.
  rewrite skipn_app, skipn_all2 by lia.
  replace (S (List.length pre) - List.length pre) with 1 by lia.
  reflexivity.
Qed.

Lemma peek_app pre x tl : peek (pre ++ x :: tl) (List.length pre) = Ok x.
Proof.
  unfold peek. rewrite nth_error_app2 by lia. rewrite Nat.sub_diag. reflexivity.
Qed.

Lemma skipn_app_exact (A : Type) (pre tl : list A) :
  skipn (List.length pre) (pre ++ tl) = tl.
Proof.
  rewrite skipn_app, skipn_all, Nat.sub_diag. reflexivity.
Qed.

Lemma scan_bound delim l n b :
  scan delim l = Some (n, b) -> n < List.length l.
Proof.
  revert n; induction l as [|c l IH]; simpl; intros n H; [discriminate|].
  destruct (is_nul c); [inversion H; lia|].
  destruct (mem c delim); [inversion H; lia|].
  destruct (scan delim l) as [[m b']|]; [|discriminate].
  inversion H; subst. specialize (IH m eq_refl). lia.
Qed.

Lemma strsep_frame buf p delim buf' arg' :
  strsep buf p delim = Ok (buf', arg') ->
  List.length buf' = List.length buf /\
  firstn p buf' = firstn p buf /\
  (forall a, arg' = Some a -> p < a).
Proof.
  unfold strsep. destruct (scan delim (skipn p buf)) as [[n [|]]|] eqn:E;
    simpl; try discriminate.
  - destruct (poke buf (p + n) NUL) as [b1|] eqn:P; simpl; [|discriminate].
    intros H; inversion H; subst; clear H. repeat split.
    + eapply poke_length; eauto.
    + eapply poke_firstn; eauto. lia.
    + intros a Ha; inversion Ha; lia.
  - intros H; inversion H; subst. repeat split; auto. discriminate.
Qed.

Lemma firstn_le_agree (A : Type) (a b : list A) m n :
  firstn n a = firstn n b -> m <= n -> firstn m a = firstn m b.
Proof.
  intros H Hm.
  replace m with (Nat.min m n) by lia.
  rewrite <- !firstn_firstn, H. reflexivity.
Qed.

Lemma tok_body_frame s s' :
  tok_body s = Ok s' ->
  exists p, t_arg s = Some p /\
    List.length (t_buf s') = List.length (t_buf s) /\
    firstn p (t_buf s') = firstn p (t_buf s) /\
    (forall a, t_arg s' = Some a -> p < a) /\
    t_i s' = S (t_i s) /\
    t_args s' = store (t_args s) (t_i s) (Some p).
Proof.
  unfold tok_body. destruct (t_arg s) as [p|]; [|discriminate].
  destruct (peek (t_buf s) p) as [c|]; simpl; [|discriminate].
  destruct (Ascii.eqb c squote || Ascii.eqb c dquote).
  - destruct (strsep (t_buf s) (S p) [c]) as [[b1 a1]|] eqn:E1; simpl;
      [|discriminate].
    destruct a1 as [[|a']|]; try discriminate.
    destruct (poke b1 a' c) as [b2|] eqn:E2; simpl; [|discriminate].
    destruct (poke b2 (S a') NUL) as [b3|] eqn:E3; simpl; [|discriminate].
    intros H; injection H as <-. simpl.
    apply strsep_frame in E1. destruct E1 as (L1 & F1 & A1).
    specialize (A1 _ eq_refl).
    exists p. repeat split; auto.
    + rewrite (poke_length _ _ _ _ E3), (poke_length _ _ _ _ E2). exact L1.
    + rewrite (poke_firstn _ _ _ _ p E3) by lia.
      rewrite (poke_firstn _ _ _ _ p E2) by lia.
      apply firstn_le_agree with (n := S p); auto.
    + intros a Ha. injection Ha as <-. lia.
  - destruct (strsep (t_buf s) p blanks) as [[b1 a1]|] eqn:E1; simpl;
      [|discriminate].
    intros H; injection H as <-. simpl.
    apply strsep_frame in E1. destruct E1 as (L1 & F1 & A1).
    exists p. repeat split; auto.
Qed.

Lemma tok_loop_frame fuel : forall s s',
  tok_loop fuel s = Ok (Some s') ->
  exists p, t_arg s = Some p /\
    List.length (t_buf s') = List.length (t_buf s) /\
    firstn p (t_buf s') = firstn p (t_buf s) /\
    t_i s < t_i s' /\
    List.length (t_args s') = List.length (t_args s) /\
    firstn (t_i s) (t_args s') = firstn (t_i s) (t_args s).
Proof.
  induction fuel as [|fuel IH]; intros s s'; simpl; [discriminate|].
  destruct (tok_body s) as [s1|] eqn:B; simpl; [|discriminate].
  destruct (tok_body_frame _ _ B) as (p & Hp & L & F & A & I & G).
  destruct (tok_cond s1) eqn:C.
  - intros H. destruct (IH _ _ H) as (p1 & Hp1 & L1 & F1 & I1 & LA & G1).
    specialize (A _ Hp1).
    exists p. repeat split; auto.
    + congruence.
    + rewrite <- F. apply firstn_le_agree with (n := p1); auto. lia.
    + lia.
    + rewrite LA, G. apply store_length.
    + rewrite <- (firstn_store _ (t_args s) (t_i s) (Some p) (t_i s) (Nat.le_refl _)).
      rewrite <- G. apply firstn_le_agree with (n := t_i s1); auto. lia.
  - intros H; injection H as <-.
    exists p. repeat split; auto.
    + lia.
    + rewrite G. apply store_length.
    + rewrite G. apply firstn_store. lia.
Qed.

(** The loop leaves [i] within the array. *)
Lemma tok_loop_bound fuel : forall s s',
  tok_loop fuel s = Ok (Some s') -> t_i s < NUM_ARGS -> t_i s' <= NUM_ARGS.
Proof.
  induction fuel as [|fuel IH]; intros s s'; simpl; [discriminate|].
  destruct (tok_body s) as [s1|] eqn:B; simpl; [|discriminate].
  destruct (tok_body_frame _ _ B) as (p & Hp & L & F & A & I & G).
  destruct (tok_cond s1) eqn:C.
  - intros H Hi. apply (IH _ _ H).
    unfold tok_cond in C. destruct (t_arg s1); [|discriminate].
    apply Nat.ltb_lt in C. exact C.
  - intros H Hi; injection H as <-. lia.
Qed.

(** The fuel given by [tokenize] is never used up. *)
Lemma tok_loop_fuel fuel : forall s,
  0 < fuel -> NUM_ARGS <= fuel + t_i s -> tok_loop fuel s <> Ok None.
Proof.
  induction fuel as [|fuel IH]; intros s Hf Hn; [lia|]. simpl.
  destruct (tok_body s) as [s1|] eqn:B; simpl; [|discriminate].
  destruct (tok_body_frame _ _ B) as (p & Hp & L & F & A & I & G).
  destruct (tok_cond s1) eqn:C; [|discriminate].
  unfold tok_cond in C. destruct (t_arg s1); [|discriminate].
  apply Nat.ltb_lt in C. apply IH; lia.
Qed.

Lemma tokenize_fuel_enough cmd : tokenize_fuel NUM_ARGS cmd <> Ok None.
Proof.
  unfold tokenize_fuel.
  destruct (strsep (strdup cmd) 0 blanks) as [[b1 a1]|]; cbn [mbind];
    [|discriminate].
  destruct (tok_loop NUM_ARGS (tok_init b1 a1)) as [[s|]|] eqn:E;
    cbn [mbind option_map]; try discriminate.
  exfalso. revert E. apply tok_loop_fuel; unfold NUM_ARGS; simpl; lia.
Qed.

(** What [tokenize] hands over: [i] within the array and [args[i]] NULL. *)
Lemma tokenize_shape cmd t :
  tokenize cmd = Ok t ->
  1 < t_i t <= NUM_ARGS /\
  List.length (t_args t) = S NUM_ARGS /\
  nth (t_i t) (t_args t) None = None.
Proof.
  unfold tokenize, tokenize_fuel.
  destruct (strsep (strdup cmd) 0 blanks) as [[b1 a1]|]; cbn [mbind];
    [|discriminate].
  destruct (tok_loop NUM_ARGS (tok_init b1 a1)) as [[s|]|] eqn:E;
    cbn [mbind option_map]; try discriminate.
  intros H; injection H as <-.
  destruct (tok_loop_frame _ _ _ E) as (p & Hp & L & F & I & LA & G).
  pose proof (tok_loop_bound _ _ _ E) as Hb.
  simpl in I, LA, Hb.
  assert (Hlen : List.length (t_args s) = S NUM_ARGS) by exact LA.
  unfold tok_finish; simpl. repeat split.
  - lia.
  - apply Hb. unfold NUM_ARGS. lia.
  - rewrite store_length. exact Hlen.
  - apply nth_store_same. rewrite Hlen.
    assert (t_i s <= NUM_ARGS) by (apply Hb; unfold NUM_ARGS; lia). lia.
Qed.

Lemma c_str_app tok tl : ~ In NUL tok -> c_str (tok ++ NUL :: tl) = tok.
Proof.
  induction tok as [|x tok IH]; intros H; simpl.
  - reflexivity.
  - destruct (is_nul x) eqn:E.
    + exfalso. apply H. left. unfold is_nul in E.
      apply Ascii.eqb_eq in E. auto.
    + f_equal. apply IH. intros K. apply H. right. exact K.
Qed.

Lemma mem_single c q : mem c [q] = Ascii.eqb c q.
Proof. simpl. apply orb_false_r. Qed.

Lemma scan_quote q body tl :
  is_nul q = false -> ~ In q body -> ~ In NUL body ->
  scan [q] (body ++ q :: tl) = Some (List.length body, true).
Proof.
  intros Hq. induction body as [|x body IH]; intros Hb Hn.
  - simpl. rewrite Hq, Ascii.eqb_refl. reflexivity.
  - cbn [app scan List.length]. rewrite mem_single.
    destruct (is_nul x) eqn:E1.
    { exfalso. apply Hn. left. unfold is_nul in E1.
      apply Ascii.eqb_eq in E1. auto. }
    destruct (Ascii.eqb x q) eqn:E2.
    { exfalso. apply Hb. left. apply Ascii.eqb_eq in E2. auto. }
    rewrite IH; [reflexivity| |]; intros K; [apply Hb|apply Hn]; right; exact K.
Qed.

Lemma poke_at l1 x l2 c n :
  n = List.length l1 -> poke (l1 ++ x :: l2) n c = Ok (l1 ++ c :: l2).
Proof. intros ->. apply poke_app. Qed.

Lemma skipn_S_app (A : Type) (pre : list A) x tl :
  skipn (S (List.length pre)) (pre ++ x :: tl) = tl.
Proof.
  rewrite skipn_app, skipn_all2 by lia.
  replace (S (List.length pre) - List.length pre) with 1 by lia.
  reflexivity.
Qed.

Lemma quote_is_quote q :
  q = squote \/ q = dquote ->
  is_nul q = false /\ (Ascii.eqb q squote || Ascii.eqb q dquote) = true.
Proof. intros [-> | ->]; split; reflexivity. Qed.

(** One pass over a quoted span: the token starts at the opening quote,
    the closing quote is put back and the character after it is cut. *)
Lemma quoted_pass pre q body c rest args i :
  q = squote \/ q = dquote -> ~ In q body -> ~ In NUL body ->
  tok_body {| t_buf := pre ++ q :: body ++ q :: c :: rest;
              t_arg := Some (List.length pre); t_args := args; t_i := i |}
  = Ok {| t_buf := pre ++ q :: body ++ q :: NUL :: rest;
          t_arg := Some (List.length pre + List.length body + 3);
          t_args := store args i (Some (List.length pre)); t_i := S i |}.
Proof.
  intros Hq Hb Hn. destruct (quote_is_quote q Hq) as [Q0 Q1].
  unfold tok_body. cbn [t_arg t_buf t_args t_i].
  rewrite peek_app. cbn [mbind]. rewrite Q1.
  assert (S1 : strsep (pre ++ q :: body ++ q :: c :: rest)
                 (S (List.length pre)) [q]
               = Ok (pre ++ q :: body ++ NUL :: c :: rest,
                     Some (S (S (List.length pre + List.length body))))).
  { unfold strsep. rewrite skipn_S_app, (scan_quote q body _ Q0 Hb Hn).
    replace (pre ++ q :: body ++ q :: c :: rest)
      with ((pre ++ q :: body) ++ q :: c :: rest)
      by (rewrite <- app_assoc; reflexivity).
    rewrite poke_at by (rewrite length_app; simpl; lia).
    cbn [mbind]. rewrite <- app_assoc. cbn [app].
    do 3 f_equal. lia. }
  rewrite S1. cbn [mbind].
  replace (pre ++ q :: body ++ NUL :: c :: rest)
    with ((pre ++ q :: body) ++ NUL :: c :: rest)
    by (rewrite <- app_assoc; reflexivity).
  rewrite poke_at by (rewrite length_app; simpl; lia).
  cbn [mbind].
  replace ((pre ++ q :: body) ++ q :: c :: rest)
    with ((pre ++ q :: body ++ [q]) ++ c :: rest)
    by (rewrite <- !app_assoc; cbn [app]; rewrite <- app_assoc; reflexivity).
  rewrite poke_at by (rewrite !length_app; simpl; rewrite length_app; simpl; lia).
  cbn [mbind]. f_equal. f_equal.
  - rewrite <- app_assoc. cbn [app]. rewrite <- app_assoc. reflexivity.
  - f_equal. lia.
Qed.

Lemma nth_error_firstn_agree (A : Type) (l l' : list A) n j :
  firstn n l = firstn n l' -> j < n -> nth_error l j = nth_error l' j.
Proof.
  intros H Hj.
  pose proof (nth_error_firstn n l j) as E1.
  pose proof (nth_error_firstn n l' j) as E2.
  apply Nat.ltb_lt in Hj. rewrite Hj in E1, E2.
  rewrite <- E1, <- E2, H. reflexivity.
Qed.

Lemma argv_of_nth buf : forall args i p,
  filled i args -> nth_error args i = Some (Some p) ->
  nth_error (argv_of buf args) i = Some (show (cstr_at buf p)).
Proof.
  induction args as [|a args IH]; intros i p F H.
  - destruct i; discriminate.
  - destruct i as [|i].
    + simpl in H. injection H as ->. reflexivity.
    + destruct (F 0 ltac:(lia)) as [p0 H0]. simpl in H0. injection H0 as ->.
      simpl. apply IH; auto.
      intros j Hj. apply (F (S j)). lia.
Qed.

Ltac app_norm :=
  repeat (rewrite <- ?app_assoc; cbn [app]); try reflexivity.

Ltac length_norm :=
  repeat (rewrite ?length_app; cbn [List.length]); try lia.

Lemma cstr_at_agree buf pre tok :
  firstn (List.length pre + List.length tok + 1) buf = pre ++ tok ++ [NUL] ->
  ~ In NUL tok -> cstr_at buf (List.length pre) = tok.
Proof.
  intros H Hn. unfold cstr_at.
  rewrite <- (firstn_skipn (List.length pre + List.length tok + 1) buf), H.
  rewrite <- app_assoc, skipn_app_exact, <- app_assoc. cbn [app].
  apply c_str_app. exact Hn.
Qed.

(** Through the rest of the loop and the final store, the token of a
    quoted span is read back with both of its quotes. *)
Lemma quoted_token_final fuel pre q body c rest args i s' :
  q = squote \/ q = dquote -> ~ In q body -> ~ In NUL body ->
  i < List.length args -> filled i args ->
  tok_loop fuel {| t_buf := pre ++ q :: body ++ q :: c :: rest;
                   t_arg := Some (List.length pre);
                   t_args := args; t_i := i |} = Ok (Some s') ->
  nth_error (argv_of (t_buf (tok_finish s')) (t_args (tok_finish s'))) i
  = Some (show (q :: body ++ [q])).
Proof.
  intros Hq Hb Hn Hi Hf.
  destruct (quote_is_quote q Hq) as [Q0 _].
  destruct fuel as [|fuel]; [discriminate|]. cbn [tok_loop].
  rewrite (quoted_pass pre q body c rest args i Hq Hb Hn). cbn [mbind].
  set (a1 := List.length pre + List.length body + 3).
  set (buf1 := pre ++ q :: body ++ q :: NUL :: rest).
  set (args1 := store args i (Some (List.length pre))).
  set (s1 := {| t_buf := buf1; t_arg := Some a1; t_args := args1;
                t_i := S i |}).
  intros H.
  assert (K : firstn (S i) (t_args s') = firstn (S i) args1 /\
              firstn a1 (t_buf s') = firstn a1 buf1 /\
              S i <= t_i s').
  { destruct (tok_cond s1).
    - destruct (tok_loop_frame _ _ _ H) as (p & Hp & L & F & I & LA & G).
      simpl in Hp. injection Hp as <-. simpl in F, I, G. repeat split; auto.
      lia.
    - injection H as <-. simpl. repeat split; auto. }
  destruct K as (KA & KB & KI).
  assert (KF : firstn (S i) (t_args (tok_finish s')) = firstn (S i) args1).
  { unfold tok_finish. cbn [t_args]. rewrite firstn_store by lia. exact KA. }
  cbn [tok_finish t_buf].
  rewrite (argv_of_nth (t_buf s') (t_args (tok_finish s')) i (List.length pre)).
  - f_equal. f_equal.
    change (q :: body ++ [q]) with ((q :: body) ++ [q]).
    apply cstr_at_agree.
    + replace (List.length pre + List.length ((q :: body) ++ [q]) + 1)
        with a1 by (unfold a1; length_norm).
      rewrite KB. unfold buf1.
      replace (pre ++ q :: body ++ q :: NUL :: rest)
        with ((pre ++ ((q :: body) ++ [q]) ++ [NUL]) ++ rest)
        by app_norm.
      rewrite firstn_app.
      replace (a1 - List.length (pre ++ ((q :: body) ++ [q]) ++ [NUL]))
        with 0 by (unfold a1; length_norm).
      cbn [firstn]. rewrite app_nil_r. apply firstn_all2.
      unfold a1; length_norm.
    + intros K. apply in_app_or in K. destruct K as [[K|K]|[K|[]]].
      * rewrite K in Q0. discriminate.
      * auto.
      * rewrite K in Q0. discriminate.
  - intros j Hj. destruct (Hf j Hj) as [pj Hpj]. exists pj.
    rewrite (nth_error_firstn_agree _ _ _ (S i) j KF) by lia.
    unfold args1.
    rewrite (nth_error_firstn_agree _ (store args i (Some (List.length pre)))
               args i j); auto.
    apply firstn_store. lia.
  - rewrite (nth_error_firstn_agree _ _ _ (S i) i KF) by lia.
    unfold args1. apply nth_error_store_same. exact Hi.
Qed.

Lemma filled_store n args p :
  n < List.length args -> filled n args -> filled (S n) (store args n (Some p)).
Proof.
  intros Hn F j Hj. destruct (Nat.eq_dec j n) as [->|Hne].
  - exists p. apply nth_error_store_same. exact Hn.
  - destruct (F j ltac:(lia)) as [pj Hpj]. exists pj.
    rewrite (nth_error_firstn_agree _ (store args n (Some p)) args n j);
      [exact Hpj | apply firstn_store; lia | lia].
Qed.

Lemma tok_loop_filled fuel : forall s s',
  List.length (t_args s) = S NUM_ARGS -> t_i s <= NUM_ARGS ->
  filled (t_i s) (t_args s) ->
  tok_loop fuel s = Ok (Some s') -> filled (t_i s') (t_args s').
Proof.
  induction fuel as [|fuel IH]; intros s s' L I F; cbn [tok_loop];
    [discriminate|].
  destruct (tok_body s) as [s1|] eqn:B; cbn [mbind]; [|discriminate].
  destruct (tok_body_frame _ _ B) as (p & Hp & _ & _ & _ & I1 & G).
  assert (F1 : filled (t_i s1) (t_args s1)).
  { rewrite I1, G. apply filled_store; [rewrite L; lia | exact F]. }
  destruct (tok_cond s1) eqn:C.
  - apply IH; [rewrite G, store_length; exact L | | exact F1].
    unfold tok_cond in C. destruct (t_arg s1); [|discriminate].
    apply Nat.ltb_lt in C. lia.
  - intros H. injection H as <-. exact F1.
Qed.

Lemma argv_of_length buf : forall args n,
  filled n args -> nth n args None = None ->
  List.length (argv_of buf args) = n.
Proof.
  induction args as [|a args IH]; intros n F N.
  - destruct n as [|n]; [reflexivity|].
    destruct (F 0 ltac:(lia)) as [p Hp]. discriminate Hp.
  - destruct n as [|n].
    + cbn [nth] in N. subst a. reflexivity.
    + destruct (F 0 ltac:(lia)) as [p Hp]. cbn [nth_error] in Hp.
      injection Hp as ->. cbn [argv_of List.length]. f_equal.
      apply IH; [|exact N]. intros j Hj. apply (F (S j)). lia.
Qed.

(** X1: the vector handed to [execvp] holds as many words as the loop
    counted, at least two and never more than [NUM_ARGS]. *)
Theorem argv_within_capacity cmd t :
  tokenize cmd = Ok t ->
  List.length (argv_of (t_buf t) (t_args t)) = t_i t /\
  2 <= t_i t <= NUM_ARGS.
Proof.
  intros H. destruct (tokenize_shape cmd t H) as (I & L & N).
  split; [|lia]. apply argv_of_length; [|exact N].
  revert H. unfold tokenize, tokenize_fuel.
  destruct (strsep (strdup cmd) 0 blanks) as [[b1 a1]|]; cbn [mbind];
    [|discriminate].
  destruct (tok_loop NUM_ARGS (tok_init b1 a1)) as [[s|]|] eqn:E;
    cbn [mbind option_map]; try discriminate.
  intros H; injection H as <-.
  assert (F : filled (t_i s) (t_args s)).
  { apply (tok_loop_filled NUM_ARGS (tok_init b1 a1) s);
      [reflexivity | | | exact E].
    - cbn [t_i tok_init]. unfold NUM_ARGS. lia.
    - intros j Hj. cbn [t_i tok_init] in Hj.
      assert (j = 0) by lia. subst j. exists 0. reflexivity. }
  intros j Hj. cbn [tok_finish t_i] in Hj. destruct (F j Hj) as [pj Hpj].
  exists pj. cbn [tok_finish t_args].
  rewrite (nth_error_firstn_agree _ (store (t_args s) (t_i s) None)
             (t_args s) (t_i s) j); [exact Hpj | apply firstn_store; lia | lia].
Qed.

Lemma argv_within_capacity_witness :
  List.length (argv_of (t_buf echo_tok) (t_args echo_tok)) = 2.
Proof.
  exact (proj1 (argv_within_capacity (lit echo_cmd) echo_tok eq_refl)).
Defined.

Lemma scan_no_blank delim l :
  (forall c, In c l -> mem c delim = false) -> ~ In NUL l ->
  scan delim (l ++ [NUL]) = Some (List.length l, false).
Proof.
  induction l as [|x l IH]; intros Hd Hn; [reflexivity|].
  cbn [app scan List.length].
  destruct (CStrFacts.not_in_nul x l Hn) as [Hx Hl].
  rewrite Hx, (Hd x (or_introl eq_refl)), IH; [reflexivity| |exact Hl].
  intros c Hc. apply Hd. right. exact Hc.
Qed.

(** A command line without a blank: after the first [strsep] the pointer
    [arg] is NULL and the loop, which tests it only after its body, reads
    through it. *)
Lemma single_word_faults cmd :
  ~ In NUL cmd -> (forall c, In c cmd -> mem c blanks = false) ->
  tokenize cmd = Fault.
Proof.
  intros Hn Hb. unfold tokenize, tokenize_fuel, strsep, strdup.
  rewrite (CStrFacts.c_str_id cmd Hn). cbn [skipn].
  rewrite (scan_no_blank blanks cmd Hb Hn). reflexivity.
Qed.

(** C2, the claim as stated fails: the quotes stay in the token. *)
Lemma su_token_keeps_quotes :
  tokens su_cmd = Ok su_argv /\ tokens su_cmd <> Ok su_argv_stripped.
Proof.
  split; [vm_compute; reflexivity|].
  vm_compute. intros H. discriminate H.
Qed.

(** C2 (amended): a token met by the loop (any but the first word) that
    begins with a quote runs from that quote through the matching one,
    both kept, and the character after the closing quote is dropped as the
    separator; [su_cmd] and [echo_cmd] tokenize accordingly. *)
Theorem quoted_token_keeps_its_quotes :
  (forall pre q body c rest args i,
      q = squote \/ q = dquote -> ~ In q body -> ~ In NUL body ->
      i < List.length args -> filled i args ->
      let s := {| t_buf := pre ++ q :: body ++ q :: c :: rest;
                  t_arg := Some (List.length pre);
                  t_args := args; t_i := i |} in
      tok_body s
      = Ok {| t_buf := pre ++ q :: body ++ q :: NUL :: rest;
              t_arg := Some (List.length pre + List.length body + 3);
              t_args := store args i (Some (List.length pre));
              t_i := S i |} /\
      forall fuel s',
        tok_loop fuel s = Ok (Some s') ->
        nth_error (argv_of (t_buf (tok_finish s')) (t_args (tok_finish s'))) i
        = Some (show (q :: body ++ [q]))) /\
  tokens su_cmd = Ok su_argv /\
  tokens echo_cmd = Ok echo_argv.
Proof.
  split; [|split; vm_compute; reflexivity].
  intros pre q body c rest args i Hq Hb Hn Hi Hf s. split.
  - apply quoted_pass; assumption.
  - intros fuel s' H.
    exact (quoted_token_final fuel pre q body c rest args i s'
             Hq Hb Hn Hi Hf H).
Qed.

Lemma quoted_token_keeps_its_quotes_witness :
  exists s',
    tok_loop 14 su_state = Ok (Some s') /\
    nth_error (argv_of (t_buf (tok_finish s')) (t_args (tok_finish s'))) 2
    = Some quoted_word.
Proof.
  assert (Hb : ~ In dquote su_body).
  { vm_compute. intros H.
    repeat (destruct H as [H|H]; [discriminate H|]). exact H. }
  assert (Hn : ~ In NUL su_body).
  { vm_compute. intros H.
    repeat (destruct H as [H|H]; [discriminate H|]). exact H. }
  assert (Hf : filled 2 su_args).
  { intros j Hj. destruct j as [|[|j]]; [exists 0| exists 3|lia]; reflexivity. }
  assert (Hi : 2 < List.length su_args) by (vm_compute; lia).
  destruct (proj1 quoted_token_keeps_its_quotes su_pre dquote su_body
              " "%char su_rest su_args 2 (or_intror eq_refl) Hb Hn Hi Hf)
    as [_ K].
  eexists. split; [vm_compute; reflexivity|].
  apply (K 14). vm_compute. reflexivity.
Defined.

End TokenizerFacts.



(** ** Wait statuses *)

Module WaitFacts.
Import WaitStatus Runner.
Local Open Scope Z_scope.

Lemma in_exit_codes c : 0 <= c < 256 -> In c exit_codes.
Proof.
  intros H. unfold exit_codes. rewrite <- (Z2Nat.id c) by lia.
  apply in_map. apply in_seq. lia.
Qed.

Lemma in_signal_numbers g : 1 <= g < 127 -> In g signal_numbers.
Proof.
  intros H. unfold signal_numbers. rewrite <- (Z2Nat.id g) by lia.
  apply in_map. apply in_seq. lia.
Qed.

Lemma exit_table :
  forallb (fun c => (result_of (wstatus (Exited c)) =? c)
                    && WIFEXITED (wstatus (Exited c))) exit_codes = true.
Proof. vm_compute. reflexivity. Qed.

Lemma signal_table :
  forallb (fun g => forallb (fun core =>
      (result_of (wstatus (Signaled g core)) =? 1)
      && negb (WIFEXITED (wstatus (Signaled g core)))
      && WIFSIGNALED (wstatus (Signaled g core))
      && (WTERMSIG (wstatus (Signaled g core)) =? g)) [true; false])
    signal_numbers = true.
Proof. vm_compute. reflexivity. Qed.

(** A normal exit is reported with its exit code. *)
Lemma result_of_exited c :
  0 <= c < 256 -> result_of (wstatus (Exited c)) = c.
Proof.
  intros H. pose proof exit_table as T.
  rewrite forallb_forall in T. specialize (T c (in_exit_codes c H)).
  apply andb_prop in T. destruct T as [T _]. apply Z.eqb_eq. exact T.
Qed.

(** A death by signal is reported as 1, whatever the signal. *)
Lemma result_of_signaled g core :
  1 <= g < 127 -> result_of (wstatus (Signaled g core)) = 1.
Proof.
  intros H. pose proof signal_table as T.
  rewrite forallb_forall in T. specialize (T g (in_signal_numbers g H)).
  rewrite forallb_forall in T.
  assert (I : In core [true; false]) by (destruct core; simpl; auto).
  specialize (T core I).
  repeat (apply andb_prop in T; destruct T as [T _]).
  apply Z.eqb_eq. exact T.
Qed.

Lemma signaled_is_recognised g core :
  1 <= g < 127 ->
  WIFSIGNALED (wstatus (Signaled g core)) = true /\
  WIFEXITED (wstatus (Signaled g core)) = false /\
  WTERMSIG (wstatus (Signaled g core)) = g.
Proof.
  intros H. pose proof signal_table as T.
  rewrite forallb_forall in T. specialize (T g (in_signal_numbers g H)).
  rewrite forallb_forall in T.
  assert (I : In core [true; false]) by (destruct core; simpl; auto).
  specialize (T core I).
  apply andb_prop in T. destruct T as [T T4].
  apply andb_prop in T. destruct T as [T T3].
  apply andb_prop in T. destruct T as [T T2].
  repeat split; auto.
  - apply negb_true_iff. exact T2.
  - apply Z.eqb_eq. exact T4.
Qed.

End WaitFacts.

(** ** [run] and [run_interactive] *)

Module RunnerFacts.
Import CStr Tokenizer WaitStatus Sys Runner Examples TokenizerFacts WaitFacts.
Local Open Scope string_scope.
Local Open Scope list_scope.

Ltac step :=
  cbv beta delta [bind emit ret when set_errno get_errno crash] iota;
  cbn [p_trace p_errno p_cwd is_some].

Lemma forks_app a b : forks (a ++ b) = forks a ++ forks b.
Proof.
  induction a as [|ev a IH]; [reflexivity|].
  destruct ev; cbn [app forks]; rewrite IH; reflexivity.
Qed.

Lemma too_long_never cmd t : tokenize cmd = Ok t -> too_long t = false.
Proof.
  intros H. destruct (tokenize_shape cmd t H) as (_ & _ & N).
  unfold too_long. rewrite N. apply andb_false_r.
Qed.

Lemma wait_status_log_cont status s :
  exists tr, wait_status_log status s
             = Cont tt {| p_trace := p_trace s ++ tr; p_errno := p_errno s;
                          p_cwd := p_cwd s |}.
Proof.
  unfold wait_status_log.
  destruct (WIFEXITED status); [|destruct (WIFSIGNALED status)]; step.
  - eexists; reflexivity.
  - eexists; reflexivity.
  - exists []. rewrite app_nil_r. destruct s; reflexivity.
Qed.

Lemma wait_failure_log_cont err s :
  exists tr, wait_failure_log err s
             = Cont tt {| p_trace := p_trace s ++ tr; p_errno := p_errno s;
                          p_cwd := p_cwd s |}.
Proof.
  unfold wait_failure_log.
  destruct (err =? EINTR)%Z; [|destruct (err =? ECHILD)%Z]; step;
    eexists; reflexivity.
Qed.

(** The path of [run] on which the child is created and reaped. *)
Lemma run_reaped NSIG e cmd t pid s :
  e_strdup_ok e = true -> tokenize cmd = Ok t ->
  e_fork e = Some pid -> e_wait e = None ->
  let c := run_child NSIG (e_exec_ok e) (e_devnull e)
             (argv_of (t_buf t) (t_args t)) in
  exists tr1 tr2,
    run NSIG e cmd s
    = Cont (result_of (wstatus (ended (c_end c) (e_prog e))))
        {| p_trace := p_trace s ++ tr1 ++ Fork pid c
                        :: Waitpid (Z.pos pid) :: tr2;
           p_errno := p_errno s; p_cwd := p_cwd s |}.
Proof.
  intros Hs Ht Hf Hw c. unfold run.
  rewrite Hs, Ht, (too_long_never cmd t Ht), Hf, Hw. fold c.
  cbn [negb]. step.
  match goal with
  | |- context [wait_status_log ?st ?s0] =>
      destruct (wait_status_log_cont st s0) as [tr E]; rewrite E
  end.
  exists [Alloc "backup"; Fopen "/dev/null" (is_some (e_devnull e))].
  destruct (e_devnull e); step; eexists; f_equal; f_equal;
    repeat (rewrite <- ?app_assoc; cbn [app]); reflexivity.
Qed.

(** C1: a child of [run] that exits is reported with its exit code; one
    killed by a signal is reported as 1, never as success, whatever the
    signal number. *)
Theorem run_result_mapping NSIG e cmd t pid s :
  e_strdup_ok e = true -> tokenize cmd = Ok t ->
  e_fork e = Some pid -> e_wait e = None ->
  let c := run_child NSIG (e_exec_ok e) (e_devnull e)
             (argv_of (t_buf t) (t_args t)) in
  let how := ended (c_end c) (e_prog e) in
  plausible how ->
  exists v s',
    run NSIG e cmd s = Cont v s' /\
    In (pid, c) (forks (p_trace s')) /\
    match how with
    | Exited code => v = code
    | Signaled _ _ => v = 1%Z /\ v <> 0%Z
    end.
Proof.
  intros Hs Ht Hf Hw c how Hp.
  destruct (run_reaped NSIG e cmd t pid s Hs Ht Hf Hw) as (tr1 & tr2 & R).
  fold c in R. fold how in R.
  eexists; eexists. split; [exact R|]. cbn [p_trace]. split.
  - rewrite !forks_app. apply in_or_app. right. apply in_or_app. right.
    left. reflexivity.
  - destruct how as [code | g core]; simpl in Hp.
    + apply result_of_exited. exact Hp.
    + rewrite (result_of_signaled g core Hp). split; [reflexivity|discriminate].
Qed.

Lemma run_result_mapping_witness :
  exists v s',
    run 65 (env_runs (Signaled SIGINT false)) (lit echo_cmd) (start "/")
    = Cont v s' /\ v = 1%Z /\ v <> 0%Z.
Proof.
  assert (P : plausible (Signaled SIGINT false)) by (simpl; unfold SIGINT; lia).
  destruct (run_result_mapping 65 (env_runs (Signaled SIGINT false))
              (lit echo_cmd) echo_tok 100%positive (start "/")
              eq_refl eq_refl eq_refl eq_refl P) as (v & s' & R & _ & V).
  exists v, s'. split; [exact R | exact V].
Defined.

(** C9, the claim as stated fails: the status of a failed [exec] is the one
    a command that exits with 1 produces, and [run] returns the same value
    for both and for a child killed by a signal. *)
Lemma exec_failure_code_is_shared :
  returned (run 65 env_exec_fails (lit echo_cmd) (start "/")) = Some 1%Z /\
  returned (run 65 (env_runs (Exited 1)) (lit echo_cmd) (start "/"))
  = Some 1%Z /\
  returned (run 65 (env_runs (Signaled SIGKILL false)) (lit echo_cmd)
              (start "/")) = Some 1%Z.
Proof. repeat split; vm_compute; reflexivity. Qed.

(** C9 (amended): when [exec] fails the child does nothing more than
    [_exit(1)], and the parent's [run] returns 1, which is not zero; the
    value is not set apart from a command's own exit codes. *)
Theorem exec_failure_exits_with_one NSIG e cmd t pid s :
  e_strdup_ok e = true -> tokenize cmd = Ok t ->
  e_fork e = Some pid -> e_wait e = None -> e_exec_ok e = false ->
  let argv := argv_of (t_buf t) (t_args t) in
  let c := run_child NSIG (e_exec_ok e) (e_devnull e) argv in
  c_end c = ExitWith 1 /\
  (exists before, c_events c = before ++ [CExecFailed (hd "" argv) argv]) /\
  exists s', run NSIG e cmd s = Cont 1%Z s' /\
             In (pid, c) (forks (p_trace s')).
Proof.
  intros Hs Ht Hf Hw Hx argv c.
  assert (Hend : c_end c = ExitWith 1).
  { unfold c, run_child. rewrite Hx. reflexivity. }
  split; [exact Hend|]. split.
  - unfold c, run_child. rewrite Hx. cbn [c_events]. eexists. reflexivity.
  - destruct (run_reaped NSIG e cmd t pid s Hs Ht Hf Hw) as (tr1 & tr2 & R).
    fold argv in R. fold c in R. rewrite Hend in R. cbn [ended] in R.
    eexists. split; [exact R|]. cbn [p_trace].
    rewrite !forks_app. apply in_or_app. right. apply in_or_app. right.
    left. reflexivity.
Qed.

Lemma exec_failure_exits_with_one_witness :
  exists s', run 65 env_exec_fails (lit echo_cmd) (start "/") = Cont 1%Z s'.
Proof.
  destruct (exec_failure_exits_with_one 65 env_exec_fails (lit echo_cmd)
              echo_tok 100%positive (start "/")
              eq_refl eq_refl eq_refl eq_refl eq_refl)
    as (_ & _ & s' & R & _).
  exists s'. exact R.
Defined.

(** C5, at a line of seventeen words: the capacity check of lines 427-432
    reads the slot that line 421 has just set to NULL, so it never fires;
    the line is cut to sixteen words and run, and [errno] is untouched. *)
Theorem long_command_is_cut_and_run :
  (forall cmd t, tokenize cmd = Ok t -> too_long t = false) /\
  tokens long_cmd = Ok letters /\
  let r := run 65 (env_runs (Exited 0)) (lit long_cmd) (start "/") in
  returned r = Some 0%Z /\
  p_errno (final r) = 0%Z /\
  map (fun f => exec_calls (snd f)) (forks (p_trace (final r)))
  = [[("a", letters)]].
Proof.
  split; [exact too_long_never|].
  split; [vm_compute; reflexivity|].
  cbv zeta. repeat split; vm_compute; reflexivity.
Qed.

(** X2: a command line of one word is never run: [run] reads through the
    NULL that the first [strsep] left in [arg], before any [fork]. *)
Theorem run_single_word_crashes NSIG e cmd s :
  e_strdup_ok e = true ->
  ~ In NUL cmd -> (forall c, In c cmd -> mem c blanks = false) ->
  run NSIG e cmd s
  = Crash {| p_trace := p_trace s ++ [Alloc "backup"]; p_errno := p_errno s;
             p_cwd := p_cwd s |}.
Proof.
  intros Hs Hn Hb. unfold run.
  rewrite Hs, (single_word_faults cmd Hn Hb). reflexivity.
Qed.

Lemma run_single_word_crashes_witness :
  returned (run 65 (env_runs (Exited 0)) (lit true_cmd) (start "/")) = None.
Proof.
  rewrite (run_single_word_crashes 65 (env_runs (Exited 0)) (lit true_cmd)
             (start "/") eq_refl).
  - reflexivity.
  - vm_compute. intros H.
    repeat (destruct H as [H|H]; [discriminate H|]). exact H.
  - intros c H. vm_compute in H.
    repeat (destruct H as [H|H]; [subst c; reflexivity|]). contradiction.
Defined.

Lemma run_returned_indep NSIG e cmd s1 s2 :
  returned (run NSIG e cmd s1) = returned (run NSIG e cmd s2).
Proof.
  unfold run. destruct (e_strdup_ok e); cbn [negb]; [|reflexivity].
  destruct (tokenize cmd) as [t|]; [|step; reflexivity].
  destruct (too_long t); [step; reflexivity|].
  destruct (e_fork e) as [pid|]; [|step; reflexivity].
  destruct (e_wait e) as [err|]; step.
  - repeat match goal with
    | |- context [wait_failure_log ?er ?s0] =>
        let tr := fresh "tr" in let E := fresh "E" in
        destruct (wait_failure_log_cont er s0) as [tr E]; rewrite E; clear E
    end.
    destruct (e_devnull e); reflexivity.
  - repeat match goal with
    | |- context [wait_status_log ?st ?s0] =>
        let tr := fresh "tr" in let E := fresh "E" in
        destruct (wait_status_log_cont st s0) as [tr E]; rewrite E; clear E
    end.
    destruct (e_devnull e); reflexivity.
Qed.

Lemma replay_cont LINE_SIZE fuel : forall data s,
  exists s', replay LINE_SIZE fuel data s = Cont tt s'.
Proof.
  induction fuel as [|fuel IH]; intros data s; cbn [replay].
  - eexists; reflexivity.
  - step.
    destruct (Nat.ltb 0 (List.length (firstn LINE_SIZE data)));
      cbn [andb]; [|eexists; reflexivity].
    match goal with
    | |- context [if ?b then _ else _] => destruct b
    end; [apply IH | eexists; reflexivity].
Qed.

(** C10: [run_interactive] returns what its call of [run] returns. *)
Theorem run_interactive_returns_run_status NSIG LINE_SIZE e cmd descr s :
  returned (run_interactive NSIG LINE_SIZE e cmd descr s)
  = returned (run NSIG (ri_run e) cmd s).
Proof.
  unfold run_interactive.
  set (capture := is_some (ri_tmpfile e) && negb (ri_debug e)).
  destruct capture; step.
  - match goal with
    | |- context [run NSIG (ri_run e) cmd ?s0] =>
        rewrite (run_returned_indep NSIG (ri_run e) cmd s s0);
        destruct (run NSIG (ri_run e) cmd s0) as [v s1|s1]
    end; [|reflexivity].
    match goal with
    | |- context [replay LINE_SIZE ?f ?d ?s0] =>
        destruct (replay_cont LINE_SIZE f d s0) as [s2 E]; rewrite E
    end.
    reflexivity.
  - match goal with
    | |- context [run NSIG (ri_run e) cmd ?s0] =>
        rewrite (run_returned_indep NSIG (ri_run e) cmd s s0);
        destruct (run NSIG (ri_run e) cmd s0) as [v s1|s1]
    end; reflexivity.
Qed.

End RunnerFacts.

(** ** [run_parts] *)

Module BatchFacts.
Import CStr Tokenizer WaitStatus Sys Runner Batch Examples.
Import CStrFacts TokenizerFacts RunnerFacts.
Local Open Scope list_scope.

Ltac run_step :=
  cbv beta delta [bind emit ret when set_errno get_errno get_cwd set_cwd
                  crash] iota;
  cbn [p_trace p_errno p_cwd is_some negb].

Lemma cmp_total a b : cmp_le a b \/ cmp_le b a.
Proof.
  unfold cmp_le, cmp. rewrite (strcmp_antisym (lit a) (lit b)). lia.
Qed.

Lemma insert_perm x l : Permutation (insert x l) (x :: l).
Proof.
  induction l as [|y l IH]; cbn [insert]; [reflexivity|].
  destruct (cmp x y <=? 0)%Z; [reflexivity|].
  rewrite IH. apply perm_swap.
Qed.

Lemma qsort_perm l : Permutation (qsort l) l.
Proof.
  induction l as [|x l IH]; cbn [qsort]; [reflexivity|].
  rewrite insert_perm, IH. reflexivity.
Qed.

Lemma insert_sorted x l : Sorted cmp_le l -> Sorted cmp_le (insert x l).
Proof.
  induction l as [|y l IH]; intros S; cbn [insert].
  - repeat constructor.
  - destruct (cmp x y <=? 0)%Z eqn:E.
    + constructor; [exact S|]. constructor. apply Z.leb_le. exact E.
    + apply Z.leb_gt in E. inversion S as [|? ? S' H]; subst.
      constructor; [apply IH; exact S'|].
      assert (Hyx : cmp_le y x).
      { destruct (cmp_total x y) as [K|K]; [unfold cmp_le in K; lia|exact K]. }
      destruct l as [|z l]; cbn [insert].
      * constructor. exact Hyx.
      * destruct (cmp x z <=? 0)%Z; constructor; [exact Hyx|].
        inversion H; subst. assumption.
Qed.

Lemma qsort_sorted l : Sorted cmp_le (qsort l).
Proof.
  induction l as [|x l IH]; cbn [qsort]; [constructor|].
  apply insert_sorted. exact IH.
Qed.

Lemma cmp_trans a b c : cmp_le a b -> cmp_le b c -> cmp_le a c.
Proof. unfold cmp_le, cmp. apply strcmp_trans. Qed.

Lemma qsort_strongly_sorted l : StronglySorted cmp_le (qsort l).
Proof.
  apply Sorted_StronglySorted; [|apply qsort_sorted].
  intros a b c. apply cmp_trans.
Qed.

Lemma lit_inj a b : lit a = lit b -> a = b.
Proof.
  unfold lit. intros H.
  rewrite <- (string_of_list_ascii_of_string a),
          <- (string_of_list_ascii_of_string b), H.
  reflexivity.
Qed.

Lemma cmp_antisym a b :
  plain a -> plain b -> cmp_le a b -> cmp_le b a -> a = b.
Proof.
  unfold plain, cmp_le, cmp. intros Pa Pb H1 H2.
  rewrite (strcmp_antisym (lit a) (lit b)) in H2.
  apply lit_inj. rewrite <- (c_str_id _ Pa), <- (c_str_id _ Pb).
  apply strcmp_zero. lia.
Qed.

(** A list of plain names has one sorted arrangement, so the result of
    [qsort] does not depend on how the sort proceeds. *)
Lemma sorted_unique l1 : forall l2,
  Forall plain l1 -> Permutation l1 l2 ->
  StronglySorted cmp_le l1 -> StronglySorted cmp_le l2 -> l1 = l2.
Proof.
  induction l1 as [|x l1 IH]; intros l2 Hp P S1 S2.
  - apply Permutation_nil in P. subst. reflexivity.
  - destruct l2 as [|y l2].
    { apply Permutation_sym, Permutation_nil in P. discriminate P. }
    assert (Hp2 : Forall plain (y :: l2)).
    { apply (Permutation_Forall P). exact Hp. }
    assert (E : x = y).
    { inversion S1 as [|? ? S1' F1]; subst.
      inversion S2 as [|? ? S2' F2]; subst.
      assert (Ix : In x (y :: l2)).
      { apply (Permutation_in _ P). left. reflexivity. }
      assert (Iy : In y (x :: l1)).
      { apply (Permutation_in _ (Permutation_sym P)). left. reflexivity. }
      destruct Ix as [Ix|Ix]; [auto|].
      destruct Iy as [Iy|Iy]; [auto|].
      rewrite Forall_forall in F1, F2.
      apply cmp_antisym.
      - inversion Hp; assumption.
      - inversion Hp2; assumption.
      - apply F1. exact Iy.
      - apply F2. exact Ix. }
    subst y. f_equal. apply IH.
    + inversion Hp; assumption.
    + apply (Permutation_cons_inv P).
    + inversion S1; assumption.
    + inversion S2; assumption.
Qed.

Lemma qsort_unique l l' :
  Forall plain l -> Permutation l' l -> StronglySorted cmp_le l' ->
  l' = qsort l.
Proof.
  intros Hp P S. apply sorted_unique.
  - apply (Permutation_Forall (Permutation_sym P)). exact Hp.
  - rewrite P. symmetry. apply qsort_perm.
  - exact S.
  - apply qsort_strongly_sorted.
Qed.

Lemma collect_spec : forall entries ent s,
  List.length ent < NUM_SCRIPTS ->
  exists tr,
    collect entries ent s
    = Cont (ent ++ firstn (NUM_SCRIPTS - List.length ent)
                     (map d_name (filter runnable entries)))
        {| p_trace := p_trace s ++ tr; p_errno := p_errno s;
           p_cwd := p_cwd s |} /\
    forallb quiet_event tr = true.
Proof.
  induction entries as [|d entries IH]; intros ent s Hlen.
  - exists []. cbn [collect filter map]. rewrite firstn_nil, !app_nil_r.
    destruct s. split; reflexivity.
  - cbn [collect filter]. unfold runnable at 1.
    destruct (d_type d =? DT_REG)%Z; cbn [andb]; [|apply IH; exact Hlen].
    destruct (d_stat d) as [mode|]; [|apply IH; exact Hlen].
    destruct (negb (Z.land mode S_IXUSR =? 0)%Z).
    + cbn [map].
      replace (NUM_SCRIPTS - List.length ent)
        with (S (NUM_SCRIPTS - S (List.length ent))) by lia.
      cbn [firstn]. run_step.
      destruct (NUM_SCRIPTS <=? List.length (ent ++ [d_name d])) eqn:E.
      * apply Nat.leb_le in E. rewrite length_app in E. cbn [List.length] in E.
        replace (NUM_SCRIPTS - S (List.length ent)) with 0 by lia.
        cbn [firstn]. eexists. rewrite <- app_assoc. split; reflexivity.
      * apply Nat.leb_gt in E.
        match goal with
        | |- context [collect entries ?ent1 ?s1] =>
            destruct (IH ent1 s1 E) as (tr & C & Q)
        end.
        rewrite C. rewrite length_app. cbn [List.length p_trace p_errno p_cwd].
        replace (List.length ent + 1) with (S (List.length ent)) by lia.
        exists ([Log ("Found " ++ d_name d)%string; Alloc (d_name d)] ++ tr).
        rewrite <- !app_assoc. cbn [app]. split; [reflexivity|]. exact Q.
    + run_step.
      match goal with
      | |- context [collect entries ?ent1 ?s1] =>
          destruct (IH ent1 s1 Hlen) as (tr & C & Q)
      end.
      rewrite C. cbn [p_trace p_errno p_cwd].
      exists (Log ("Found " ++ d_name d)%string :: tr).
      rewrite <- app_assoc. split; [reflexivity|]. exact Q.
Qed.

Lemma calls_fork pid c tr :
  calls (Fork pid c :: tr) = exec_calls c ++ calls tr.
Proof. reflexivity. Qed.

Lemma calls_quiet ev tr :
  quiet_event ev = true -> calls (ev :: tr) = calls tr.
Proof. destruct ev; try discriminate; reflexivity. Qed.

Lemma calls_quiet_app a b :
  forallb quiet_event a = true -> calls (a ++ b) = calls b.
Proof.
  induction a as [|ev a IH]; intros Q; [reflexivity|].
  cbn [forallb] in Q. apply andb_prop in Q. destruct Q as [Q1 Q2].
  cbn [app]. rewrite (calls_quiet ev _ Q1). apply IH. exact Q2.
Qed.

Lemma sequential_quiet ev tr :
  quiet_event ev = true -> sequential (ev :: tr) = sequential tr.
Proof. destruct ev; try discriminate; reflexivity. Qed.

Lemma sequential_quiet_app a b :
  forallb quiet_event a = true -> sequential (a ++ b) = sequential b.
Proof.
  induction a as [|ev a IH]; intros Q; [reflexivity|].
  cbn [forallb] in Q. apply andb_prop in Q. destruct Q as [Q1 Q2].
  cbn [app]. rewrite (sequential_quiet ev _ Q1). apply IH. exact Q2.
Qed.

Lemma forks_quiet rest : forallb quiet_event rest = true -> forks rest = [].
Proof.
  induction rest as [|x rest IH]; intros Q; [reflexivity|].
  cbn [forallb] in Q. apply andb_prop in Q. destruct Q as [Q1 Q2].
  destruct x; try discriminate Q1; cbn [forks]; apply IH; exact Q2.
Qed.

Lemma calls_app_quiet tr rest :
  forallb quiet_event rest = true -> calls (tr ++ rest) = calls tr.
Proof.
  intros Q. unfold calls.
  rewrite forks_app, (forks_quiet rest Q), app_nil_r. reflexivity.
Qed.

Ltac quiet :=
  repeat first
    [ rewrite calls_quiet by (reflexivity || assumption)
    | rewrite sequential_quiet by (reflexivity || assumption)
    | rewrite calls_quiet_app by assumption
    | rewrite sequential_quiet_app by assumption ].

Lemma parts_child_calls exec_ok script argv :
  exec_calls (parts_child exec_ok script argv) = [(script, argv)].
Proof. destruct exec_ok; reflexivity. Qed.

(** Lines 644-645 leave a vector of one word, whatever line 617 stored. *)
Lemma argv_read_single args script :
  2 <= List.length args ->
  argv_read (store (store args 0 (Some script)) 1 None) = [script].
Proof.
  destruct args as [|a0 [|a1 args]]; cbn [List.length]; intros H; try lia.
  reflexivity.
Qed.

Lemma va_fill_length extra : forall argnum args,
  List.length (va_fill extra argnum args) = List.length args.
Proof.
  induction extra as [|a extra IH]; intros argnum args; cbn [va_fill];
    destruct (argnum <? NUM_ARGS); try reflexivity.
  - apply store_length.
  - rewrite IH. apply store_length.
Qed.

Lemma exec_all_spec e :
  (forall j, is_some (b_fork e j) = true) ->
  forall ent args i s,
  2 <= List.length args ->
  exists tr,
    exec_all e args i ent s
    = Cont tt {| p_trace := p_trace s ++ tr; p_errno := p_errno s;
                 p_cwd := p_cwd s |} /\
    calls tr = map bare ent /\
    forall rest, sequential (tr ++ rest) = sequential rest.
Proof.
  intros Hf. induction ent as [|script ent IH]; intros args i s La.
  - exists []. cbn [exec_all]. rewrite app_nil_r. destruct s.
    repeat split; reflexivity.
  - cbn [exec_all]. specialize (Hf i).
    destruct (b_fork e i) as [pid|]; [|discriminate Hf].
    run_step.
    match goal with
    | |- context [exec_all e ?a1 (S i) ent ?s1] =>
        destruct (IH a1 (S i) s1) as (tr & X & P & Q);
          [rewrite !store_length; exact La|]
    end.
    rewrite X. cbn [p_trace p_errno p_cwd].
    eexists. rewrite <- !app_assoc. cbn [app]. split; [reflexivity|]. split.
    + rewrite calls_fork, parts_child_calls, (argv_read_single args script La).
      quiet. cbn [app map]. f_equal. exact P.
    + intros rest. cbn [app sequential awaited].
      rewrite Z.eqb_refl. cbn [andb]. apply Q.
Qed.

Lemma sys_chdir_cont e path s :
  exists ev cwd',
    sys_chdir e path s
    = Cont (b_chdir_result e path s)
        {| p_trace := p_trace s ++ [ev]; p_errno := p_errno s;
           p_cwd := cwd' |} /\
    quiet_event ev = true.
Proof.
  unfold sys_chdir, b_chdir_result. destruct path as [p|]; run_step.
  - destruct (b_chdir e (resolve (p_cwd s) p)); run_step;
      eexists; eexists; split; reflexivity.
  - eexists; eexists; split; reflexivity.
Qed.

(** The trace of [run_parts] when the directory is entered and opened and
    every [fork] is granted. *)
Lemma run_parts_trace e dir extra cwd entries :
  b_chdir e (resolve cwd dir) = true ->
  b_opendir e (resolve (resolve cwd dir) dir) = Some entries ->
  (forall j, is_some (b_fork e j) = true) ->
  exists s',
    run_parts e dir extra (start cwd) = Cont 0%Z s' /\
    calls (p_trace s') = map bare (qsort (scripts entries)) /\
    sequential (p_trace s') = true.
Proof.
  intros Hc Ho Hf.
  unfold run_parts, start. run_step. unfold sys_chdir at 1. run_step.
  rewrite Hc. run_step. rewrite Ho. run_step.
  match goal with
  | |- context [collect entries [] ?s1] =>
      destruct (collect_spec entries [] s1) as (tr1 & C & Q1);
        [unfold NUM_SCRIPTS; cbn [List.length]; lia|]
  end.
  rewrite C. cbn [p_trace p_errno p_cwd app List.length].
  rewrite Nat.sub_0_r. fold (scripts entries).
  destruct (List.length (scripts entries) =? 0) eqn:E.
  - apply Nat.eqb_eq in E. apply length_zero_iff_nil in E. rewrite E.
    destruct (b_getcwd_ok e); run_step; eexists;
      (split; [reflexivity|]); cbn [p_trace]; app_norm; quiet;
      split; reflexivity.
  - match goal with
    | |- context [exec_all e ?a1 0 ?ent ?s1] =>
        destruct (exec_all_spec e Hf ent a1 0 s1) as (tr2 & X & P & Q2);
          [rewrite va_fill_length, repeat_length; unfold NUM_ARGS; lia|]
    end.
    rewrite X. cbn [p_trace p_errno p_cwd].
    match goal with
    | |- context [sys_chdir e ?o ?s1] =>
        destruct (sys_chdir_cont e o s1) as (ev & cwd' & D & Q3)
    end.
    rewrite D. cbn [p_trace p_errno p_cwd].
    eexists. split; [reflexivity|]. cbn [p_trace]. app_norm. quiet.
    assert (Q4 : forallb quiet_event [ev; Free "oldpwd"] = true).
    { cbn [forallb]. rewrite Q3. reflexivity. }
    split.
    + rewrite (calls_app_quiet tr2 _ Q4). exact P.
    + rewrite Q2. quiet. reflexivity.
Qed.

Lemma map_fst_bare l : map fst (map bare l) = l.
Proof.
  induction l as [|x l IH]; [reflexivity|]. cbn [map bare fst]. f_equal.
  exact IH.
Qed.

(** X3: each script is called with its own name as the whole argument
    vector: line 645 puts the NULL in [args[1]], over the first of the
    extra arguments that line 617 stored. *)
Theorem run_parts_passes_no_extra_argument e dir extra cwd entries :
  b_chdir e (resolve cwd dir) = true ->
  b_opendir e (resolve (resolve cwd dir) dir) = Some entries ->
  (forall j, is_some (b_fork e j) = true) ->
  exists s',
    run_parts e dir extra (start cwd) = Cont 0%Z s' /\
    calls (p_trace s') = map bare (qsort (scripts entries)).
Proof.
  intros Hc Ho Hf.
  destruct (run_parts_trace e dir extra cwd entries Hc Ho Hf)
    as (s' & R & K & _).
  exists s'. split; [exact R | exact K].
Qed.

Lemma run_parts_passes_no_extra_argument_witness :
  exists s',
    run_parts rc_env "/etc/rc.d" ["start"%string] (start "/") = Cont 0%Z s' /\
    calls (p_trace s') = [("S01a", ["S01a"]); ("S02b", ["S02b"])]%string.
Proof.
  destruct (run_parts_passes_no_extra_argument rc_env "/etc/rc.d"
              ["start"%string] "/" rc_entries eq_refl eq_refl
              (fun j => eq_refl))
    as (s' & R & K).
  exists s'. split; [exact R|]. rewrite K. vm_compute. reflexivity.
Defined.

(** [opendir] fails after [chdir] succeeded: the return is made from
    inside the target. *)
Lemma run_parts_opendir_failure e dir extra s :
  b_chdir e (resolve (p_cwd s) dir) = true ->
  b_opendir e (resolve (resolve (p_cwd s) dir) dir) = None ->
  returned (run_parts e dir extra s) = Some (-1)%Z /\
  p_cwd (final (run_parts e dir extra s)) = resolve (p_cwd s) dir.
Proof.
  intros Hc Ho. unfold run_parts. run_step. unfold sys_chdir. run_step.
  rewrite Hc. run_step. rewrite Ho. run_step.
  destruct (b_getcwd_ok e); split; reflexivity.
Qed.

(** Nothing to run: again the return is made from inside the target. *)
Lemma run_parts_nothing_to_run e dir extra s entries :
  b_chdir e (resolve (p_cwd s) dir) = true ->
  b_opendir e (resolve (resolve (p_cwd s) dir) dir) = Some entries ->
  scripts entries = [] ->
  returned (run_parts e dir extra s) = Some 0%Z /\
  p_cwd (final (run_parts e dir extra s)) = resolve (p_cwd s) dir.
Proof.
  intros Hc Ho Hn. unfold run_parts. run_step. unfold sys_chdir. run_step.
  rewrite Hc. run_step. rewrite Ho. run_step.
  match goal with
  | |- context [collect entries [] ?s1] =>
      destruct (collect_spec entries [] s1) as (tr1 & C & Q1);
        [unfold NUM_SCRIPTS; cbn [List.length]; lia|]
  end.
  rewrite C. cbn [p_trace p_errno p_cwd app List.length].
  rewrite Nat.sub_0_r. fold (scripts entries). rewrite Hn.
  cbn [List.length Nat.eqb].
  destruct (b_getcwd_ok e); split; reflexivity.
Qed.

(** C6, at a directory without executable files and at one that cannot be
    opened: [run_parts] returns from inside the target directory, as it
    does whenever it takes one of these two early returns; only the path
    through the loop changes back. *)
Theorem run_parts_leaves_cwd_changed :
  (let r := run_parts rc_env "/etc/docs" [] (start "/") in
   returned r = Some 0%Z /\ p_cwd (final r) = "/etc/docs"%string) /\
  (let r := run_parts rc_env "/var/empty" [] (start "/") in
   returned r = Some (-1)%Z /\ p_cwd (final r) = "/var/empty"%string) /\
  (let r := run_parts rc_env "/etc/rc.d" [] (start "/") in
   returned r = Some 0%Z /\ p_cwd (final r) = "/"%string) /\
  (forall e dir extra s,
      b_chdir e (resolve (p_cwd s) dir) = true ->
      b_opendir e (resolve (resolve (p_cwd s) dir) dir) = None ->
      returned (run_parts e dir extra s) = Some (-1)%Z /\
      p_cwd (final (run_parts e dir extra s)) = resolve (p_cwd s) dir) /\
  (forall e dir extra s entries,
      b_chdir e (resolve (p_cwd s) dir) = true ->
      b_opendir e (resolve (resolve (p_cwd s) dir) dir) = Some entries ->
      scripts entries = [] ->
      returned (run_parts e dir extra s) = Some 0%Z /\
      p_cwd (final (run_parts e dir extra s)) = resolve (p_cwd s) dir).
Proof.
  split; [split; vm_compute; reflexivity|].
  split; [split; vm_compute; reflexivity|].
  split; [split; vm_compute; reflexivity|].
  split; [exact run_parts_opendir_failure | exact run_parts_nothing_to_run].
Qed.

Lemma signals_reset_app e1 e2 fin :
  signals_reset {| c_events := e1 ++ e2; c_end := fin |}
  = signals_reset {| c_events := e1; c_end := fin |}
    ++ signals_reset {| c_events := e2; c_end := fin |}.
Proof. unfold signals_reset. cbn [c_events]. apply flat_map_app. Qed.

Lemma signals_reset_loop l fin :
  signals_reset {| c_events := map DFLSIG l; c_end := fin |} = l.
Proof.
  unfold signals_reset. cbn [c_events].
  induction l as [|x l IH]; [reflexivity|]. cbn [map flat_map DFLSIG app].
  f_equal. exact IH.
Qed.

(** The child of [run] resets the signals 1 to [NSIG - 1], in that order,
    and nothing else. *)
Lemma run_child_resets_all NSIG exec_ok fp argv :
  signals_reset (run_child NSIG exec_ok fp argv) = seq 1 (NSIG - 1).
Proof.
  unfold run_child, reset_signals.
  destruct exec_ok; rewrite ?signals_reset_app, signals_reset_loop;
    destruct fp; cbn; rewrite ?app_nil_r; reflexivity.
Qed.

(** C3, at the scripts of /etc/rc.d: the children of [run_parts] go to
    [execv] without resetting any signal, where the child of [run] resets
    every signal from 1 to [NSIG - 1] first. *)
Theorem run_parts_children_keep_dispositions :
  (forall exec_ok script argv,
      signals_reset (parts_child exec_ok script argv) = []) /\
  (forall NSIG exec_ok fp argv,
      signals_reset (run_child NSIG exec_ok fp argv) = seq 1 (NSIG - 1)) /\
  let r := run_parts rc_env "/etc/rc.d" [] (start "/") in
  map (fun f => (exec_calls (snd f), signals_reset (snd f)))
      (forks (p_trace (final r)))
  = [([("S01a", ["S01a"])], []); ([("S02b", ["S02b"])], [])]%string.
Proof.
  split; [|split].
  - intros [|] script argv; reflexivity.
  - exact run_child_resets_all.
  - vm_compute. reflexivity.
Qed.

End BatchFacts.

(** ** [pidfile_read] *)

Module PidFileFacts.
Import CStr Sys PidFile Examples.

(** C7, at a pidfile that holds 1: the read succeeds with 1, which is not
    greater than 1; the other cases are as documented. *)
Theorem pidfile_read_returns_what_is_written :
  (forall e s, pidfile_read e None s
               = Cont (-1)%Z {| p_trace := p_trace s; p_errno := EINVAL;
                                p_cwd := p_cwd s |}) /\
  (forall path s, pidfile_read pidfile_absent (Some path) s
                  = Cont (-1)%Z {| p_trace := p_trace s; p_errno := ENOENT;
                                   p_cwd := p_cwd s |}) /\
  returned (pidfile_read (pidfile_with "") (Some "/run/d.pid"%string)
              (start "/")) = Some 0%Z /\
  returned (pidfile_read (pidfile_with "garbage") (Some "/run/d.pid"%string)
              (start "/")) = Some 0%Z /\
  returned (pidfile_read (pidfile_with ("1" ++ nl)) (Some "/run/d.pid"%string)
              (start "/")) = Some 1%Z /\
  returned (pidfile_read (pidfile_with ("-1" ++ nl)) (Some "/run/d.pid"%string)
              (start "/")) = Some (-1)%Z.
Proof.
  split; [intros; reflexivity|].
  split; [intros; reflexivity|].
  repeat split; vm_compute; reflexivity.
Qed.

End PidFileFacts.

(** ** [procname_kill] *)

Module ProcNameFacts.
Import CStr Sys Runner ProcName Examples.
Import CStrFacts TokenizerFacts RunnerFacts.
Local Open Scope list_scope.

Lemma kills_app a b : kills (a ++ b) = kills a ++ kills b.
Proof.
  induction a as [|ev a IH]; [reflexivity|].
  destruct ev; cbn [app kills]; rewrite IH; reflexivity.
Qed.

(** [strncmp] over the length of a string without NUL is zero exactly
    when that string starts the other one. *)
Lemma strncmp_prefix cand : forall tl name,
  ~ In NUL cand ->
  strncmp (cand ++ tl) name (Z.of_nat (List.length cand)) = 0%Z <->
  exists rest, c_str name = cand ++ rest.
Proof.
  induction cand as [|x cand IH]; intros tl name Hn.
  - cbn [List.length app]. split.
    + intros _. exists (c_str name). reflexivity.
    + intros _. destruct tl, name; reflexivity.
  - destruct (not_in_nul x cand Hn) as [Hx Hn'].
    cbn [app List.length strncmp].
    replace (Z.of_nat (S (List.length cand)) <=? 0)%Z with false
      by (symmetry; apply Z.leb_gt; lia).
    replace (Z.of_nat (S (List.length cand)) - 1)%Z
      with (Z.of_nat (List.length cand)) by lia.
    destruct name as [|d name].
    + rewrite Hx. split.
      * intros H. exfalso. exact (uchar_nonzero x Hx H).
      * intros [rest H]. discriminate H.
    + destruct (Ascii.eqb x d) eqn:E.
      * rewrite Hx. apply Ascii.eqb_eq in E. subst d.
        cbn [c_str]. rewrite Hx. rewrite (IH tl name Hn'). split.
        -- intros [rest H]. exists rest. rewrite H. reflexivity.
        -- intros [rest H]. exists rest. injection H as H. exact H.
      * split.
        -- intros H. exfalso. exact (uchar_diff x d E H).
        -- intros [rest H]. exfalso. cbn [c_str] in H.
           destruct (is_nul d); [discriminate H|].
           injection H as H _. subst d. rewrite Ascii.eqb_refl in E.
           discriminate E.
Qed.

Lemma fgets_take_line l1 : forall more n,
  ~ In newline l1 -> List.length l1 < n ->
  fgets_take n (l1 ++ newline :: more) = l1 ++ [newline].
Proof.
  induction l1 as [|x l1 IH]; intros more n Hn Hl.
  - destruct n as [|n]; [inversion Hl|]. reflexivity.
  - destruct n as [|n]; [inversion Hl|]. cbn [app fgets_take].
    destruct (Ascii.eqb x newline) eqn:E.
    + exfalso. apply Hn. left. apply Ascii.eqb_eq in E. auto.
    + f_equal. apply IH.
      * intros K. apply Hn. right. exact K.
      * cbn [List.length] in Hl. lia.
Qed.

Lemma fgets_some content :
  List.length content <> 0 -> fgets 64 content = Some (fgets_take 63 content).
Proof. destruct content; [intros H; contradiction|reflexivity]. Qed.

Lemma label_plain : ~ In NUL label /\ ~ In newline label /\ List.length label = 6.
Proof.
  repeat split; try reflexivity; vm_compute; intros H;
    repeat (destruct H as [H|H]; [discriminate H|]); exact H.
Qed.

(** What the scan compares for a process called [cand], and when it
    selects the entry. *)
Lemma candidate_rule d cand more k name :
  ~ In NUL cand -> ~ In newline cand -> List.length cand <= 56 ->
  let pe := {| pe_d_name := d;
               pe_status := Some (label ++ cand ++ newline :: more);
               pe_kill_ok := k |} in
  candidate pe = Some (cand ++ [newline]) /\
  (selected name pe = true <->
   isdigit (hd NUL (lit d)) = true /\ exists rest, c_str name = cand ++ rest).
Proof.
  intros Hn Hl Hlen pe.
  destruct label_plain as (L0 & L1 & L2).
  assert (C : candidate pe = Some (cand ++ [newline])).
  { unfold candidate, pe. cbn [pe_status].
    rewrite fgets_some.
    2:{ rewrite length_app, L2. lia. }
    replace (label ++ cand ++ newline :: more)
      with ((label ++ cand) ++ newline :: more) by app_norm.
    rewrite fgets_take_line;
      [| apply not_in_app; assumption | rewrite length_app; simpl; lia].
    assert (P : ~ In NUL ((label ++ cand) ++ [newline])).
    { apply not_in_app; [apply not_in_app; assumption|].
      intros [K|[]]. discriminate K. }
    unfold strlen. rewrite (c_str_id _ P).
    replace (List.length ((label ++ cand) ++ [newline]) <? 6) with false
      by (symmetry; apply Nat.ltb_ge; length_norm).
    reflexivity. }
  split; [exact C|].
  unfold selected. rewrite C. cbn [pe_d_name pe].
  assert (P : ~ In NUL (cand ++ [newline])).
  { apply not_in_app; [assumption|]. intros [K|[]]. discriminate K. }
  unfold name_matches, strlen. rewrite (c_str_id _ P).
  replace (size_sub (Z.of_nat (List.length (cand ++ [newline]))) 1)
    with (Z.of_nat (List.length cand)).
  2:{ unfold size_sub, SIZE_MAX. rewrite length_app. cbn [List.length].
      rewrite Z.mod_small; lia. }
  rewrite andb_true_iff, Z.eqb_eq, (strncmp_prefix cand [newline] name Hn).
  reflexivity.
Qed.

Lemma visit_spec name signo pe result s :
  well_formed pe = true ->
  exists tr,
    visit name signo pe result s
    = Cont (result + (if selected name pe && pe_kill_ok pe then 1 else 0))%Z
        {| p_trace := p_trace s ++ tr; p_errno := p_errno s;
           p_cwd := p_cwd s |} /\
    kills tr = if selected name pe then [kill_call signo pe] else [].
Proof.
  destruct s as [t0 e0 c0].
  unfold well_formed, visit, selected, candidate, kill_call.
  destruct (isdigit (hd NUL (lit (pe_d_name pe)))); cbn [negb andb].
  2:{ intros _. exists []. rewrite Z.add_0_r, app_nil_r. split; reflexivity. }
  destruct (pe_status pe) as [content|].
  2:{ intros _. step. eexists. rewrite Z.add_0_r. split; reflexivity. }
  destruct (fgets 64 content) as [line|].
  2:{ intros _. step. eexists. rewrite Z.add_0_r, <- app_assoc.
      split; reflexivity. }
  intros W. apply Nat.leb_le in W.
  replace (strlen line <? 6) with false by (symmetry; apply Nat.ltb_ge; lia).
  destruct (name_matches (skipn 6 (c_str line)) name).
  - destruct (pe_kill_ok pe); step; eexists; rewrite <- ?app_assoc;
      rewrite ?Z.add_0_r; split; reflexivity.
  - step. eexists. rewrite Z.add_0_r, <- app_assoc. split; reflexivity.
Qed.

Lemma scan_proc_spec name signo : forall entries result s,
  forallb well_formed entries = true ->
  exists tr,
    scan_proc name signo entries result s
    = Cont (result + Z.of_nat (List.length
                        (filter pe_kill_ok (filter (selected name) entries))))%Z
        {| p_trace := p_trace s ++ tr; p_errno := p_errno s;
           p_cwd := p_cwd s |} /\
    kills tr = map (kill_call signo) (filter (selected name) entries).
Proof.
  induction entries as [|pe entries IH]; intros result s W.
  - exists []. cbn. rewrite Z.add_0_r, app_nil_r. destruct s. split; reflexivity.
  - cbn [forallb] in W. apply andb_prop in W. destruct W as [W1 W2].
    destruct (visit_spec name signo pe result s W1) as (tr1 & V & K1).
    cbn [scan_proc]. unfold bind at 1. rewrite V.
    match goal with
    | |- context [scan_proc name signo entries ?r ?s0] =>
        destruct (IH r s0 W2) as (tr2 & R & K2)
    end.
    rewrite R. cbn [p_trace p_errno p_cwd].
    exists (tr1 ++ tr2). rewrite app_assoc. split.
    + f_equal. cbn [filter].
      destruct (selected name pe); cbn [andb filter].
      * destruct (pe_kill_ok pe); cbn [List.length]; lia.
      * lia.
    + rewrite kills_app, K1, K2. cbn [filter].
      destruct (selected name pe); reflexivity.
Qed.

(** C8, the claim as stated fails: a process called foobar is not
    signalled for the target foo, of which its name is an extension, and a
    process called foo is signalled for the target foobar. *)
Lemma target_prefix_is_not_matched :
  (let r := procname_kill foobar_env (Some (lit "foo")) SIGTERM (start "/") in
   returned r = Some 0%Z /\ kills (p_trace (final r)) = []) /\
  (let r := procname_kill foo_env (Some (lit "foobar")) SIGTERM (start "/") in
   returned r = Some 2%Z /\
   kills (p_trace (final r)) = [(42, SIGTERM, true); (43, SIGTERM, true)]%Z).
Proof. repeat split; vm_compute; reflexivity. Qed.

(** C8 (amended): the name of a candidate is cut at its newline and
    compared over its own length, so an entry is selected exactly when the
    name of the process starts the target name; every selected entry is
    sent the signal, in order, a failed delivery stops nothing, and the
    value returned counts the deliveries that succeeded. *)
Theorem procname_kill_matches_candidate_prefix :
  (forall d cand more k name,
      ~ In NUL cand -> ~ In newline cand -> List.length cand <= 56 ->
      let pe := {| pe_d_name := d;
                   pe_status := Some (label ++ cand ++ newline :: more);
                   pe_kill_ok := k |} in
      candidate pe = Some (cand ++ [newline]) /\
      (selected name pe = true <->
       isdigit (hd NUL (lit d)) = true /\
       exists rest, c_str name = cand ++ rest)) /\
  (forall entries name signo s,
      forallb well_formed entries = true ->
      exists s',
        procname_kill {| k_opendir := Some entries |} (Some name) signo s
        = Cont (Z.of_nat (List.length
                  (filter pe_kill_ok (filter (selected name) entries)))) s' /\
        kills (p_trace s')
        = kills (p_trace s)
          ++ map (kill_call signo) (filter (selected name) entries)).
Proof.
  split.
  - intros d cand more k name Hn Hl Hlen.
    exact (candidate_rule d cand more k name Hn Hl Hlen).
  - intros entries name signo s W. unfold procname_kill. cbn [k_opendir].
    step.
    match goal with
    | |- context [scan_proc name signo entries ?r ?s0] =>
        destruct (scan_proc_spec name signo entries r s0 W) as (tr & R & K)
    end.
    rewrite R. cbn [p_trace p_errno p_cwd].
    eexists. split; [reflexivity|]. cbn [p_trace].
    rewrite !kills_app, K. cbn [kills]. rewrite !app_nil_r. reflexivity.
Qed.

Lemma procname_kill_matches_candidate_prefix_witness :
  (selected (lit "foobar") (live "43" "foo") = true /\
   selected (lit "foo") (live "42" "foobar") = false) /\
  exists s',
    procname_kill foo_env (Some (lit "foobar")) SIGTERM (start "/")
    = Cont 2%Z s'.
Proof.
  split.
  - split; vm_compute; reflexivity.
  - destruct (proj2 procname_kill_matches_candidate_prefix
                [live "42" "foobar"; live "43" "foo"] (lit "foobar") SIGTERM
                (start "/") eq_refl) as (s' & R & _).
    exists s'. exact R.
Defined.

End ProcNameFacts.

(** ** The tokenizer on lines of plain words *)

Module WordFacts.
Import CStr Tokenizer Words Examples CStrFacts TokenizerFacts.
Local Open Scope mem_scope.

Lemma blank_plain c :
  mem c blanks = true ->
  is_nul c = false /\ (Ascii.eqb c squote || Ascii.eqb c dquote) = false.
Proof.
  unfold blanks. cbn [lit list_ascii_of_string mem].
  destruct (Ascii.eqb c "009") eqn:E1.
  - apply Ascii.eqb_eq in E1. subst c. intros _. split; reflexivity.
  - destruct (Ascii.eqb c " ") eqn:E2; [|discriminate].
    apply Ascii.eqb_eq in E2. subst c. intros _. split; reflexivity.
Qed.

Lemma nul_plain :
  mem NUL blanks = false /\ (Ascii.eqb NUL squote || Ascii.eqb NUL dquote) = false.
Proof. split; reflexivity. Qed.

(** The scan of a word stops at the character that ends it. *)
Lemma scan_word w c tl :
  word_ok w -> is_nul c || mem c blanks = true ->
  scan blanks (w ++ c :: tl) = Some (List.length w, negb (is_nul c)).
Proof.
  intros [Hn Hb] Hc. induction w as [|x w IH].
  - cbn [app scan List.length]. destruct (is_nul c); [reflexivity|].
    cbn [orb] in Hc. rewrite Hc. reflexivity.
  - destruct (not_in_nul x w Hn) as [Hx Hw].
    cbn [app scan List.length]. rewrite Hx, (Hb x (or_introl eq_refl)).
    rewrite IH; [reflexivity | exact Hw |].
    intros d Hd. apply Hb. right. exact Hd.
Qed.

Lemma argv_of_app buf l1 : forall l2,
  List.length (argv_of buf l1) = List.length l1 ->
  argv_of buf (l1 ++ l2) = argv_of buf l1 ++ argv_of buf l2.
Proof.
  induction l1 as [|a l1 IH]; intros l2 H; [reflexivity|].
  destruct a as [p|]; [|discriminate H].
  cbn [app argv_of List.length] in *. f_equal. apply IH. lia.
Qed.

Lemma argv_of_cut buf l1 : forall l2,
  argv_of buf (l1 ++ None :: l2) = argv_of buf l1.
Proof.
  induction l1 as [|a l1 IH]; intros l2; [reflexivity|].
  destruct a as [p|]; [|reflexivity]. cbn [app argv_of]. f_equal. apply IH.
Qed.

Lemma store_split (A : Type) (l : list A) : forall i v,
  i < List.length l -> store l i v = firstn i l ++ v :: skipn (S i) l.
Proof.
  induction l as [|x l IH]; intros [|i] v H; cbn [List.length] in H;
    try lia; [reflexivity|].
  cbn [store firstn skipn app]. f_equal. apply IH. lia.
Qed.

Lemma firstn_S_store (A : Type) (l : list A) i v :
  i < List.length l -> firstn (S i) (store l i v) = firstn i l ++ [v].
Proof.
  intros H. rewrite store_split by exact H.
  rewrite firstn_app, length_firstn.
  replace (Nat.min i (List.length l)) with i by lia.
  replace (S i - i) with 1 by lia.
  rewrite firstn_firstn. replace (Nat.min (S i) i) with i by lia.
  reflexivity.
Qed.

(** The argument vector after the final store: the slots below [i]. *)
Lemma argv_of_finish buf args i :
  i < List.length args ->
  argv_of buf (store args i None) = argv_of buf (firstn i args).
Proof.
  intros H. rewrite store_split by exact H. apply argv_of_cut.
Qed.

Lemma cstr_at_word pre w tail :
  ~ In NUL w -> cstr_at (pre ++ w ++ NUL :: tail) (List.length pre) = w.
Proof.
  intros H. unfold cstr_at. rewrite skipn_app_exact. apply c_str_app. exact H.
Qed.

(** One pass over a plain word. *)
Lemma word_pass pre w c tl args i :
  word_ok w -> unquoted w = true -> is_nul c || mem c blanks = true ->
  tok_body {| t_buf := pre ++ w ++ c :: tl; t_arg := Some (List.length pre);
              t_args := args; t_i := i |}
  = Ok {| t_buf := pre ++ w ++ NUL :: tl;
          t_arg := if is_nul c then None
                   else Some (List.length pre + List.length w + 1);
          t_args := store args i (Some (List.length pre)); t_i := S i |}.
Proof.
  intros Hw Hu Hc. unfold tok_body. cbn [t_arg t_buf t_args t_i].
  assert (Q : exists x, peek (pre ++ w ++ c :: tl) (List.length pre) = Ok x /\
                        (Ascii.eqb x squote || Ascii.eqb x dquote) = false).
  { destruct w as [|x w].
    - exists c. split; [apply peek_app|].
      destruct (is_nul_cases c) as [(_ & -> & _)|[E _]];
        [apply nul_plain|].
      rewrite E in Hc. cbn [orb] in Hc. apply (blank_plain c Hc).
    - exists x. split; [apply peek_app|].
      cbn [unquoted] in Hu. apply negb_true_iff in Hu. exact Hu. }
  destruct Q as (x & Px & Qx). rewrite Px. cbn [mbind]. rewrite Qx.
  unfold strsep. rewrite skipn_app_exact, (scan_word w c tl Hw Hc).
  destruct (is_nul_cases c) as [(E & -> & _)|[E _]]; rewrite E; cbn [negb].
  - cbn [mbind]. reflexivity.
  - replace (pre ++ w ++ c :: tl) with ((pre ++ w) ++ c :: tl) by app_norm.
    rewrite poke_at by (rewrite length_app; reflexivity).
    cbn [mbind]. rewrite <- app_assoc. reflexivity.
Qed.

Lemma join_cons w sw rest :
  join w (sw :: rest) = w ++ fst sw :: join (snd sw) rest.
Proof. unfold join. cbn [flat_map]. rewrite <- app_comm_cons. reflexivity. Qed.

Lemma join_nil w : join w [] = w.
Proof. unfold join. cbn [flat_map]. apply app_nil_r. Qed.

(** The loop over the words that remain: the vector read at the end is
    the words stored so far and then the rest, cut at [NUM_ARGS]. *)
Lemma words_loop : forall rest fuel pre w args i vs,
  word_ok w -> unquoted w = true -> Forall spaced rest ->
  List.length args = S NUM_ARGS -> i < NUM_ARGS -> NUM_ARGS <= fuel + i ->
  List.length vs = i ->
  (forall tail, argv_of (pre ++ tail) (firstn i args) = map show vs) ->
  exists s',
    tok_loop fuel {| t_buf := pre ++ join w rest ++ [NUL];
                     t_arg := Some (List.length pre);
                     t_args := args; t_i := i |} = Ok (Some s') /\
    argv_of (t_buf (tok_finish s')) (t_args (tok_finish s'))
    = map show (firstn NUM_ARGS (vs ++ w :: map snd rest)).
Proof.
  induction rest as [|sw rest IH];
    intros fuel pre w args i vs Hw Hu Hr La Hi Hfuel Hvs Hpre;
    (destruct fuel as [|fuel]; [lia|]); cbn [tok_loop].
  - rewrite join_nil.
    rewrite (word_pass pre w NUL [] args i Hw Hu eq_refl).
    cbn [mbind tok_cond t_arg is_nul]. change (is_nul NUL) with true.
    cbn [tok_cond t_arg]. eexists. split; [reflexivity|].
    cbn [tok_finish t_buf t_args t_i map].
    rewrite argv_of_finish by (rewrite store_length; lia).
    rewrite firstn_S_store by lia.
    rewrite argv_of_app by (rewrite Hpre, length_map, length_firstn; lia).
    rewrite Hpre. cbn [argv_of]. rewrite (cstr_at_word pre w [] (proj1 Hw)).
    rewrite firstn_all2 by (rewrite length_app; cbn [List.length]; lia).
    rewrite map_app. reflexivity.
  - apply Forall_cons_iff in Hr. destruct Hr as [Hsw Hrest].
    destruct Hsw as (Hb & Hw' & Hu').
    destruct (blank_plain (fst sw) Hb) as [Bn _].
    rewrite join_cons.
    replace (pre ++ (w ++ fst sw :: join (snd sw) rest) ++ [NUL])
      with (pre ++ w ++ fst sw :: (join (snd sw) rest ++ [NUL])) by app_norm.
    rewrite (word_pass pre w (fst sw) _ args i Hw Hu)
      by (rewrite Hb; apply orb_true_r).
    rewrite Bn. cbn [mbind tok_cond t_arg t_i].
    assert (Hnext : forall tail,
               argv_of ((pre ++ w ++ [NUL]) ++ tail)
                 (firstn (S i) (store args i (Some (List.length pre))))
               = map show (vs ++ [w])).
    { intros tail. rewrite firstn_S_store by lia.
      rewrite argv_of_app
        by (rewrite <- app_assoc, Hpre, length_map, length_firstn; lia).
      rewrite <- !app_assoc. rewrite Hpre. cbn [argv_of app].
      rewrite (cstr_at_word pre w tail (proj1 Hw)).
      rewrite map_app. reflexivity. }
    destruct (S i <? NUM_ARGS) eqn:C.
    + apply Nat.ltb_lt in C.
      replace (pre ++ w ++ NUL :: join (snd sw) rest ++ [NUL])
        with ((pre ++ w ++ [NUL]) ++ join (snd sw) rest ++ [NUL]) by app_norm.
      replace (List.length pre + List.length w + 1)
        with (List.length (pre ++ w ++ [NUL]))
        by (rewrite !length_app; cbn [List.length]; lia).
      destruct (IH fuel (pre ++ w ++ [NUL]) (snd sw)
                  (store args i (Some (List.length pre))) (S i) (vs ++ [w])
                  Hw' Hu' Hrest) as (s' & L & A).
      * rewrite store_length. exact La.
      * exact C.
      * lia.
      * rewrite length_app. cbn [List.length]. lia.
      * exact Hnext.
      * exists s'. split; [exact L|]. rewrite A. cbn [map].
        rewrite <- app_assoc. reflexivity.
    + apply Nat.ltb_ge in C. eexists. split; [reflexivity|].
      cbn [tok_finish t_buf t_args t_i].
      rewrite argv_of_finish by (rewrite store_length; lia).
      replace (pre ++ w ++ NUL :: join (snd sw) rest ++ [NUL])
        with ((pre ++ w ++ [NUL]) ++ join (snd sw) rest ++ [NUL]) by app_norm.
      rewrite Hnext.
      replace (vs ++ w :: map snd (sw :: rest))
        with ((vs ++ [w]) ++ map snd (sw :: rest)) by app_norm.
      rewrite firstn_app.
      replace (NUM_ARGS - List.length (vs ++ [w])) with 0
        by (rewrite length_app; cbn [List.length]; lia).
      rewrite firstn_all2 by (rewrite length_app; cbn [List.length]; lia).
      cbn [firstn]. rewrite app_nil_r. reflexivity.
Qed.

Lemma join_plain w rest :
  word_ok w -> Forall spaced rest -> ~ In NUL (join w rest).
Proof.
  revert w. induction rest as [|sw rest IH]; intros w Hw Hr.
  - rewrite join_nil. exact (proj1 Hw).
  - apply Forall_cons_iff in Hr. destruct Hr as [(Hb & Hw' & _) Hrest].
    rewrite join_cons. apply not_in_app; [exact (proj1 Hw)|].
    intros [K|K].
    + destruct (blank_plain (fst sw) Hb) as [Bn _]. rewrite K in Bn.
      discriminate Bn.
    + exact (IH (snd sw) Hw' Hrest K).
Qed.

(** X4: a line of two or more words, each after one tab or space, none
    but the first opening with a quote, is split into exactly these words;
    of more than [NUM_ARGS] words the first [NUM_ARGS] are kept. *)
Theorem tokenize_words w0 sw rest :
  word_ok w0 -> Forall spaced (sw :: rest) ->
  exists t,
    tokenize (join w0 (sw :: rest)) = Ok t /\
    argv_of (t_buf t) (t_args t)
    = map show (firstn NUM_ARGS (w0 :: map snd (sw :: rest))).
Proof.
  intros Hw Hr.
  pose proof (join_plain w0 (sw :: rest) Hw Hr) as Hn.
  apply Forall_cons_iff in Hr. destruct Hr as [(Hb & Hw' & Hu') Hrest].
  destruct (blank_plain (fst sw) Hb) as [Bn _].
  unfold tokenize, tokenize_fuel, strdup. rewrite (c_str_id _ Hn).
  unfold strsep. cbn [skipn]. rewrite join_cons.
  replace ((w0 ++ fst sw :: join (snd sw) rest) ++ [NUL])
    with (w0 ++ fst sw :: (join (snd sw) rest ++ [NUL])) by app_norm.
  rewrite (scan_word w0 (fst sw) _ Hw) by (rewrite Hb; apply orb_true_r).
  rewrite Bn. cbn [negb Nat.add].
  rewrite poke_at by reflexivity. cbn [mbind].
  destruct (words_loop rest NUM_ARGS (w0 ++ [NUL]) (snd sw)
              (store (repeat None (S NUM_ARGS)) 0 (Some 0)) 1 [w0]
              Hw' Hu' Hrest) as (s' & L & A).
  - rewrite store_length. apply repeat_length.
  - unfold NUM_ARGS. lia.
  - unfold NUM_ARGS. lia.
  - reflexivity.
  - intros tail. cbn [NUM_ARGS repeat store firstn argv_of map].
    f_equal. f_equal. unfold cstr_at. cbn [skipn]. rewrite <- app_assoc.
    apply c_str_app. exact (proj1 Hw).
  - unfold tok_init.
    replace (w0 ++ NUL :: join (snd sw) rest ++ [NUL])
      with ((w0 ++ [NUL]) ++ join (snd sw) rest ++ [NUL]) by app_norm.
    replace (List.length w0 + 1) with (List.length (w0 ++ [NUL]))
      by (rewrite length_app; reflexivity).
    rewrite L. cbn [mbind option_map]. exists (tok_finish s').
    split; [reflexivity|]. exact A.
Qed.

Ltac word_ok_tac :=
  split;
  [ cbn; intuition discriminate
  | let c := fresh "c" in let H := fresh "H" in
    intros c H; cbn in H;
    repeat (destruct H as [<-|H]; [reflexivity|]); contradiction ].

Ltac spaced_tac := split; [reflexivity | split; [word_ok_tac | reflexivity]].

Lemma tokenize_words_witness :
  word_ok Samples.mount_word /\
  Forall spaced Samples.mount_rest /\
  exists t,
    tokenize (join Samples.mount_word Samples.mount_rest) = Ok t /\
    argv_of (t_buf t) (t_args t) = Samples.mount_argv.
Proof.
  assert (Hw : word_ok Samples.mount_word) by word_ok_tac.
  assert (Hr : Forall spaced Samples.mount_rest)
    by (unfold Samples.mount_rest; repeat (constructor; [spaced_tac|]);
        constructor).
  split; [exact Hw|]. split; [exact Hr|].
  exact (tokenize_words Samples.mount_word _ _ Hw Hr).
Defined.

End WordFacts.

(* ================================================================== *)
(** ** [run]: what every path leaves behind *)
(* ================================================================== *)

Module RunPathFacts.
Import CStr Tokenizer WaitStatus Sys Runner Examples Resources.
Import TokenizerFacts WaitFacts RunnerFacts.
Local Open Scope string_scope.
Local Open Scope list_scope.

Lemma WEXITSTATUS_range status : (0 <= WEXITSTATUS status <= 255)%Z.
Proof.
  unfold WEXITSTATUS. rewrite Z.shiftr_land.
  change (Z.shiftr 65280 8) with (Z.ones 8).
  rewrite Z.land_ones by lia.
  pose proof (Z.mod_pos_bound (Z.shiftr status 8) (2 ^ 8) ltac:(lia)). lia.
Qed.

Lemma result_of_range status : (0 <= result_of status <= 255)%Z.
Proof.
  unfold result_of. pose proof (WEXITSTATUS_range status).
  destruct (WIFEXITED status); [lia|].
  destruct (WIFSIGNALED status); [|lia].
  destruct (WEXITSTATUS status =? 0)%Z; lia.
Qed.

(** Every path of [run] that returns, as the value and the calls added
    to the trace. *)
Lemma run_paths NSIG e cmd s v s' :
  run NSIG e cmd s = Cont v s' ->
  exists tr,
    p_trace s' = p_trace s ++ tr /\ p_cwd s' = p_cwd s /\
    ((e_strdup_ok e = false /\ v = 1%Z /\ tr = []) \/
     (e_strdup_ok e = true /\ e_fork e = None /\ v = (-1)%Z /\
      tr = [Alloc "backup"; Fopen "/dev/null" (is_some (e_devnull e));
            ForkFailed; Log "fork"]) \/
     (exists pid c logs,
        e_strdup_ok e = true /\ e_fork e = Some pid /\
        (0 <= v <= 255)%Z /\
        (forall ev, In ev logs -> exists m, ev = Log m) /\
        tr = [Alloc "backup"; Fopen "/dev/null" (is_some (e_devnull e));
              Fork pid c; Waitpid (Z.pos pid)] ++ logs ++
             (if is_some (e_devnull e) then [Fclose "/dev/null"] else []) ++
             [Free "backup"])).
Proof.
  unfold run. destruct (e_strdup_ok e) eqn:Hs; cbn [negb].
  - step. destruct (tokenize cmd) as [t|] eqn:Ht; [|step; discriminate].
    rewrite (too_long_never cmd t Ht).
    destruct (e_fork e) as [pid|] eqn:Hf.
    + destruct (e_wait e) as [err|] eqn:Hw.
      * step.
        match goal with
        | |- context [wait_failure_log ?er ?s0] =>
            destruct (wait_failure_log_cont er s0) as [tr E];
            assert (L : forall ev, In ev tr -> exists m, ev = Log m)
        end.
        { revert E. unfold wait_failure_log.
          destruct (err =? EINTR)%Z; [|destruct (err =? ECHILD)%Z]; step;
            intros E; injection E as E; apply app_inv_head in E; subst tr;
            intros ev [<-|[]]; eexists; reflexivity. }
        rewrite E. cbn [p_trace p_errno p_cwd].
        destruct (e_devnull e); step; intros R; injection R as <- <-;
          cbn [p_trace p_cwd];
          (eexists; split; [app_norm; reflexivity|]);
          (split; [reflexivity|]); right; right;
          exists pid; eexists; exists tr;
          (repeat split; try lia; exact L).
      * step.
        match goal with
        | |- context [wait_status_log ?st ?s0] =>
            destruct (wait_status_log_cont st s0) as [tr E];
            assert (L : forall ev, In ev tr -> exists m, ev = Log m);
            [|pose proof (result_of_range st) as Rg]
        end.
        { revert E. unfold wait_status_log.
          match goal with
          | |- context [WIFEXITED ?st] =>
              destruct (WIFEXITED st); [|destruct (WIFSIGNALED st)]
          end; step; intros E; injection E as E.
          - apply app_inv_head in E; subst tr.
            intros ev [<-|[]]; eexists; reflexivity.
          - apply app_inv_head in E; subst tr.
            intros ev [<-|[]]; eexists; reflexivity.
          - rewrite <- (app_nil_r (_ ++ _)) in E at 1.
            apply app_inv_head in E; subst tr. intros ev []. }
        rewrite E. cbn [p_trace p_errno p_cwd].
        destruct (e_devnull e); step; intros R; injection R as <- <-;
          cbn [p_trace p_cwd];
          (eexists; split; [app_norm; reflexivity|]);
          (split; [reflexivity|]); right; right;
          exists pid; eexists; exists tr;
          (repeat split; try lia; exact L).
    + step. intros R; injection R as <- <-. cbn [p_trace p_cwd].
      eexists; split; [app_norm; reflexivity|]. split; [reflexivity|].
      right; left. repeat split.
  - unfold ret. intros R; injection R as <- <-.
    exists []. split; [rewrite app_nil_r; reflexivity|].
    split; [reflexivity|]. left. repeat split.
Qed.

Lemma allocated_app a b : allocated (a ++ b) = allocated a ++ allocated b.
Proof. apply flat_map_app. Qed.

Lemma freed_app a b : freed (a ++ b) = freed a ++ freed b.
Proof. apply flat_map_app. Qed.

Lemma opened_app a b : opened (a ++ b) = opened a ++ opened b.
Proof. apply flat_map_app. Qed.

Lemma closed_app a b : closed (a ++ b) = closed a ++ closed b.
Proof. apply flat_map_app. Qed.

Lemma waited_app a b : waited (a ++ b) = waited a ++ waited b.
Proof. apply flat_map_app. Qed.

Lemma created_app a b : created (a ++ b) = created a ++ created b.
Proof. unfold created. rewrite forks_app. apply map_app. Qed.

Lemma stderr_text_app a b :
  stderr_text (a ++ b) = stderr_text a ++ stderr_text b.
Proof. apply flat_map_app. Qed.

(** Messages of the log take and give nothing. *)
Lemma logs_are_neutral logs :
  (forall ev, In ev logs -> exists m, ev = Log m) ->
  allocated logs = [] /\ freed logs = [] /\ opened logs = [] /\
  closed logs = [] /\ waited logs = [] /\ created logs = [] /\
  stderr_text logs = [].
Proof.
  induction logs as [|ev logs IH]; intros H.
  - repeat split.
  - destruct (H ev (or_introl eq_refl)) as [m ->].
    destruct (IH (fun ev' K => H ev' (or_intror K)))
      as (A & F & O & C & W & R & T).
    unfold allocated, freed, opened, closed, waited, created, stderr_text
      in *.
    cbn [flat_map forks app]. repeat split; assumption.
Qed.

Ltac tally :=
  rewrite ?allocated_app, ?freed_app, ?opened_app, ?closed_app, ?waited_app,
    ?created_app, ?stderr_text_app.

(** X5: a call of [run] whose [fork] succeeds frees the copy of the
    command it allocated, closes the stream it opened, and waits for
    exactly the child it created, whichever way it returns. *)
Theorem run_reaps_and_releases NSIG e cmd s v s' :
  is_some (e_fork e) = true ->
  run NSIG e cmd s = Cont v s' ->
  exists tr,
    p_trace s' = p_trace s ++ tr /\
    freed tr = allocated tr /\ closed tr = opened tr /\
    waited tr = created tr.
Proof.
  intros Hf R.
  destruct (run_paths NSIG e cmd s v s' R)
    as (tr & T & _ & [(_ & _ & ->)|[(_ & K & _)|P]]).
  - exists []. repeat split. exact T.
  - rewrite K in Hf. discriminate Hf.
  - destruct P as (pid & c & logs & _ & _ & _ & L & ->).
    exists ([Alloc "backup"; Fopen "/dev/null" (is_some (e_devnull e));
             Fork pid c; Waitpid (Z.pos pid)] ++ logs ++
            (if is_some (e_devnull e) then [Fclose "/dev/null"] else []) ++
            [Free "backup"]).
    split; [exact T|].
    destruct (logs_are_neutral logs L) as (A & F & O & C & W & Cr & _).
    tally. rewrite A, F, O, C, W, Cr.
    destruct (e_devnull e); repeat split.
Qed.

Lemma run_reaps_and_releases_witness :
  exists tr,
    p_trace (final (run 65 (env_runs (Exited 0)) (lit echo_cmd) (start "/")))
    = tr /\
    freed tr = allocated tr /\ closed tr = opened tr /\
    waited tr = created tr.
Proof.
  destruct (run_reaps_and_releases 65 (env_runs (Exited 0)) (lit echo_cmd)
              (start "/") _ _ eq_refl eq_refl) as (tr & T & H).
  exists tr. split; [exact T | exact H].
Defined.

(** X6: when [fork] fails, [run] returns -1 having waited for nothing,
    and neither the copy of the command nor the stream to /dev/null is
    released. *)
Theorem run_fork_failure_leaks NSIG e cmd t s :
  e_strdup_ok e = true -> tokenize cmd = Ok t -> e_fork e = None ->
  exists s' tr,
    run NSIG e cmd s = Cont (-1)%Z s' /\
    p_trace s' = p_trace s ++ tr /\
    allocated tr = ["backup"] /\ freed tr = [] /\
    opened tr = (if is_some (e_devnull e) then ["/dev/null"] else []) /\
    closed tr = [] /\ created tr = [] /\ waited tr = [].
Proof.
  intros Hs Ht Hf. unfold run.
  rewrite Hs, Ht, (too_long_never cmd t Ht), Hf. cbn [negb]. step.
  eexists. eexists. split; [reflexivity|]. cbn [p_trace].
  split; [app_norm; reflexivity|].
  destruct (e_devnull e); repeat split.
Qed.

Lemma run_fork_failure_leaks_witness :
  exists s' tr,
    run 65 env_fork_fails (lit echo_cmd) (start "/") = Cont (-1)%Z s' /\
    p_trace s' = tr /\ allocated tr = ["backup"] /\ freed tr = [] /\
    opened tr = ["/dev/null"] /\ closed tr = [].
Proof.
  destruct (run_fork_failure_leaks 65 env_fork_fails (lit echo_cmd) echo_tok
              (start "/") eq_refl eq_refl eq_refl)
    as (s' & tr & R & T & A & F & O & C & _).
  exists s', tr. repeat split; assumption.
Defined.

(** X7: [run] returns -1 exactly when [fork] fails, and a value from 0 to
    255 on every other path. *)
Theorem run_value_range NSIG e cmd s v s' :
  run NSIG e cmd s = Cont v s' ->
  (-1 <= v <= 255)%Z /\
  (v = (-1)%Z <-> e_strdup_ok e = true /\ e_fork e = None).
Proof.
  intros R.
  destruct (run_paths NSIG e cmd s v s' R)
    as (tr & _ & _ & [(Hs & -> & _)|[(Hs & Hf & -> & _)|P]]).
  - split; [lia|]. split; [discriminate|].
    intros [K _]. rewrite K in Hs. discriminate Hs.
  - split; [lia|]. split; [intros _; split; assumption | reflexivity].
  - destruct P as (pid & c & logs & Hs & Hf & Rg & _).
    split; [lia|]. split; [lia|].
    intros [_ K]. rewrite K in Hf. discriminate Hf.
Qed.

Lemma run_value_range_witness :
  (-1 <= 1 <= 255)%Z /\
  (1%Z = (-1)%Z <->
   e_strdup_ok (env_runs (Signaled SIGINT false)) = true /\
   e_fork (env_runs (Signaled SIGINT false)) = None).
Proof.
  exact (run_value_range 65 (env_runs (Signaled SIGINT false)) (lit echo_cmd)
           (start "/") 1%Z _ eq_refl).
Defined.

Lemma stderr_text_skip ev l :
  match ev with WriteStderr _ => False | _ => True end ->
  stderr_text (ev :: l) = stderr_text l.
Proof. destruct ev; intros H; [reflexivity.. | | | | | |]; try reflexivity; contradiction. Qed.

Lemma replay_first_chunk LINE_SIZE data s :
  2 <= LINE_SIZE ->
  exists tr,
    replay LINE_SIZE (S (List.length data)) data s
    = Cont tt {| p_trace := p_trace s ++ tr; p_errno := p_errno s;
                 p_cwd := p_cwd s |} /\
    stderr_text tr = firstn LINE_SIZE data /\
    allocated tr = [] /\ freed tr = [] /\ opened tr = [] /\ closed tr = [].
Proof.
  intros HL. destruct data as [|c [|d data]].
  - exists []. cbn [List.length replay firstn]. rewrite firstn_nil.
    cbn [List.length Nat.ltb Nat.leb Nat.eqb andb]. step.
    rewrite app_nil_r. destruct s. repeat split.
  - exists [WriteStderr [c]].
    destruct LINE_SIZE as [|[|n]]; [lia|lia|].
    cbn [List.length replay firstn skipn Nat.ltb Nat.leb Nat.eqb andb]. step.
    repeat split.
  - exists [WriteStderr (firstn LINE_SIZE (c :: d :: data))].
    destruct LINE_SIZE as [|[|n]]; [lia|lia|].
    cbn [List.length replay firstn skipn Nat.ltb Nat.leb Nat.eqb andb]. step.
    split; [reflexivity|]. cbn [stderr_text flat_map]. rewrite app_nil_r.
    repeat split.
Qed.

(** X8: of the output [run_interactive] captured from the command, only
    the first [LINE_SIZE] bytes reach the standard error stream: [fwrite]
    returns the count of items, 1, and the replay loop goes on only while
    that equals the count of bytes read. *)
Theorem run_interactive_replays_one_chunk NSIG LINE_SIZE e cmd descr s v s' :
  2 <= LINE_SIZE ->
  is_some (ri_tmpfile e) = true -> ri_debug e = false ->
  run_interactive NSIG LINE_SIZE e cmd descr s = Cont v s' ->
  exists tr,
    p_trace s' = p_trace s ++ tr /\
    stderr_text tr = firstn LINE_SIZE (ri_captured e).
Proof.
  intros HL Hf Hd. unfold run_interactive. rewrite Hf, Hd.
  cbn [andb negb]. step.
  match goal with
  | |- context [run NSIG (ri_run e) cmd ?s0] =>
      destruct (run NSIG (ri_run e) cmd s0) as [v1 s1|s1] eqn:R;
        [|discriminate];
      destruct (run_paths NSIG (ri_run e) cmd s0 v1 s1 R)
        as (tr1 & T1 & _ & P)
  end.
  cbn [p_trace] in T1.
  assert (Q : stderr_text tr1 = []).
  { destruct P as [(_ & _ & ->)|[(_ & _ & _ & ->)|P]]; [reflexivity..|].
    destruct P as (pid & c & logs & _ & _ & _ & L & ->).
    destruct (logs_are_neutral logs L) as (_ & _ & _ & _ & _ & _ & K).
    tally. rewrite K. destruct (e_devnull (ri_run e)); reflexivity. }
  match goal with
  | |- context [replay LINE_SIZE _ ?d ?s0] =>
      destruct (replay_first_chunk LINE_SIZE d s0 HL) as (tr2 & E & X & _);
        rewrite E
  end.
  cbn [p_trace p_errno p_cwd]. intros K. injection K as <- <-.
  cbn [p_trace]. rewrite T1.
  eexists. split; [app_norm; reflexivity|].
  repeat ((rewrite stderr_text_skip by exact I) || rewrite stderr_text_app).
  rewrite Q, X. cbn [stderr_text flat_map app]. rewrite app_nil_r.
  reflexivity.
Qed.

Lemma run_interactive_replays_one_chunk_witness :
  exists tr,
    p_trace (final (run_interactive 65 8 ri_echo (lit echo_cmd) "echo"
                      (start "/"))) = tr /\
    stderr_text tr = lit "hello wo".
Proof.
  assert (R : run_interactive 65 8 ri_echo (lit echo_cmd) "echo" (start "/")
              = Cont 0%Z (final (run_interactive 65 8 ri_echo (lit echo_cmd)
                                   "echo" (start "/"))))
    by (vm_compute; reflexivity).
  destruct (run_interactive_replays_one_chunk 65 8 ri_echo (lit echo_cmd)
              "echo" (start "/") _ _ (proj1 (Nat.leb_le 2 8) eq_refl)
              eq_refl eq_refl R) as (tr & T & X).
  exists tr. split; [exact T | exact X].
Defined.

End RunPathFacts.

(* ================================================================== *)
(** ** [chomp] *)
(* ================================================================== *)

Module LineFacts.
Import CStr Tokenizer Lines CStrFacts TokenizerFacts.
Local Open Scope list_scope.

Lemma strchr_found l c rest :
  ~ In c l -> ~ In NUL l ->
  strchr (l ++ c :: rest) c = Ok (Some (List.length l)).
Proof.
  induction l as [|d l IH]; intros Hc Hn; cbn [app strchr List.length].
  - rewrite Ascii.eqb_refl. reflexivity.
  - destruct (eqb_cases d c) as [[_ K]|[E _]];
      [exfalso; apply Hc; left; exact K|].
    rewrite E. destruct (not_in_nul d l Hn) as [Z Hn']. rewrite Z.
    rewrite IH; [reflexivity | | exact Hn'].
    intros K. apply Hc. right. exact K.
Qed.

Lemma strchr_absent l c rest :
  ~ In c l -> ~ In NUL l -> c <> NUL ->
  strchr (l ++ NUL :: rest) c = Ok None.
Proof.
  induction l as [|d l IH]; intros Hc Hn Hz; cbn [app strchr].
  - destruct (eqb_cases NUL c) as [[_ K]|[E _]]; [congruence|].
    rewrite E. reflexivity.
  - destruct (eqb_cases d c) as [[_ K]|[E _]];
      [exfalso; apply Hc; left; exact K|].
    rewrite E. destruct (not_in_nul d l Hn) as [Z Hn']. rewrite Z.
    rewrite IH; [reflexivity | | exact Hn' | exact Hz].
    intros K. apply Hc. right. exact K.
Qed.

Lemma strchr_leaves l c :
  ~ In c l -> ~ In NUL l -> strchr l c = Fault.
Proof.
  induction l as [|d l IH]; intros Hc Hn; cbn [strchr]; [reflexivity|].
  destruct (eqb_cases d c) as [[_ K]|[E _]];
    [exfalso; apply Hc; left; exact K|].
  rewrite E. destruct (not_in_nul d l Hn) as [Z Hn']. rewrite Z.
  rewrite IH; [reflexivity | | exact Hn'].
  intros K. apply Hc. right. exact K.
Qed.

Lemma newline_not_nul : newline <> NUL.
Proof. discriminate. Qed.

(** A string that holds no newline is left as it is. *)
Lemma chomp_keeps l rest :
  ~ In newline l -> ~ In NUL l ->
  chomp (l ++ NUL :: rest) = Ok (l ++ NUL :: rest).
Proof.
  intros Hc Hn. unfold chomp.
  rewrite (strchr_absent l newline rest Hc Hn newline_not_nul).
  reflexivity.
Qed.

Lemma chomp_cut l rest :
  ~ In newline l -> ~ In NUL l ->
  chomp (l ++ newline :: rest) = Ok (l ++ NUL :: rest).
Proof.
  intros Hc Hn. unfold chomp. rewrite (strchr_found l newline rest Hc Hn).
  cbn [mbind]. apply poke_at. reflexivity.
Qed.

(** X9: [chomp] ends the string at its first newline and writes nothing
    else: the bytes before it and everything after it stay as they were,
    and a second [chomp] changes nothing. *)
Theorem chomp_cuts_first_newline l rest :
  ~ In newline l -> ~ In NUL l ->
  chomp (l ++ newline :: rest) = Ok (l ++ NUL :: rest) /\
  c_str (l ++ NUL :: rest) = l /\
  chomp (l ++ NUL :: rest) = Ok (l ++ NUL :: rest).
Proof.
  intros Hc Hn. split; [|split].
  - apply chomp_cut; assumption.
  - apply c_str_app. exact Hn.
  - apply chomp_keeps; assumption.
Qed.

Lemma chomp_cuts_first_newline_witness :
  chomp (lit "finit" ++ newline :: lit "box" ++ [NUL])
  = Ok (lit "finit" ++ NUL :: lit "box" ++ [NUL]) /\
  c_str (lit "finit" ++ NUL :: lit "box" ++ [NUL]) = lit "finit".
Proof.
  assert (Hc : ~ In newline (lit "finit")) by (cbn; intuition discriminate).
  assert (Hn : ~ In NUL (lit "finit")) by (cbn; intuition discriminate).
  destruct (chomp_cuts_first_newline (lit "finit") (lit "box" ++ [NUL]) Hc Hn)
    as (A & B & _).
  split; [exact A | exact B].
Defined.

Lemma c_str_subset x l : In x (c_str l) -> In x l.
Proof.
  induction l as [|d l IH]; cbn [c_str]; [tauto|].
  destruct (is_nul d); [intros []|].
  intros [K|K]; [left; exact K | right; exact (IH K)].
Qed.

Lemma c_str_plain l : ~ In NUL (c_str l).
Proof.
  induction l as [|d l IH]; cbn [c_str]; [tauto|].
  destruct (is_nul_cases d) as [(E & _)|(E & P)]; rewrite E; [tauto|].
  intros [K|K]; [|exact (IH K)]. subst d. discriminate E.
Qed.

(** A buffer that holds a NUL is its string, the terminator, and more. *)
Lemma c_str_split l : In NUL l -> exists b, l = c_str l ++ NUL :: b.
Proof.
  induction l as [|d l IH]; intros H; [destruct H|]. cbn [c_str].
  destruct (is_nul_cases d) as [(E & -> & _)|(E & P)]; rewrite E.
  - exists l. reflexivity.
  - destruct H as [K|K]; [subst d; discriminate E|].
    destruct (IH K) as [b B]. exists b. cbn [app]. rewrite <- B. reflexivity.
Qed.

Lemma c_str_app_nul t tl : c_str (t ++ NUL :: tl) = c_str t.
Proof.
  induction t as [|d t IH]; cbn [app c_str]; [reflexivity|].
  rewrite IH. reflexivity.
Qed.

(** What [fgets] stores holds at most one newline, its last byte. *)
Lemma fgets_take_shape n : forall content,
  ~ In newline (fgets_take n content) \/
  exists l, fgets_take n content = l ++ [newline] /\ ~ In newline l.
Proof.
  induction n as [|n IH]; intros [|c content]; cbn [fgets_take];
    try (left; tauto).
  destruct (eqb_cases c newline) as [[E ->]|[E D]]; rewrite E.
  - right. exists []. split; [reflexivity | tauto].
  - destruct (IH content) as [K|(l & L & K)].
    + left. intros [X|X]; [subst c; rewrite Ascii.eqb_refl in E; discriminate E
                          | exact (K X)].
    + right. exists (c :: l). rewrite L. split; [reflexivity|].
      intros [X|X]; [subst c; rewrite Ascii.eqb_refl in E; discriminate E
                    | exact (K X)].
Qed.

(** X10: [chomp] on what [fgets] stored takes off the newline that
    [fgets] kept and nothing else; the string that is left holds no
    newline, and the length of the buffer is as before. *)
Theorem chomp_after_fgets size content line rest :
  fgets size content = Some line ->
  exists buf',
    chomp (line ++ NUL :: rest) = Ok buf' /\
    List.length buf' = List.length (line ++ NUL :: rest) /\
    ~ In newline (c_str buf') /\
    (c_str (line ++ NUL :: rest) = c_str buf' \/
     c_str (line ++ NUL :: rest) = c_str buf' ++ [newline]).
Proof.
  intros F.
  assert (S : ~ In newline line \/
              exists l, line = l ++ [newline] /\ ~ In newline l).
  { unfold fgets in F. destruct content as [|c content]; [discriminate F|].
    injection F as <-. apply fgets_take_shape. }
  assert (Keep : forall t tl, ~ In newline (c_str t) ->
            chomp (t ++ NUL :: tl) = Ok (t ++ NUL :: tl)).
  { intros t tl K.
    destruct (c_str_split (t ++ NUL :: tl)) as [b B];
      [apply in_or_app; right; left; reflexivity|].
    rewrite c_str_app_nul in B. rewrite B.
    apply chomp_keeps; [exact K | apply c_str_plain]. }
  rewrite c_str_app_nul.
  destruct S as [K|(l & -> & K)].
  - exists (line ++ NUL :: rest).
    assert (Q : ~ In newline (c_str line))
      by (intros X; apply K; exact (c_str_subset _ _ X)).
    split; [apply Keep; exact Q|]. split; [reflexivity|].
    rewrite c_str_app_nul. split; [exact Q | left; reflexivity].
  - destruct (in_dec ascii_dec NUL l) as [N|N].
    + exists ((l ++ [newline]) ++ NUL :: rest).
      destruct (c_str_split l N) as [b B].
      assert (E : c_str (l ++ [newline]) = c_str l).
      { rewrite B at 1. rewrite <- app_assoc. cbn [app].
        apply c_str_app. apply c_str_plain. }
      assert (Q : ~ In newline (c_str (l ++ [newline]))).
      { rewrite E. intros X. apply K. exact (c_str_subset _ _ X). }
      split; [apply Keep; exact Q|]. split; [reflexivity|].
      rewrite c_str_app_nul. split; [exact Q | left; reflexivity].
    + exists (l ++ NUL :: NUL :: rest).
      rewrite (c_str_app l (NUL :: rest) N).
      split; [|split; [|split; [exact K|right]]].
      * rewrite <- app_assoc. cbn [app]. apply chomp_cut; assumption.
      * rewrite !length_app. cbn [List.length]. lia.
      * apply c_str_id. apply not_in_app; [exact N|].
        intros [X|[]]. discriminate X.
Qed.


Lemma chomp_after_fgets_witness :
  exists buf',
    chomp ((lit "1234" ++ [newline]) ++ NUL :: lit "old") = Ok buf' /\
    List.length buf' = 9 /\
    ~ In newline (c_str buf').
Proof.
  destruct (chomp_after_fgets 16 (lit "1234" ++ newline :: lit "5678")
              (lit "1234" ++ [newline]) (lit "old") eq_refl)
    as (buf' & C & L & N & _).
  exists buf'. split; [exact C|]. split; [exact L | exact N].
Defined.

End LineFacts.

(* ================================================================== *)
(** ** [makepath] *)
(* ================================================================== *)

Module MakePathFacts.
Import CStr Tokenizer Sys MakePath CStrFacts TokenizerFacts.
Local Open Scope list_scope.

Lemma cuts_last_long r : forall pre c,
  List.length pre < List.length (last (cuts pre c r) []).
Proof.
  induction r as [|d r IH]; intros pre c; cbn [cuts].
  - cbn [last]. rewrite length_app. cbn [List.length]. lia.
  - destruct (Ascii.eqb d slash).
    + destruct r as [|e r].
      * cbn [last]. rewrite length_app. cbn [List.length]. lia.
      * specialize (IH (pre ++ [c]) d). rewrite length_app in IH.
        cbn [List.length] in IH.
        destruct (cuts (pre ++ [c]) d (e :: r)) as [|q qs] eqn:E.
        -- cbn [last List.length] in IH. lia.
        -- cbn [last]. cbn [last] in IH. lia.
    + specialize (IH (pre ++ [c]) d). rewrite length_app in IH.
      cbn [List.length] in IH. lia.
Qed.

Lemma cuts_nonempty pre c r : cuts pre c r <> [].
Proof.
  pose proof (cuts_last_long r pre c) as H. intros E. rewrite E in H.
  cbn [last List.length] in H. lia.
Qed.

Lemma last_cons_cuts q pre c r :
  last (q :: cuts pre c r) [] = last (cuts pre c r) [].
Proof.
  destruct (cuts pre c r) eqn:E; [destruct (cuts_nonempty pre c r E)|].
  reflexivity.
Qed.

Lemma slash_cases d :
  (Ascii.eqb d slash = true /\ d = slash) \/ Ascii.eqb d slash = false.
Proof.
  destruct (eqb_cases d slash) as [[E K]|[E _]]; [left; split; assumption|].
  right. exact E.
Qed.

Lemma copy_component_shorter PATH_MAX : forall path buf path1 buf1,
  copy_component PATH_MAX path buf = Ok (path1, buf1) ->
  List.length path1 < List.length path.
Proof.
  induction path as [|c path IH]; intros buf path1 buf1 H;
    cbn [copy_component] in H; [discriminate H|].
  destruct (PATH_MAX <=? List.length buf); [discriminate H|].
  destruct path as [|d path]; [discriminate H|].
  destruct (negb (is_nul d) && negb (Ascii.eqb d slash)).
  - apply IH in H. cbn [List.length] in *. lia.
  - injection H as <- _. cbn [List.length]. lia.
Qed.

(** The passes of the outer loop are never used up. *)
Lemma make_loop_enough PATH_MAX mkdir : forall fuel path buf,
  List.length path < fuel ->
  make_loop PATH_MAX mkdir fuel path buf <> Ok None.
Proof.
  induction fuel as [|fuel IH]; intros path buf Hf; [lia|].
  cbn [make_loop].
  destruct (copy_component PATH_MAX path buf) as [[path1 buf1]|] eqn:C;
    cbn [mbind]; [|discriminate].
  apply copy_component_shorter in C.
  destruct (PATH_MAX <=? List.length buf1); [discriminate|].
  destruct (goes_on path1) as [[|]|]; cbn [mbind]; try discriminate.
  specialize (IH path1 buf1 ltac:(lia)).
  destruct (make_loop PATH_MAX mkdir fuel path1 buf1) as [[rc|]|];
    cbn [mbind option_map]; [discriminate | congruence | discriminate].
Qed.

(** The two loops on a terminated path, [pre] copied so far: the
    directories are the cuts, the value is that of the last [mkdir], and
    the call faults exactly when the last cut does not fit [buf]. *)
Lemma make_loop_spec PATH_MAX mkdir tail : forall r c pre fuel,
  ~ In NUL pre -> ~ In NUL (c :: r) -> List.length r < fuel ->
  make_loop PATH_MAX mkdir fuel (c :: r ++ NUL :: tail) pre
  = if List.length (last (cuts pre c r) []) <? PATH_MAX
    then Ok (Some (mkdir (last (cuts pre c r) []), cuts pre c r))
    else Fault.
Proof.
  induction r as [|d r IH]; intros c pre fuel Hp Hn Hf;
    (destruct fuel as [|fuel]; [cbn [List.length] in Hf; lia|]);
    destruct (not_in_nul c _ Hn) as [Hc Hr];
    assert (Hpc : ~ In NUL (pre ++ [c]))
      by (apply not_in_app; [exact Hp|];
          intros [X|[]]; subst c; discriminate Hc).
  - cbn [make_loop copy_component app cuts last].
    rewrite length_app. cbn [List.length].
    destruct (PATH_MAX <=? List.length pre) eqn:E1.
    + apply Nat.leb_le in E1.
      destruct (Nat.ltb_spec (List.length pre + 1) PATH_MAX); [lia|].
      reflexivity.
    + apply Nat.leb_gt in E1.
      change (is_nul NUL) with true. cbn [negb andb mbind].
      rewrite length_app. cbn [List.length].
      destruct (Nat.ltb_spec (List.length pre + 1) PATH_MAX) as [L|L].
      * destruct (Nat.leb_spec PATH_MAX (List.length pre + 1)); [lia|].
        cbn [goes_on]. change (is_nul NUL) with true. cbn [mbind].
        rewrite (c_str_app (pre ++ [c]) [] Hpc). reflexivity.
      * destruct (Nat.leb_spec PATH_MAX (List.length pre + 1)); [|lia].
        reflexivity.
  - destruct (not_in_nul d _ Hr) as [Hd Hr'].
    cbn [List.length] in Hf.
    pose proof (cuts_last_long (d :: r) pre c) as Long.
    cbn [make_loop copy_component app]. rewrite Hd. cbn [negb andb].
    destruct (PATH_MAX <=? List.length pre) eqn:E1.
    { apply Nat.leb_le in E1. cbn [mbind].
      destruct (Nat.ltb_spec (List.length (last (cuts pre c (d :: r)) []))
                  PATH_MAX); [lia|reflexivity]. }
    apply Nat.leb_gt in E1.
    destruct (slash_cases d) as [[E ->]|E]; rewrite E; cbn [negb].
    + cbn [mbind]. rewrite length_app. cbn [List.length].
      cbn [cuts] in *. rewrite Ascii.eqb_refl in *.
      rewrite (c_str_app (pre ++ [c]) [] Hpc).
      destruct r as [|e r].
      * cbn [last] in *. rewrite length_app in *. cbn [List.length] in *.
        destruct (Nat.ltb_spec (List.length pre + 1) PATH_MAX) as [L|L].
        -- destruct (Nat.leb_spec PATH_MAX (List.length pre + 1)); [lia|].
           cbn [goes_on app]. change (is_nul slash) with false.
           rewrite Ascii.eqb_refl. change (is_nul NUL) with true.
           cbn [negb mbind]. reflexivity.
        -- destruct (Nat.leb_spec PATH_MAX (List.length pre + 1)); [|lia].
           reflexivity.
      * rewrite last_cons_cuts in *.
        pose proof (cuts_last_long (e :: r) (pre ++ [c]) slash) as Long2.
        rewrite length_app in Long2. cbn [List.length] in Long2.
        destruct (Nat.leb_spec PATH_MAX (List.length pre + 1)) as [L|L].
        -- destruct (Nat.ltb_spec
                       (List.length (last (cuts (pre ++ [c]) slash (e :: r)) []))
                       PATH_MAX); [lia|reflexivity].
        -- destruct (not_in_nul e _ Hr') as [He _].
           cbn [goes_on app]. change (is_nul slash) with false.
           rewrite Ascii.eqb_refl. rewrite He. cbn [negb mbind].
           change (slash :: e :: r ++ NUL :: tail)
             with (slash :: (e :: r) ++ NUL :: tail).
           rewrite (IH slash (pre ++ [c]) fuel Hpc Hr ltac:(lia)).
           destruct (List.length (last (cuts (pre ++ [c]) slash (e :: r)) [])
                     <? PATH_MAX); reflexivity.
    + cbn [cuts]. rewrite E.
      rewrite <- (IH d (pre ++ [c]) (S fuel) Hpc Hr ltac:(lia)).
      cbn [make_loop]. reflexivity.
Qed.

Lemma last_cons2 (x y : char) l d : last (x :: y :: l) d = last (y :: l) d.
Proof. reflexivity. Qed.

(** What the cuts are: the path up to a slash behind [c], or all of it
    when it does not end in a slash behind [c]. *)
Lemma cuts_in r : forall pre c q,
  In q (cuts pre c r) <->
  exists q' t, q = pre ++ c :: q' /\ r = q' ++ t /\
    ((exists t', t = slash :: t') \/
     (t = [] /\ (r = [] \/ last r NUL <> slash))).
Proof.
  induction r as [|d r IH]; intros pre c q; cbn [cuts].
  - split.
    + intros [<-|[]]. exists [], []. repeat split. right. split; [|left];
        reflexivity.
    + intros (q' & t & -> & E & _). symmetry in E.
      apply app_eq_nil in E. destruct E as [-> _]. left. reflexivity.
  - destruct (slash_cases d) as [[E ->]|E]; rewrite E.
    + destruct r as [|e r].
      * split.
        -- intros [<-|[]]. exists [], [slash]. repeat split. left.
           exists []. reflexivity.
        -- intros (q' & t & -> & R & C). destruct q' as [|x q'].
           ++ left. reflexivity.
           ++ injection R as _ R. symmetry in R. apply app_eq_nil in R.
              destruct R as [-> ->].
              destruct C as [(t' & K)|(_ & [K|K])];
                [discriminate K | discriminate K |].
              exfalso. apply K. reflexivity.
      * split.
        -- intros [<-|K].
           ++ exists [], (slash :: e :: r). repeat split. left.
              eexists. reflexivity.
           ++ apply IH in K. destruct K as (q' & t & -> & R & C).
              exists (slash :: q'), t. rewrite <- app_assoc. cbn [app].
              split; [reflexivity|]. split; [rewrite R; reflexivity|].
              destruct C as [C|(-> & C)]; [left; exact C|].
              right. split; [reflexivity|]. right.
              rewrite last_cons2.
              destruct C as [C|C]; [discriminate C | exact C].
        -- intros (q' & t & -> & R & C). destruct q' as [|x q'].
           ++ left. reflexivity.
           ++ right. injection R as <- R. apply IH.
              exists q', t. rewrite <- app_assoc. cbn [app].
              split; [reflexivity|]. split; [exact R|].
              destruct C as [C|(-> & C)]; [left; exact C|].
              right. split; [reflexivity|]. right.
              destruct C as [C|C]; [discriminate C|].
              rewrite last_cons2 in C. exact C.
    + split.
      * intros K. apply IH in K. destruct K as (q' & t & -> & R & C).
        exists (d :: q'), t. rewrite <- app_assoc. cbn [app].
        split; [reflexivity|]. split; [rewrite R; reflexivity|].
        destruct C as [C|(-> & C)]; [left; exact C|].
        right. split; [reflexivity|]. right.
        destruct r as [|e r].
        -- cbn [last]. intros ->. rewrite Ascii.eqb_refl in E.
           discriminate E.
        -- rewrite last_cons2.
           destruct C as [C|C]; [discriminate C | exact C].
      * intros (q' & t & -> & R & C). destruct q' as [|x q'].
        -- cbn [app] in R. subst t. exfalso.
           destruct C as [(t' & K)|(K & _)]; [|discriminate K].
           injection K as -> _. rewrite Ascii.eqb_refl in E. discriminate E.
        -- injection R as <- R. apply IH.
           exists q', t. rewrite <- app_assoc. cbn [app].
           split; [reflexivity|]. split; [exact R|].
           destruct C as [C|(-> & C)]; [left; exact C|].
           right. split; [reflexivity|].
           destruct r as [|e r]; [left; reflexivity|]. right.
           destruct C as [C|C]; [discriminate C|].
           rewrite last_cons2 in C. exact C.
Qed.

Lemma cuts_sorted r : forall pre c,
  StronglySorted shorter (cuts pre c r) /\
  Forall (fun q => List.length pre < List.length q) (cuts pre c r).
Proof.
  assert (One : forall pre c,
    StronglySorted shorter [pre ++ [c]] /\
    Forall (fun q => List.length pre < List.length q) [pre ++ [c]]).
  { intros pre c. split.
    - constructor; constructor.
    - constructor; [|constructor]. rewrite length_app. cbn [List.length].
      lia. }
  assert (Up : forall (pre : list char) (c : char) (l : list (list char)),
    Forall (fun q => List.length (pre ++ [c]) < List.length q) l ->
    Forall (fun q => List.length pre < List.length q) l).
  { intros pre c l. apply Forall_impl. intros q. rewrite length_app.
    cbn [List.length]. lia. }
  induction r as [|d r IH]; intros pre c; cbn [cuts]; [apply One|].
  destruct (Ascii.eqb d slash).
  - destruct r as [|e r]; [apply One|].
    destruct (IH (pre ++ [c]) d) as [S F]. split.
    + constructor; [exact S | exact F].
    + constructor; [rewrite length_app; cbn [List.length]; lia|].
      exact (Up pre c _ F).
  - destruct (IH (pre ++ [c]) d) as [S F]. split; [exact S|].
    exact (Up pre c _ F).
Qed.

Lemma cuts_are_cuts c r q : In q (cuts [] c r) <-> cut_of (c :: r) q.
Proof.
  rewrite cuts_in. unfold cut_of. cbn [app]. split.
  - intros (q' & t & -> & -> & C). split; [discriminate|].
    exists t. split; [reflexivity|].
    destruct C as [C|(-> & C)]; [left; exact C|].
    right. split; [reflexivity|]. rewrite app_nil_r in *.
    destruct q' as [|x q']; [left; reflexivity|]. right.
    rewrite last_cons2. destruct C as [C|C]; [discriminate C | exact C].
  - intros (N & t & S & C). destruct q as [|x q']; [destruct (N eq_refl)|].
    injection S as <- ->. exists q', t. split; [reflexivity|].
    split; [reflexivity|].
    destruct C as [C|(-> & C)]; [left; exact C|].
    right. split; [reflexivity|]. rewrite app_nil_r.
    destruct q' as [|y q']; [left; reflexivity|]. right.
    destruct C as [C|C]; [cbn [List.length] in C; lia|].
    rewrite last_cons2 in C. exact C.
Qed.

(** X11: on a path of at least one byte that fits [buf], [makepath]
    returns; it asks [mkdir] for the path cut before each of its slashes
    but the first byte, and for the whole path unless that ends in a
    slash, shortest first and nothing else; its value is that of the last
    [mkdir] alone. *)
Theorem makepath_makes_every_prefix PATH_MAX mkdir c r tail :
  ~ In NUL (c :: r) -> List.length (c :: r) < PATH_MAX ->
  exists dirs,
    makepath PATH_MAX mkdir (Some (c :: r ++ NUL :: tail))
    = Ok (Some {| m_ret := mkdir (last dirs []); m_errno := None;
                  m_dirs := dirs |}) /\
    (forall q, In q dirs <-> cut_of (c :: r) q) /\
    StronglySorted shorter dirs.
Proof.
  intros Hn Hl. exists (cuts [] c r). split; [|split].
  - unfold makepath.
    rewrite (make_loop_spec PATH_MAX mkdir tail r c [] _
               (fun K => K) Hn)
      by (cbn [List.length]; rewrite length_app; cbn [List.length]; lia).
    assert (B : List.length (last (cuts [] c r) []) <= List.length (c :: r)).
    { assert (I : In (last (cuts [] c r) []) (cuts [] c r)).
      { destruct (exists_last (cuts_nonempty [] c r)) as (l & a & E).
        rewrite E, last_last. apply in_or_app. right. left. reflexivity. }
      apply cuts_are_cuts in I. destruct I as (_ & t & S & _).
      rewrite S. rewrite length_app. lia. }
    destruct (Nat.ltb_spec (List.length (last (cuts [] c r) [])) PATH_MAX);
      [reflexivity|lia].
  - intros q. apply cuts_are_cuts.
  - apply (cuts_sorted r [] c).
Qed.

Lemma makepath_makes_every_prefix_witness :
  exists dirs,
    makepath 4096 mkdir_usr (Some (usr_local ++ [NUL]))
    = Ok (Some {| m_ret := mkdir_usr (last dirs []); m_errno := None;
                  m_dirs := dirs |}) /\
    (forall q, In q dirs <-> cut_of usr_local q) /\
    StronglySorted shorter dirs.
Proof.
  apply (makepath_makes_every_prefix 4096 mkdir_usr slash
           (lit "usr/local/") []).
  - cbn. intuition discriminate.
  - apply Nat.ltb_lt. reflexivity.
Defined.

Lemma last_cons2_any (A : Type) (x y : A) l d :
  last (x :: y :: l) d = last (y :: l) d.
Proof. reflexivity. Qed.

Lemma sorted_last_longest l :
  StronglySorted shorter l ->
  forall q, In q l -> List.length q <= List.length (last l []).
Proof.
  induction 1 as [|a l S IH F]; intros q I; [destruct I|].
  destruct l as [|b l].
  - destruct I as [<-|[]]. cbn [last]. lia.
  - rewrite last_cons2_any. destruct I as [<-|I]; [|exact (IH q I)].
    assert (K : shorter a (last (b :: l) [])).
    { rewrite Forall_forall in F. apply F.
      destruct (exists_last (l := b :: l) ltac:(discriminate))
        as (l' & z & E).
      rewrite E, last_last. apply in_or_app. right. left. reflexivity. }
    unfold shorter in K. lia.
Qed.

(** X12: nothing in [makepath] compares the length of the path with the
    size of [buf]: on a path of [PATH_MAX] bytes or more that does not end
    in a slash the copy runs over the end of [buf]. *)
Theorem makepath_overruns_buf PATH_MAX mkdir c r tail :
  ~ In NUL (c :: r) -> PATH_MAX <= List.length (c :: r) ->
  last (c :: r) NUL <> slash ->
  makepath PATH_MAX mkdir (Some (c :: r ++ NUL :: tail)) = Fault.
Proof.
  intros Hn Hl Hs. unfold makepath.
  rewrite (make_loop_spec PATH_MAX mkdir tail r c [] _ (fun K => K) Hn)
    by (cbn [List.length]; rewrite length_app; cbn [List.length]; lia).
  assert (I : In (c :: r) (cuts [] c r)).
  { apply cuts_are_cuts. split; [discriminate|]. exists [].
    split; [rewrite app_nil_r; reflexivity|]. right.
    split; [reflexivity|]. right. exact Hs. }
  pose proof (sorted_last_longest _ (proj1 (cuts_sorted r [] c)) _ I) as B.
  destruct (Nat.ltb_spec (List.length (last (cuts [] c r) [])) PATH_MAX);
    [lia|reflexivity].
Qed.

Lemma makepath_overruns_buf_witness :
  makepath 8 mkdir_usr (Some (lit "/usr/local" ++ [NUL])) = Fault.
Proof.
  apply (makepath_overruns_buf 8 mkdir_usr slash (lit "usr/local") []).
  - cbn. intuition discriminate.
  - apply Nat.leb_le. reflexivity.
  - discriminate.
Defined.

End MakePathFacts.

(* ================================================================== *)
(** ** [pidfile_poll] *)
(* ================================================================== *)

Module PollFacts.
Import CStr Sys Runner PidFile Poll RunnerFacts.
Local Open Scope string_scope.
Local Open Scope list_scope.

Lemma fexist_found s : fexist true s = Cont true s.
Proof. reflexivity. Qed.

Lemma fexist_missed s : fexist false s = Cont false (missed s).
Proof. reflexivity. Qed.

Lemma wait_loop_found ex : forall k fuel probe tries slept s,
  k < fuel -> tries + k <= 100 ->
  (forall j, j < k -> ex (probe + j) = false) ->
  ex (probe + k) = true ->
  wait_loop fuel ex probe tries slept s
  = Cont (Some (S (probe + k), tries + k, slept + k))
      (if Nat.eqb k 0 then s else missed s).
Proof.
  induction k as [|k IH]; intros fuel probe tries slept s Hf Ht Hn Hy;
    (destruct fuel as [|fuel]; [lia|]); cbn [wait_loop]; unfold bind.
  - rewrite Nat.add_0_r in Hy. rewrite Hy, fexist_found. cbn [negb].
    rewrite !Nat.add_0_r. reflexivity.
  - rewrite <- (Nat.add_0_r probe) at 1. rewrite (Hn 0) by lia.
    rewrite fexist_missed. cbn [negb].
    destruct (Nat.ltb_spec tries 100); [|lia].
    rewrite (IH fuel (S probe) (S tries) (S slept)); try lia.
    + cbn [Nat.add Nat.eqb]. rewrite !Nat.add_succ_r.
      destruct (Nat.eqb k 0); reflexivity.
    + intros j Hj. replace (S probe + j) with (probe + S j) by lia.
      apply Hn. lia.
    + replace (S probe + k) with (probe + S k) by lia. exact Hy.
Qed.

Lemma wait_loop_timeout ex : forall n fuel probe tries slept s,
  n < fuel -> tries + n = 100 ->
  (forall j, j <= n -> ex (probe + j) = false) ->
  wait_loop fuel ex probe tries slept s
  = Cont (Some (S (probe + n), S (tries + n), slept + n)) (missed s).
Proof.
  induction n as [|n IH]; intros fuel probe tries slept s Hf Ht Hn;
    (destruct fuel as [|fuel]; [lia|]); cbn [wait_loop]; unfold bind;
    rewrite <- (Nat.add_0_r probe) at 1; rewrite (Hn 0) by lia;
    rewrite fexist_missed; cbn [negb].
  - destruct (Nat.ltb_spec tries 100); [lia|].
    rewrite !Nat.add_0_r. reflexivity.
  - destruct (Nat.ltb_spec tries 100); [|lia].
    rewrite (IH fuel (S probe) (S tries) (S slept)); try lia.
    + cbn [Nat.add]. rewrite !Nat.add_succ_r. reflexivity.
    + intros j Hj. replace (S probe + j) with (probe + S j) by lia.
      apply Hn. lia.
Qed.

(** The loop ends within 101 passes, having slept 100 times at most, and
    adds no call to the trace. *)
Lemma wait_loop_enough ex : forall fuel probe tries slept s,
  100 - tries < fuel ->
  exists p t n s',
    wait_loop fuel ex probe tries slept s = Cont (Some (p, t, n)) s' /\
    n + tries <= slept + Nat.max tries 100.
Proof.
  induction fuel as [|fuel IH]; intros probe tries slept s Hf; [lia|].
  cbn [wait_loop]. unfold bind. destruct (ex probe).
  - rewrite fexist_found. cbn [negb].
    do 4 eexists. split; [reflexivity|]. lia.
  - rewrite fexist_missed. cbn [negb].
    destruct (Nat.ltb_spec tries 100).
    + destruct (IH (S probe) (S tries) (S slept) (missed s))
        as (p & t & n & s' & E & B); [lia|].
      exists p, t, n, s'. split; [exact E|]. lia.
    + do 4 eexists. split; [reflexivity|]. lia.
Qed.

Lemma pidfile_read_cont e pidfile s :
  exists v s', pidfile_read e pidfile s = Cont v s'.
Proof.
  unfold pidfile_read. destruct pidfile as [path|]; [|step; eauto].
  unfold fexist. destruct (f_exists e); step; cbn [negb]; [|eauto].
  destruct (f_content e) as [content|]; [|step; eauto].
  step. destruct (fgets 16 content) as [buf|]; [|step; eauto].
  unfold parse_pid. destruct (strtoul0 buf) as [v err]. step.
  destruct (negb (err =? 0)%Z); step; eauto.
Qed.

(** X13: when the file is not there at any look, [pidfile_poll] gives up
    after exactly 100 calls of [usleep] and returns 0, with [errno] left
    at the [ENOENT] of the last look; it never opens the file. *)
Theorem pidfile_poll_times_out e cmd path s :
  (forall k, k <= 101 -> pl_exists e k = false) ->
  pidfile_poll e cmd path s
  = Cont (0%Z, 100)
      {| p_trace := p_trace s ++ [Log "Timeout! No PID found"];
         p_errno := ENOENT; p_cwd := p_cwd s |}.
Proof.
  intros H. unfold pidfile_poll. unfold bind at 1.
  rewrite (wait_loop_timeout (pl_exists e) 100 101 0 0 0)
    by (try lia; intros j Hj; apply H; lia).
  cbn [Nat.add]. unfold bind at 1. rewrite (H 101) by lia.
  rewrite fexist_missed. cbn [negb]. step. reflexivity.
Qed.

Lemma pidfile_poll_times_out_witness :
  pidfile_poll poll_env_never "syslogd" "/var/run/syslogd.pid" (start "/")
  = Cont (0%Z, 100)
      {| p_trace := [Log "Timeout! No PID found"]; p_errno := ENOENT;
         p_cwd := "/" |}.
Proof.
  exact (pidfile_poll_times_out poll_env_never "syslogd"
           "/var/run/syslogd.pid" (start "/") (fun _ _ => eq_refl)).
Defined.

(** X14: when the file is first there at look [k], 100 at most, and
    still there at the next, [pidfile_poll] has slept [k] times and
    returns what [pidfile_read] returns; the looks that did not find the
    file have left [errno] at [ENOENT] by then. *)
Theorem pidfile_poll_reads_when_found e cmd path s k :
  k <= 100 ->
  (forall j, j < k -> pl_exists e j = false) ->
  pl_exists e k = true -> pl_exists e (S k) = true ->
  pidfile_poll e cmd path s
  = match pidfile_read (pl_read e) (Some path)
            (if Nat.eqb k 0 then s else missed s) with
    | Cont pid s' => Cont (pid, k) s'
    | Crash s' => Crash s'
    end.
Proof.
  intros Hk Hn Hy Hz. unfold pidfile_poll. unfold bind at 1.
  rewrite (wait_loop_found (pl_exists e) k 101 0 0 0)
    by (try lia; assumption).
  cbn [Nat.add]. unfold bind at 1. rewrite Hz, fexist_found.
  cbn [negb]. unfold bind, ret.
  destruct (pidfile_read (pl_read e) (Some path)
              (if Nat.eqb k 0 then s else missed s)); reflexivity.
Qed.

Lemma pidfile_poll_reads_when_found_witness :
  returned (pidfile_poll poll_env_late "syslogd" "/var/run/syslogd.pid"
              (start "/")) = Some (4711%Z, 3).
Proof.
  rewrite (pidfile_poll_reads_when_found poll_env_late "syslogd"
             "/var/run/syslogd.pid" (start "/") 3).
  - reflexivity.
  - apply Nat.leb_le. reflexivity.
  - intros [|[|[|j]]] Hj; try reflexivity. lia.
  - reflexivity.
  - reflexivity.
Defined.

(** X15: whatever the file system answers, [pidfile_poll] returns, and
    it has called [usleep] 100 times at most: five seconds. *)
Theorem pidfile_poll_is_bounded e cmd path s :
  exists pid n s',
    pidfile_poll e cmd path s = Cont (pid, n) s' /\ n <= 100.
Proof.
  unfold pidfile_poll. unfold bind at 1.
  destruct (wait_loop_enough (pl_exists e) 101 0 0 0 s)
    as (p & t & n & s1 & E & B); [lia|].
  rewrite E. unfold bind at 1. destruct (pl_exists e p).
  - rewrite fexist_found. cbn [negb].
    destruct (pidfile_read_cont (pl_read e) (Some path) s1)
      as (v & s' & R).
    unfold bind, ret. rewrite R. exists v, n, s'. split; [reflexivity|lia].
  - rewrite fexist_missed. cbn [negb]. step.
    do 3 eexists. split; [reflexivity|lia].
Qed.

End PollFacts.

(* ================================================================== *)
(** ** Printed numbers, read back *)
(* ================================================================== *)

Module PrintfFacts.
Import CStr Printf CStrFacts.
Local Open Scope list_scope.
Local Open Scope Z_scope.

Lemma digit_cases d : 0 <= d <= 9 ->
  d = 0 \/ d = 1 \/ d = 2 \/ d = 3 \/ d = 4 \/ d = 5 \/ d = 6 \/ d = 7 \/
  d = 8 \/ d = 9.
Proof. lia. Qed.

Ltac each_digit d H :=
  destruct (digit_cases d H) as [->|[->|[->|[->|[->|[->|[->|[->|[->| ->]]]]]]]]].

Lemma digit_val_char d : 0 <= d <= 9 -> digit_val (digit_char d) = Some d.
Proof. intros H. each_digit d H; reflexivity. Qed.

Lemma digit_char_plain d : 0 <= d <= 9 ->
  isspace (digit_char d) = false /\
  Ascii.eqb (digit_char d) "-" = false /\
  Ascii.eqb (digit_char d) "+" = false /\
  is_nul (digit_char d) = false /\
  Ascii.eqb (digit_char d) newline = false /\
  (1 <= d -> Ascii.eqb (digit_char d) "0" = false).
Proof.
  intros H. each_digit d H; repeat split; try reflexivity; intros K; lia.
Qed.

(** The digits printed for [n], read by [digits] in base 10, add [n] to
    what was read before. *)
Lemma udecimal_spec : forall fuel n acc,
  0 <= n < 10 ^ Z.of_nat fuel -> (0 < fuel)%nat ->
  exists d l,
    udecimal fuel n acc = digit_char d :: l ++ acc /\
    0 <= d <= 9 /\ (1 <= n -> 1 <= d) /\
    (List.length l < fuel)%nat /\
    ~ In NUL l /\
    forall rest a any,
      0 <= a ->
      digits 10 (digit_char d :: l ++ rest) a any
      = digits 10 rest (a * 10 ^ Z.of_nat (S (List.length l)) + n) true.
Proof.
  induction fuel as [|fuel IH]; intros n acc Hn Hf; [lia|].
  cbn [udecimal].
  assert (Hm : 0 <= n mod 10 <= 9)
    by (pose proof (Z.mod_pos_bound n 10 ltac:(lia)); lia).
  destruct (Z.ltb_spec n 10) as [L|L].
  - exists n, []. rewrite Z.mod_small by lia. cbn [app List.length].
    repeat split; try lia; [tauto|].
    intros rest a any Ha. cbn [digits]. rewrite digit_val_char by lia.
    destruct (Z.ltb_spec n 10); [|lia].
    change (10 ^ Z.of_nat 1) with 10. reflexivity.
  - assert (Hf' : (0 < fuel)%nat).
    { destruct fuel; [|lia]. change (10 ^ Z.of_nat 1) with 10 in Hn. lia. }
    assert (Hq : 0 <= n / 10 < 10 ^ Z.of_nat fuel).
    { split; [apply Z.div_pos; lia|].
      apply Z.div_lt_upper_bound; [lia|].
      replace (10 * 10 ^ Z.of_nat fuel) with (10 ^ Z.of_nat (S fuel));
        [lia|].
      rewrite Nat2Z.inj_succ, Z.pow_succ_r by lia. reflexivity. }
    destruct (IH (n / 10) (digit_char (n mod 10) :: acc) Hq Hf')
      as (d & l & E & Hd & H1 & Hl & Hz & Dg).
    exists d, (l ++ [digit_char (n mod 10)]).
    rewrite E, <- app_assoc. cbn [app].
    split; [reflexivity|]. split; [exact Hd|].
    split; [intros _; apply H1; apply Z.div_le_lower_bound; lia|].
    split; [rewrite length_app; cbn [List.length]; lia|].
    split.
    { apply not_in_app; [exact Hz|]. intros [K|[]].
      destruct (digit_char_plain (n mod 10) Hm) as (_ & _ & _ & Z0 & _).
      rewrite K in Z0. discriminate Z0. }
    intros rest a any Ha. rewrite <- app_assoc. cbn [app].
    rewrite (Dg _ a any Ha). cbn [digits].
    rewrite digit_val_char by lia.
    destruct (Z.ltb_spec (n mod 10) 10); [|lia].
    f_equal. rewrite length_app. cbn [List.length].
    replace (Z.of_nat (S (List.length l + 1)))
      with (Z.succ (Z.of_nat (S (List.length l)))) by lia.
    rewrite Z.pow_succ_r by lia.
    pose proof (Z.div_mod n 10 ltac:(lia)). lia.
Qed.

Lemma to_int_id n : INT_MIN <= n <= INT_MAX -> to_int n = n.
Proof.
  unfold INT_MIN, INT_MAX, to_int. intros H.
  rewrite Z.mod_small by lia. lia.
Qed.

Lemma udecimal_length n acc :
  0 <= n < 10 ^ 10 ->
  exists d l, udecimal 10 n acc = digit_char d :: l ++ acc /\
              0 <= d <= 9 /\ (List.length l < 10)%nat /\ ~ In NUL l.
Proof.
  intros H.
  destruct (udecimal_spec 10 n acc H ltac:(lia))
    as (d & l & E & Hd & _ & Hl & Hz & _).
  exists d, l. repeat split; try assumption; lia.
Qed.

Lemma decimal_length n :
  INT_MIN <= n <= INT_MAX ->
  (List.length (decimal n) <= 11)%nat /\ ~ In NUL (decimal n).
Proof.
  unfold INT_MIN, INT_MAX, decimal. intros H.
  destruct (Z.ltb_spec n 0).
  - destruct (udecimal_length (- n) []) as (d & l & E & Hd & Hl & Hz);
      [lia|].
    rewrite E, app_nil_r. cbn [List.length]. split; [lia|].
    destruct (digit_char_plain d Hd) as (_ & _ & _ & Z0 & _).
    intros [K|[K|K]]; [discriminate K | | exact (Hz K)].
    rewrite K in Z0. discriminate Z0.
  - destruct (udecimal_length n []) as (d & l & E & Hd & Hl & Hz); [lia|].
    rewrite E, app_nil_r. cbn [List.length]. split; [lia|].
    destruct (digit_char_plain d Hd) as (_ & _ & _ & Z0 & _).
    intros [K|K]; [|exact (Hz K)].
    rewrite K in Z0. discriminate Z0.
Qed.

Lemma skip_space_none c l : isspace c = false -> skip_space (c :: l) = c :: l.
Proof. intros H. cbn [skip_space]. rewrite H. reflexivity. Qed.

Lemma strip_sign_minus l : strip_sign ("-"%char :: l) = (true, l).
Proof. reflexivity. Qed.

Lemma strip_sign_none c l :
  Ascii.eqb c "-" = false -> Ascii.eqb c "+" = false ->
  strip_sign (c :: l) = (false, c :: l).
Proof. intros H1 H2. unfold strip_sign. rewrite H1, H2. reflexivity. Qed.

(** X16: [atoi] reads back what [%d] prints, for every [int]: the
    process [procname_kill] signals for the entry of /proc that is named
    after a pid is that pid. *)
Theorem atoi_reads_decimal n rest :
  INT_MIN <= n <= INT_MAX -> atoi (decimal n ++ NUL :: rest) = n.
Proof.
  intros H. pose proof (to_int_id n H) as T.
  destruct (decimal_length n H) as [_ Hz].
  unfold atoi. rewrite (TokenizerFacts.c_str_app _ rest Hz).
  unfold INT_MIN, INT_MAX, decimal in *.
  destruct (Z.ltb_spec n 0).
  - destruct (udecimal_spec 10 (- n) [] ltac:(lia) ltac:(lia))
      as (d & l & E & Hd & _ & _ & _ & Dg).
    rewrite E. rewrite skip_space_none by reflexivity.
    rewrite strip_sign_minus. cbv beta iota.
    specialize (Dg [] 0 false ltac:(lia)).
    match goal with
    | |- context [digits ?b ?x ?a ?f] => rewrite (Dg : digits b x a f = _)
    end.
    cbn [digits]. rewrite Z.mul_0_l, Z.add_0_l, Z.opp_involutive.
    exact T.
  - destruct (udecimal_spec 10 n [] ltac:(lia) ltac:(lia))
      as (d & l & E & Hd & _ & _ & _ & Dg).
    rewrite E.
    destruct (digit_char_plain d Hd) as (Sp & Mi & Pl & _).
    rewrite (skip_space_none _ _ Sp), (strip_sign_none _ _ Mi Pl).
    cbv beta iota. specialize (Dg [] 0 false ltac:(lia)).
    match goal with
    | |- context [digits ?b ?x ?a ?f] => rewrite (Dg : digits b x a f = _)
    end.
    cbn [digits]. rewrite Z.mul_0_l, Z.add_0_l.
    exact T.
Qed.

Lemma atoi_reads_decimal_witness :
  atoi (decimal (-4711) ++ [NUL]) = (-4711)%Z.
Proof.
  apply (atoi_reads_decimal (-4711) []). unfold INT_MIN, INT_MAX. lia.
Defined.

(** X17: the 24 bytes of [name] hold the path of every [pid_t]:
    [pid_alive] asks for /proc/<pid> itself, never for a shortened
    name. *)
Theorem pid_alive_name_is_whole fexist pid :
  INT_MIN <= pid <= INT_MAX ->
  pid_alive fexist pid = fexist (show (lit "/proc/" ++ decimal pid)).
Proof.
  intros H. destruct (decimal_length pid H) as [L _].
  unfold pid_alive, snprintf. rewrite firstn_all2; [reflexivity|].
  rewrite length_app. change (List.length (lit "/proc/")) with 6%nat.
  cbn [Nat.sub]. lia.
Qed.

Lemma pid_alive_name_is_whole_witness :
  pid_alive (String.eqb "/proc/1") 1 = true.
Proof.
  rewrite (pid_alive_name_is_whole (String.eqb "/proc/1") 1).
  - reflexivity.
  - unfold INT_MIN, INT_MAX. lia.
Defined.

End PrintfFacts.

(* ================================================================== *)
(** ** [pidfile_read]: the conversion *)
(* ================================================================== *)

Module PidReadFacts.
Import CStr Sys Runner PidFile Printf CStrFacts RunnerFacts PrintfFacts.
Local Open Scope list_scope.
Local Open Scope Z_scope.

Lemma digit_val_nonneg c d : digit_val c = Some d -> 0 <= d.
Proof.
  unfold digit_val.
  destruct ((48 <=? nat_of_ascii c)%nat && (nat_of_ascii c <=? 57)%nat) eqn:A.
  - apply andb_prop in A. destruct A as [A _]. apply Nat.leb_le in A.
    intros K. injection K as <-. lia.
  - destruct ((97 <=? nat_of_ascii c)%nat && (nat_of_ascii c <=? 122)%nat)
      eqn:B.
    + apply andb_prop in B. destruct B as [B _]. apply Nat.leb_le in B.
      intros K. injection K as <-. lia.
    + destruct ((65 <=? nat_of_ascii c)%nat && (nat_of_ascii c <=? 90)%nat)
        eqn:C; [|discriminate].
      apply andb_prop in C. destruct C as [C _]. apply Nat.leb_le in C.
      intros K. injection K as <-. lia.
Qed.

(** What [digits] accumulates over a text is below the base to the power
    of its length, for each unit read before. *)
Lemma digits_bound base : 2 <= base ->
  forall l acc any, 0 <= acc ->
  0 <= fst (digits base l acc any)
       < (acc + 1) * base ^ Z.of_nat (List.length l).
Proof.
  intros Hb. induction l as [|c l IH]; intros acc any Ha.
  - cbn [digits fst List.length]. change (base ^ Z.of_nat 0) with 1. lia.
  - assert (P : 1 <= base ^ Z.of_nat (List.length l))
      by (pose proof (Z.pow_pos_nonneg base (Z.of_nat (List.length l))
                        ltac:(lia) ltac:(lia)); lia).
    assert (E : base ^ Z.of_nat (List.length (c :: l))
                = base * base ^ Z.of_nat (List.length l)).
    { cbn [List.length]. rewrite Nat2Z.inj_succ, Z.pow_succ_r by lia.
      reflexivity. }
    rewrite E. cbn [digits].
    destruct (digit_val c) as [d|] eqn:D; [|cbn [fst]; nia].
    pose proof (digit_val_nonneg c d D) as Hd.
    destruct (Z.ltb_spec d base) as [L|L]; [|cbn [fst]; nia].
    specialize (IH (acc * base + d) true ltac:(nia)). nia.
Qed.

Lemma skip_space_length l :
  (List.length (skip_space l) <= List.length l)%nat.
Proof.
  induction l as [|c l IH]; cbn [skip_space List.length]; [lia|].
  destruct (isspace c); cbn [List.length]; lia.
Qed.

Lemma strip_sign_length l :
  (List.length (snd (strip_sign l)) <= List.length l)%nat.
Proof.
  unfold strip_sign. destruct l as [|c r]; [cbn; lia|].
  destruct (Ascii.eqb c "-"); [cbn [snd List.length]; lia|].
  destruct (Ascii.eqb c "+"); cbn [snd List.length]; lia.
Qed.

Lemma pick_base_shape l :
  2 <= fst (pick_base l) <= 16 /\
  (List.length (snd (pick_base l)) <= List.length l)%nat /\
  (fst (pick_base l) = 16 ->
   (List.length (snd (pick_base l)) + 2 <= List.length l)%nat).
Proof.
  unfold pick_base. destruct l as [|z [|x [|h r]]].
  - cbn [fst snd List.length]. repeat split; lia.
  - destruct (Ascii.eqb z "0"); cbn [fst snd List.length]; repeat split; lia.
  - destruct (Ascii.eqb z "0"); cbn [fst snd List.length]; repeat split; lia.
  - destruct (Ascii.eqb z "0"); [|cbn [fst snd List.length]; repeat split; lia].
    destruct ((Ascii.eqb x "x" || Ascii.eqb x "X") && is_hex h);
      cbn [fst snd List.length]; repeat split; lia.
Qed.

Lemma c_str_length l : (List.length (c_str l) <= List.length l)%nat.
Proof.
  induction l as [|c l IH]; cbn [c_str List.length]; [lia|].
  destruct (is_nul c); cbn [List.length]; lia.
Qed.

Lemma fgets_take_length n : forall content,
  (List.length (fgets_take n content) <= n)%nat.
Proof.
  induction n as [|n IH]; intros [|c content]; cbn [fgets_take List.length];
    try lia.
  destruct (Ascii.eqb c newline); cbn [List.length]; [lia|].
  specialize (IH content). lia.
Qed.

(** A text of fifteen characters is too short to overflow [strtoul]. *)
Lemma strtoul0_short buf :
  (List.length buf <= 15)%nat -> snd (strtoul0 buf) = 0.
Proof.
  intros H. unfold strtoul0.
  pose proof (c_str_length buf) as L0.
  pose proof (skip_space_length (c_str buf)) as L1.
  pose proof (strip_sign_length (skip_space (c_str buf))) as L2.
  destruct (strip_sign (skip_space (c_str buf))) as [neg s2].
  cbn [snd] in L2.
  destruct (pick_base_shape s2) as (Hb & L3 & Hx).
  destruct (pick_base s2) as [base s3]. cbn [fst snd] in *.
  pose proof (digits_bound base ltac:(lia) s3 0 false ltac:(lia)) as B.
  destruct (digits base s3 0 false) as [v any]. cbn [fst] in B.
  assert (V : v <= ULONG_MAX).
  { assert (K : base ^ Z.of_nat (List.length s3) <= 16 ^ 15).
    { transitivity (16 ^ Z.of_nat (List.length s3)).
      - apply Z.pow_le_mono_l. lia.
      - apply Z.pow_le_mono_r; lia. }
    unfold ULONG_MAX. change (16 ^ 15) with 1152921504606846976 in K.
    change (2 ^ 64) with 18446744073709551616. lia. }
  destruct (Z.gtb_spec v ULONG_MAX); [lia|]. reflexivity.
Qed.

(** X18: a pidfile that can be opened and is not empty is converted
    without error whatever it holds: the fifteen characters [fgets] can
    store never overflow [strtoul], so the branch that sets the result to
    0 on a failed conversion is never taken, and [errno] is left at 0. *)
Theorem pidfile_read_conversion_cannot_fail e path content s :
  f_exists e = true -> f_content e = Some content -> content <> [] ->
  pidfile_read e (Some path) s
  = Cont (to_int (fst (strtoul0 (fgets_take 15 content))))
      {| p_trace := p_trace s ++ [Fopen path true; Fclose path];
         p_errno := 0; p_cwd := p_cwd s |}.
Proof.
  intros He Hc Hn. unfold pidfile_read, fexist. rewrite He, Hc.
  destruct content as [|c content]; [destruct (Hn eq_refl)|].
  cbn [fgets Nat.sub]. unfold parse_pid.
  pose proof (strtoul0_short (fgets_take 15 (c :: content))
                (fgets_take_length 15 _)) as Z0.
  destruct (strtoul0 (fgets_take 15 (c :: content))) as [v err].
  cbn [snd] in Z0. subst err. cbn [fst]. step. cbn [negb]. step.
  change (negb (0 =? 0)) with false. cbv iota beta. cbn [p_trace p_errno p_cwd].
  rewrite <- app_assoc. reflexivity.
Qed.

Lemma pidfile_read_conversion_cannot_fail_witness :
  pidfile_read (Examples.pidfile_with "99999999999999999999")
    (Some "/run/d.pid"%string) (start "/")
  = Cont (to_int (fst (strtoul0 (lit "999999999999999"))))
      {| p_trace := [Fopen "/run/d.pid" true; Fclose "/run/d.pid"];
         p_errno := 0; p_cwd := "/"%string |}.
Proof.
  apply (pidfile_read_conversion_cannot_fail
           (Examples.pidfile_with "99999999999999999999") "/run/d.pid"
           (lit "99999999999999999999") (start "/") eq_refl eq_refl).
  discriminate.
Defined.

Lemma udecimal_plain c : (forall d, 0 <= d <= 9 -> c <> digit_char d) ->
  forall fuel n acc, In c (udecimal fuel n acc) -> In c acc.
Proof.
  intros Hc. induction fuel as [|fuel IH]; intros n acc I; [exact I|].
  cbn [udecimal] in I.
  assert (Hm : 0 <= n mod 10 <= 9)
    by (pose proof (Z.mod_pos_bound n 10 ltac:(lia)); lia).
  destruct (n <? 10).
  - destruct I as [K|K]; [|exact K]. destruct (Hc _ Hm (eq_sym K)).
  - apply IH in I. destruct I as [K|K]; [|exact K].
    destruct (Hc _ Hm (eq_sym K)).
Qed.

Lemma newline_no_digit d : 0 <= d <= 9 -> newline <> digit_char d.
Proof.
  intros H K. destruct (digit_char_plain d H) as (_ & _ & _ & _ & N & _).
  rewrite <- K in N. discriminate N.
Qed.

Lemma pick_base_decimal c l :
  Ascii.eqb c "0" = false -> pick_base (c :: l) = (10, c :: l).
Proof.
  intros H. unfold pick_base. destruct l as [|x [|h r]]; rewrite H;
    reflexivity.
Qed.

(** X19: a pidfile that holds a pid from 1 to [INT_MAX] as [%d] prints
    it, followed by a newline, is read back as that pid. *)
Theorem pidfile_read_reads_decimal e path n more s :
  1 <= n <= INT_MAX ->
  f_exists e = true -> f_content e = Some (decimal n ++ newline :: more) ->
  returned (pidfile_read e (Some path) s) = Some n.
Proof.
  intros Hn He Hc.
  assert (Hi : INT_MIN <= n <= INT_MAX) by (unfold INT_MIN, INT_MAX in *; lia).
  destruct (decimal_length n Hi) as [Ln Zn].
  assert (Nn : ~ In newline (decimal n)).
  { unfold decimal. destruct (Z.ltb_spec n 0); [lia|]. intros K.
    exact (udecimal_plain newline newline_no_digit 10 n [] K). }
  rewrite (pidfile_read_conversion_cannot_fail e path _ s He Hc)
    by (destruct (decimal n); discriminate).
  cbn [returned]. f_equal.
  rewrite (ProcNameFacts.fgets_take_line (decimal n) more 15 Nn)
    by lia.
  unfold strtoul0.
  rewrite (c_str_id (decimal n ++ [newline]))
    by (apply not_in_app; [exact Zn | intros [K|[]]; discriminate K]).
  unfold INT_MAX, decimal in *. destruct (Z.ltb_spec n 0); [lia|].
  destruct (udecimal_spec 10 n [] ltac:(lia) ltac:(lia))
    as (d & l & E & Hd & H1 & _ & _ & Dg).
  rewrite E, app_nil_r. cbn [app].
  destruct (digit_char_plain d Hd) as (Sp & Mi & Pl & _ & _ & Ze).
  rewrite (skip_space_none _ _ Sp), (strip_sign_none _ _ Mi Pl).
  cbv beta iota. rewrite (pick_base_decimal _ _ (Ze (H1 ltac:(lia)))).
  cbv beta iota. specialize (Dg [newline] 0 false ltac:(lia)).
  match goal with
  | |- context [digits ?b ?x ?a ?f] => rewrite (Dg : digits b x a f = _)
  end.
  cbn [digits]. change (digit_val newline) with (@None Z).
  cbv beta iota. rewrite Z.mul_0_l, Z.add_0_l.
  destruct (Z.gtb_spec n ULONG_MAX) as [G|G];
    [unfold ULONG_MAX in G; lia|].
  cbn [fst]. apply to_int_id. unfold INT_MIN, INT_MAX. lia.
Qed.

Lemma pidfile_read_reads_decimal_witness :
  returned (pidfile_read (Examples.pidfile_with ("4711" ++ Examples.nl))
              (Some "/run/d.pid"%string) (start "/")) = Some 4711.
Proof.
  apply (pidfile_read_reads_decimal
           (Examples.pidfile_with ("4711" ++ Examples.nl)) "/run/d.pid"
           4711 [] (start "/")).
  - unfold INT_MAX. lia.
  - reflexivity.
  - reflexivity.
Defined.

End PidReadFacts.

(* ================================================================== *)
(** ** [copyfile] *)
(* ================================================================== *)

Module CopyFileFacts.
Import CStr Tokenizer Printf CopyFile.
Local Open Scope list_scope.
Local Open Scope Z_scope.

Lemma firstn_add (A : Type) (a b : nat) (l : list A) :
  firstn (a + b) l = firstn a l ++ firstn b (skipn a l).
Proof.
  revert l. induction a as [|a IH]; intros l; [reflexivity|].
  destruct l as [|x l]; [cbn; rewrite firstn_nil; reflexivity|].
  cbn [Nat.add firstn skipn app]. rewrite IH. reflexivity.
Qed.

Lemma skipn_add (A : Type) (a b : nat) (l : list A) :
  skipn (a + b) l = skipn b (skipn a l).
Proof.
  revert l. induction a as [|a IH]; intros l; [reflexivity|].
  destruct l as [|x l]; [cbn; rewrite skipn_nil; reflexivity|].
  cbn [Nat.add skipn]. apply IH.
Qed.

(** A pass with something left to copy: it reads what the source still
    has, up to [size] and to [BUF_SIZE], and writes that. *)
Lemma copy_pass_ok BUF_SIZE st :
  0 < BUF_SIZE -> 0 < st_size st ->
  let csize := Z.min (st_size st) BUF_SIZE in
  let len := Z.to_nat (Z.min csize (Z.of_nat (List.length (st_src st)))) in
  copy_pass BUF_SIZE st
  = Ok ({| st_size := st_size st - csize;
           st_src := skipn len (st_src st);
           st_out := st_out st ++ firstn len (st_src st);
           st_old := skipn len (st_old st) |}, Z.of_nat len).
Proof.
  intros Hb Hs csize len. unfold copy_pass.
  assert (E : (if st_size st >? BUF_SIZE then BUF_SIZE else st_size st)
              = csize).
  { unfold csize. destruct (Z.gtb_spec (st_size st) BUF_SIZE); lia. }
  rewrite E. destruct (Z.ltb_spec csize 0) as [K|K]; [unfold csize in K; lia|].
  fold len.
  destruct (Z.gtb_spec (Z.of_nat len) BUF_SIZE) as [G|G];
    [unfold len, csize in G; lia|].
  destruct (Z.gtb_spec (Z.of_nat len) 0) as [P|P]; [reflexivity|].
  assert (len = 0%nat) as -> by lia.
  cbn [firstn skipn]. rewrite app_nil_r. reflexivity.
Qed.

(** The loop copies the first bytes of the source, as many as [size]
    allows and the source has, over the first bytes of the destination. *)
Lemma copy_loop_spec BUF_SIZE : 0 < BUF_SIZE ->
  forall fuel st,
  0 < st_size st -> (List.length (st_src st) < fuel)%nat ->
  let k := Z.to_nat (Z.min (st_size st) (Z.of_nat (List.length (st_src st)))) in
  exists st',
    copy_loop BUF_SIZE fuel st = Ok (Some st') /\
    st_out st' ++ st_old st'
    = st_out st ++ firstn k (st_src st) ++ skipn k (st_old st).
Proof.
  intros Hb. induction fuel as [|fuel IH]; intros st Hs Hf k; [lia|].
  cbn [copy_loop]. rewrite (copy_pass_ok BUF_SIZE st Hb Hs).
  cbn [mbind st_size].
  set (csize := Z.min (st_size st) BUF_SIZE) in *.
  set (len := Z.to_nat (Z.min csize (Z.of_nat (List.length (st_src st))))) in *.
  destruct (Z.gtb_spec (st_size st - csize) 0) as [G|G]; cbn [andb].
  - destruct (Z.eqb_spec (Z.of_nat len) BUF_SIZE) as [Q|Q].
    + match goal with
      | |- context [copy_loop BUF_SIZE fuel ?s1] =>
          destruct (IH s1) as (st' & L & R)
      end.
      * cbn [st_size]. lia.
      * cbn [st_src]. rewrite length_skipn. unfold len, csize in *. lia.
      * exists st'. split; [exact L|]. rewrite R.
        cbn [st_size st_src st_out st_old]. rewrite length_skipn.
        rewrite <- app_assoc. f_equal.
        replace k with (len + Z.to_nat
                          (Z.min (st_size st - csize)
                             (Z.of_nat (List.length (st_src st) - len))))%nat
          by (unfold k, len, csize in *; lia).
        rewrite firstn_add, skipn_add, <- app_assoc. reflexivity.
    + eexists. split; [reflexivity|]. cbn [st_out st_old].
      assert (len = k) as -> by (unfold k, len, csize in *; lia).
      rewrite <- app_assoc. reflexivity.
  - eexists. split; [reflexivity|]. cbn [st_out st_old].
    assert (len = k) as -> by (unfold k, len, csize in *; lia).
    rewrite <- app_assoc. reflexivity.
Qed.

(** X20: with a size that is not negative, [copyfile] puts the first
    bytes of the source, [size] of them at most and all of them when
    [size] is 0, over the first bytes of the destination; what the
    destination held behind them stays, as the file is not truncated. *)
Theorem copyfile_overwrites_prefix BUF_SIZE e src size :
  0 < BUF_SIZE -> 0 <= size ->
  cf_src e = Some src -> cf_dst_ok e = true ->
  let k := Z.to_nat (Z.min (limit size) (Z.of_nat (List.length src))) in
  copyfile BUF_SIZE e size = Ok (firstn k src ++ skipn k (cf_old e)).
Proof.
  intros Hb Hs Hsrc Hdst k. unfold copyfile. rewrite Hsrc, Hdst.
  cbn [negb]. fold (limit size).
  match goal with
  | |- context [copy_loop BUF_SIZE ?f ?s0] =>
      destruct (copy_loop_spec BUF_SIZE Hb f s0) as (st' & L & R)
  end.
  - cbn [st_size]. unfold limit, INT_MAX.
    destruct (Z.eqb_spec size 0); lia.
  - cbn [st_src]. lia.
  - rewrite L. cbn [mbind]. rewrite R. reflexivity.
Qed.

Lemma copyfile_overwrites_prefix_witness :
  copyfile 4 env_overwrite 0 = Ok (lit "finit56789").
Proof.
  apply (copyfile_overwrites_prefix 4 env_overwrite (lit "finit") 0);
    [lia | lia | reflexivity | reflexivity].
Defined.

End CopyFileFacts.

(* ================================================================== *)
(** ** [print_descr] *)
(* ================================================================== *)

Module ProgressFacts.
Import CStr Sys Runner Resources Progress TokenizerFacts RunnerFacts
  RunPathFacts.
Local Open Scope list_scope.

Lemma size_sub_small a b : (0 <= b <= a)%Z -> (a <= SIZE_MAX)%Z ->
  size_sub a b = (a - b)%Z.
Proof.
  intros H1 H2. unfold size_sub. apply Z.mod_small. unfold SIZE_MAX in *.
  lia.
Qed.

(** X21: when the two texts have 60 characters at most between them,
    what [print_descr] writes behind the escape sequence and the uptime
    is the action, the description and dots up to column 60 exactly. *)
Theorem print_descr_fills_sixty_columns uptime action descr s :
  strlen action + strlen descr <= 60 ->
  exists tr line,
    print_descr uptime action descr s
    = Cont tt {| p_trace := p_trace s ++ tr; p_errno := p_errno s;
                 p_cwd := p_cwd s |} /\
    stderr_text tr = home ++ uptime ++ line /\
    line = c_str action ++ c_str descr
           ++ firstn (60 - strlen action - strlen descr) dots /\
    List.length line = 60.
Proof.
  intros H. unfold print_descr, write_stderr.
  rewrite (size_sub_small 60 (Z.of_nat (strlen descr)))
    by (unfold SIZE_MAX; lia).
  rewrite size_sub_small by (unfold SIZE_MAX; lia).
  replace (60 - Z.of_nat (strlen descr) - Z.of_nat (strlen action))%Z
    with (Z.of_nat (60 - strlen action - strlen descr)) by lia.
  rewrite Nat2Z.id.
  destruct (Z.gtb_spec (Z.of_nat (60 - strlen action - strlen descr))
              (Z.of_nat (List.length (dots ++ [NUL])))) as [G|G].
  { change (List.length (dots ++ [NUL])) with 71 in G. lia. }
  step. eexists. eexists. split; [|split; [|split; [reflexivity|]]].
  - app_norm; reflexivity.
  - cbn [stderr_text flat_map]. rewrite app_nil_r.
    rewrite firstn_app.
    replace (60 - strlen action - strlen descr - List.length dots) with 0
      by (change (List.length dots) with 70; lia).
    cbn [firstn]. rewrite app_nil_r. reflexivity.
  - rewrite !length_app, length_firstn.
    change (List.length dots) with 70. unfold strlen in *. lia.
Qed.

Lemma print_descr_fills_sixty_columns_witness :
  exists tr line,
    print_descr [] (lit "Starting ") (lit "syslogd") (start "/")
    = Cont tt {| p_trace := tr; p_errno := 0; p_cwd := "/"%string |} /\
    stderr_text tr = home ++ line /\ List.length line = 60.
Proof.
  destruct (print_descr_fills_sixty_columns [] (lit "Starting ")
              (lit "syslogd") (start "/")
              (proj1 (Nat.leb_le (strlen (lit "Starting ")
                                  + strlen (lit "syslogd")) 60) eq_refl))
    as (tr & line & R & T & _ & L).
  exists tr, line. split; [exact R|]. split; [exact T | exact L].
Defined.

(** X22: when the two texts have more than 60 characters between them,
    the count of the last [write] wraps around as a [size_t] to a value
    above [SSIZE_MAX]; the kernel refuses it, so no dot and no space is
    written behind the description, [errno] is left at [EFAULT], and
    [print_descr] returns. *)
Theorem print_descr_pads_nothing_when_long uptime action descr s :
  60 < strlen action + strlen descr ->
  (Z.of_nat (strlen action + strlen descr) < 2 ^ 63)%Z ->
  exists tr,
    print_descr uptime action descr s
    = Cont tt {| p_trace := p_trace s ++ tr; p_errno := EFAULT;
                 p_cwd := p_cwd s |} /\
    stderr_text tr = home ++ uptime ++ c_str action ++ c_str descr.
Proof.
  intros H B. unfold print_descr, write_stderr.
  set (count := size_sub (size_sub 60 (Z.of_nat (strlen descr)))
                  (Z.of_nat (strlen action))).
  assert (C : (2 ^ 63 < count)%Z).
  { unfold count, size_sub, SIZE_MAX.
    change (2 ^ 64 - 1 + 1)%Z with (2 ^ 64)%Z.
    rewrite Zminus_mod_idemp_l.
    replace (60 - Z.of_nat (strlen descr) - Z.of_nat (strlen action))%Z
      with (60 - Z.of_nat (strlen action + strlen descr))%Z by lia.
    set (n := Z.of_nat (strlen action + strlen descr)) in *.
    assert (N : (60 < n)%Z) by (unfold n; lia).
    replace ((60 - n) mod 2 ^ 64)%Z with (2 ^ 64 + 60 - n)%Z.
    - change (2 ^ 63)%Z with 9223372036854775808%Z in *.
      change (2 ^ 64)%Z with 18446744073709551616%Z. lia.
    - apply Z.mod_unique with (q := (-1)%Z);
        change (2 ^ 63)%Z with 9223372036854775808%Z in B;
        change (2 ^ 64)%Z with 18446744073709551616%Z; lia. }
  destruct (Z.gtb_spec count (Z.of_nat (List.length (dots ++ [NUL]))))
    as [G|G].
  2:{ change (List.length (dots ++ [NUL])) with 71 in G.
      change (2 ^ 63)%Z with 9223372036854775808%Z in C. lia. }
  destruct (Z.gtb_spec count SSIZE_MAX) as [G2|G2].
  2:{ unfold SSIZE_MAX in G2. lia. }
  step. eexists. split.
  - app_norm; reflexivity.
  - cbn [stderr_text flat_map]. rewrite app_nil_r. reflexivity.
Qed.

Lemma print_descr_pads_nothing_when_long_witness :
  exists tr,
    print_descr [] (lit "Starting ")
      (lit "the daemon that logs what the other daemons have to say")
      (start "/")
    = Cont tt {| p_trace := tr; p_errno := EFAULT; p_cwd := "/"%string |} /\
    stderr_text tr
    = home ++ lit "Starting "
      ++ lit "the daemon that logs what the other daemons have to say".
Proof.
  apply (print_descr_pads_nothing_when_long [] (lit "Starting ")
           (lit "the daemon that logs what the other daemons have to say")
           (start "/")).
  - apply Nat.ltb_lt. reflexivity.
  - reflexivity.
Defined.

End ProgressFacts.

(* ================================================================== *)
(** ** [set_hostname] *)
(* ================================================================== *)

Module HostNameFacts.
Import CStr Tokenizer Lines HostName CStrFacts TokenizerFacts LineFacts.
Local Open Scope list_scope.

Lemma existsb_nul l : existsb is_nul l = true <-> In NUL l.
Proof.
  rewrite existsb_exists. split.
  - intros (x & I & E). destruct (is_nul_cases x) as [(_ & -> & _)|(K & _)];
      [exact I | congruence].
  - intros I. exists NUL. split; [exact I | reflexivity].
Qed.

Lemma firstn_strlen l : firstn (strlen l) l = c_str l.
Proof.
  unfold strlen. induction l as [|c l IH]; [reflexivity|]. cbn [c_str].
  destruct (is_nul c); [reflexivity|]. cbn [List.length firstn].
  rewrite IH. reflexivity.
Qed.

(** What [chomp] leaves of a terminated string is its first line. *)
Lemma chomp_first_line b :
  In NUL b ->
  exists b',
    chomp b = Ok b' /\ List.length b' = List.length b /\ In NUL b' /\
    c_str b' = first_line (List.length b) b.
Proof.
  induction b as [|c b IH]; intros I; [destruct I|].
  unfold chomp. cbn [strchr first_line List.length].
  destruct (eqb_cases c newline) as [[E ->]|[E D]]; rewrite E.
  - cbn [mbind orb]. unfold poke. cbn [List.length Nat.ltb Nat.leb firstn skipn app].
    eexists. split; [reflexivity|]. split; [reflexivity|].
    split; [left; reflexivity | reflexivity].
  - destruct (is_nul_cases c) as [(Z0 & -> & _)|(Z0 & _)]; rewrite Z0.
    + cbn [mbind orb]. exists (NUL :: b). repeat split.
      left. reflexivity.
    + cbn [orb]. destruct I as [K|K]; [subst c; discriminate Z0|].
      destruct (IH K) as (b' & C & L & N & Sf). unfold chomp in C.
      destruct (strchr b newline) as [[p|]|] eqn:X; cbn [mbind] in *;
        [| |discriminate C].
      * cbn [option_map]. unfold poke in *. cbn [List.length].
        destruct (Nat.ltb_spec p (List.length b)) as [P|P];
          [|discriminate C].
        destruct (Nat.ltb_spec (S p) (S (List.length b))); [|lia].
        injection C as <-. cbn [firstn skipn app].
        eexists. split; [reflexivity|]. cbn [List.length c_str].
        rewrite Z0, <- Sf. split; [rewrite <- L; reflexivity|].
        split; [right; exact N | reflexivity].
      * injection C as <-. cbn [option_map]. exists (c :: b).
        cbn [c_str]. rewrite Z0, <- Sf. repeat split. right. exact K.
Qed.

Lemma first_line_fgets n : forall content rest m,
  List.length (fgets_take n content) < m ->
  first_line m (fgets_take n content ++ NUL :: rest) = first_line n content.
Proof.
  induction n as [|n IH]; intros content rest m Hm.
  - destruct m; [cbn in Hm; lia|].
    destruct content; reflexivity.
  - destruct content as [|c content].
    + destruct m; [cbn in Hm; lia|]. reflexivity.
    + cbn [fgets_take] in *.
      destruct (eqb_cases c newline) as [[E ->]|[E D]]; rewrite E in *.
      * destruct m; [cbn in Hm; lia|]. reflexivity.
      * cbn [List.length] in Hm. destruct m as [|m]; [lia|].
        cbn [app first_line]. rewrite E. cbn [orb].
        destruct (is_nul c); [reflexivity|].
        rewrite IH by lia. reflexivity.
Qed.

(** X23: when /etc/hostname can be opened and is not empty, the name
    given to [sethostname] is its first line, [HOSTNAME_SIZE - 1]
    characters of it at most, whatever the caller's object held; the
    object must have room for [HOSTNAME_SIZE] bytes. *)
Theorem set_hostname_takes_first_line HOSTNAME_SIZE content hostname :
  content <> [] -> 0 < HOSTNAME_SIZE ->
  HOSTNAME_SIZE <= List.length hostname ->
  exists buf,
    set_hostname HOSTNAME_SIZE (Some content) hostname
    = Ok (first_line (HOSTNAME_SIZE - 1) content, buf) /\
    List.length buf = List.length hostname.
Proof.
  intros Hc Hs Hl. unfold set_hostname, fgets_into, fgets.
  destruct content as [|c content]; [destruct (Hc eq_refl)|].
  set (line := fgets_take (HOSTNAME_SIZE - 1) (c :: content)).
  pose proof (PidReadFacts.fgets_take_length (HOSTNAME_SIZE - 1)
                (c :: content)) as Ln. fold line in Ln.
  destruct (Nat.ltb_spec (List.length hostname) (List.length line + 1));
    [lia|].
  cbn [mbind].
  destruct (chomp_first_line
              (line ++ NUL :: skipn (List.length line + 1) hostname))
    as (b' & C & L & N & Sf);
    [apply in_or_app; right; left; reflexivity|].
  rewrite C. cbn [mbind]. unfold strlen_in.
  rewrite (proj2 (existsb_nul b') N). cbn [mbind].
  exists b'. split.
  - rewrite firstn_strlen, Sf. f_equal. f_equal. unfold line.
    apply first_line_fgets. fold line. rewrite length_app.
    cbn [List.length]. lia.
  - rewrite L, length_app. cbn [List.length]. rewrite length_skipn. lia.
Qed.

Lemma set_hostname_takes_first_line_witness :
  exists buf,
    set_hostname 32 (Some (lit "box" ++ newline :: lit "more"))
      (lit "noname" ++ repeat NUL 26)
    = Ok (lit "box", buf) /\ List.length buf = 32.
Proof.
  apply (set_hostname_takes_first_line 32
           (lit "box" ++ newline :: lit "more")
           (lit "noname" ++ repeat NUL 26)).
  - discriminate.
  - apply Nat.ltb_lt. reflexivity.
  - apply Nat.leb_le. reflexivity.
Defined.

End HostNameFacts.

(* ================================================================== *)
(** ** [procname_set] and [pid_get_name] *)
(* ================================================================== *)

Module NamesFacts.
Import CStr Tokenizer Lines HostName Printf ProcName Names.
Import CStrFacts TokenizerFacts LineFacts HostNameFacts PrintfFacts
  ProcNameFacts.
Local Open Scope list_scope.

Lemma strlen_lt l : In NUL l -> strlen l < List.length l.
Proof.
  intros I. destruct (c_str_split l I) as [b B]. unfold strlen.
  rewrite B at 2. rewrite length_app. cbn [List.length]. lia.
Qed.

Lemma firstn_plain n l : ~ In NUL l -> ~ In NUL (firstn n l).
Proof.
  intros H K. apply H. rewrite <- (firstn_skipn n l).
  apply in_or_app. left. exact K.
Qed.

(** What [strlcpy] leaves in an object it does not overrun, as
    [copies_bounded] has it. *)
Lemma bounded_copy_shape (s z : list char) m :
  ~ In NUL s -> List.length s + 1 <= m -> m <= List.length z ->
  let b := s ++ NUL :: skipn (List.length s + 1) z in
  c_str b = s /\ List.length b = List.length z /\ skipn m b = skipn m z.
Proof.
  intros Hs H1 H2 b. split; [apply c_str_app; exact Hs|]. split.
  - unfold b. rewrite length_app. cbn [List.length].
    rewrite length_skipn. lia.
  - unfold b. rewrite skipn_app.
    rewrite (skipn_all2 s) by lia. cbn [app].
    replace (m - List.length s) with (S (m - List.length s - 1)) by lia.
    cbn [skipn]. rewrite skipn_skipn. f_equal. lia.
Qed.

(** X24: given a [strlcpy] that keeps to its size, [procname_set]
    leaves in [args[0]] the new name cut to the length of the old one;
    the object keeps its length, and what lies behind the old terminator
    is not touched. *)
Theorem procname_set_cuts_to_old_length strlcpy name arg0 :
  copies_bounded strlcpy -> In NUL arg0 ->
  exists b,
    procname_set strlcpy name arg0 = Ok (c_str name, b) /\
    c_str b = firstn (strlen arg0) (c_str name) /\
    List.length b = List.length arg0 /\
    skipn (strlen arg0 + 1) b = skipn (strlen arg0 + 1) arg0.
Proof.
  intros Hc I. pose proof (strlen_lt arg0 I) as Lt.
  unfold procname_set, strlen_in.
  rewrite (proj2 (existsb_nul arg0) I). cbn [mbind].
  set (n := strlen arg0) in *.
  set (zeroed := repeat NUL (n + 1) ++ skipn (n + 1) arg0).
  assert (Lz : List.length zeroed = List.length arg0).
  { unfold zeroed. rewrite length_app, repeat_length, length_skipn. lia. }
  rewrite (Hc zeroed name (n + 1)) by lia. cbn [mbind].
  replace (n + 1 - 1) with n by lia.
  set (s := firstn n (c_str name)).
  assert (Ls : List.length s <= n) by (unfold s; rewrite length_firstn; lia).
  destruct (bounded_copy_shape s zeroed (n + 1)
              (firstn_plain n _ (c_str_plain name)) ltac:(lia) ltac:(lia))
    as (C & L & K).
  eexists. split; [reflexivity|]. split; [exact C|].
  split; [rewrite L; exact Lz|]. rewrite K. unfold zeroed.
  rewrite skipn_app, repeat_length, Nat.sub_diag.
  rewrite skipn_all2 by (rewrite repeat_length; lia). reflexivity.
Qed.

Lemma strlcpy_bsd_bounded : copies_bounded strlcpy_bsd.
Proof.
  intros dst src size H0 H1. cbv zeta. unfold strlcpy_bsd.
  destruct size as [|n]; [lia|]. replace (S n - 1) with n by lia.
  set (s := firstn n (c_str src)).
  assert (Ls : List.length s <= n) by (unfold s; rewrite length_firstn; lia).
  destruct (Nat.ltb_spec (List.length dst) (List.length s + 1)); [lia|].
  reflexivity.
Qed.

Lemma procname_set_cuts_to_old_length_witness :
  exists b,
    procname_set strlcpy_bsd (lit "console" ++ [NUL])
      (lit "getty" ++ NUL :: lit "TERM=vt100" ++ [NUL])
    = Ok (lit "console", b) /\
    c_str b = lit "conso" /\
    skipn 6 b = lit "TERM=vt100" ++ [NUL].
Proof.
  destruct (procname_set_cuts_to_old_length strlcpy_bsd
              (lit "console" ++ [NUL])
              (lit "getty" ++ NUL :: lit "TERM=vt100" ++ [NUL])
              strlcpy_bsd_bounded)
    as (b & P & C & _ & K).
  - apply in_or_app. right. left. reflexivity.
  - exists b. split; [exact P|]. split; [exact C | exact K].
Defined.

Lemma status_path_whole pid :
  (INT_MIN <= pid <= INT_MAX)%Z ->
  snprintf 32 (lit "/proc/" ++ decimal pid ++ lit "/status")
  = lit "/proc/" ++ decimal pid ++ lit "/status".
Proof.
  intros H. destruct (decimal_length pid H) as [L _].
  unfold snprintf. apply firstn_all2. rewrite !length_app.
  change (List.length (lit "/proc/")) with 6.
  change (List.length (lit "/status")) with 7. cbn [Nat.sub]. lia.
Qed.

(** The first line of a status file as [pid_get_name] reads it, and
    what [chomp] makes of it. *)
Lemma status_line comm more line :
  ~ In NUL comm -> ~ In newline comm -> List.length comm <= 56 ->
  List.length line = 64 ->
  let content := label ++ comm ++ newline :: more in
  exists l rest,
    fgets 64 content = Some l /\
    fgets_into line 64 content
    = Ok (label ++ comm ++ newline :: NUL :: rest) /\
    chomp (skipn 6 (label ++ comm ++ newline :: NUL :: rest))
    = Ok (comm ++ NUL :: NUL :: rest) /\
    firstn 6 (label ++ comm ++ newline :: NUL :: rest) = label.
Proof.
  intros Hn Hl Hc Hline content.
  destruct label_plain as (L0 & L1 & L2).
  assert (F : fgets 64 content = Some ((label ++ comm) ++ [newline])).
  { unfold content. rewrite fgets_some
      by (rewrite length_app, L2; lia).
    replace (label ++ comm ++ newline :: more)
      with ((label ++ comm) ++ newline :: more) by app_norm.
    rewrite fgets_take_line;
      [reflexivity | apply not_in_app; assumption |
       rewrite length_app, L2; lia]. }
  exists ((label ++ comm) ++ [newline]).
  exists (skipn (List.length ((label ++ comm) ++ [newline]) + 1) line).
  split; [exact F|]. split; [|split].
  - unfold fgets_into. rewrite F.
    destruct (Nat.ltb_spec (List.length line)
                (List.length ((label ++ comm) ++ [newline]) + 1)) as [K|K].
    + rewrite !length_app, L2 in K. cbn [List.length] in K. lia.
    + f_equal. app_norm.
  - rewrite skipn_app, L2. rewrite (skipn_all2 label) by lia.
    cbn [Nat.sub skipn app].
    apply chomp_cut; assumption.
  - rewrite firstn_app, L2, Nat.sub_diag, firstn_O, app_nil_r.
    apply firstn_all2. lia.
Qed.

(** X25: for a status file whose first line is the label, the name of
    the process and a newline, [pid_get_name] with an object of the
    caller's and a length that is not 0 returns the name, cut to
    [len - 1] characters, given a [strlcpy] that keeps to its size. *)
Theorem pid_get_name_copies_the_name
  strlcpy within status pid comm more buf len line :
  copies_bounded strlcpy -> (INT_MIN <= pid <= INT_MAX)%Z ->
  status (show (lit "/proc/" ++ decimal pid ++ lit "/status"))
  = Some (label ++ comm ++ newline :: more) ->
  ~ In NUL comm -> ~ In newline comm -> List.length comm <= 56 ->
  List.length line = 64 -> 0 < len -> len <= List.length buf ->
  exists r,
    pid_get_name strlcpy within status pid (Some buf) len line = Ok r /\
    g_ret r = Some (firstn (len - 1) comm) /\
    option_map (@List.length char) (g_name r) = Some (List.length buf) /\
    c_str (g_line r) = label ++ comm.
Proof.
  intros Hc Hp Hs Hn Hl Hm Hline H0 H1.
  destruct label_plain as (L0 & L1 & L2).
  destruct (status_line comm more line Hn Hl Hm Hline)
    as (l & rest & F & G & C & P).
  unfold pid_get_name. rewrite (status_path_whole pid Hp), Hs, F, G.
  cbn [mbind]. rewrite C, P. cbn [mbind].
  destruct (Nat.eqb_spec len 0); [lia|].
  rewrite (Hc buf _ len H0 H1). cbn [mbind].
  rewrite (c_str_app comm (NUL :: rest) Hn).
  set (s := firstn (len - 1) comm).
  assert (Ls : List.length s <= len - 1)
    by (unfold s; rewrite length_firstn; lia).
  destruct (bounded_copy_shape s buf len (firstn_plain _ _ Hn)
              ltac:(lia) ltac:(lia)) as (Cs & Lb & _).
  eexists. split; [reflexivity|]. cbn [g_ret g_name g_line option_map].
  split; [rewrite Cs; reflexivity|]. split; [rewrite Lb; reflexivity|].
  rewrite app_assoc. apply c_str_app. apply not_in_app; assumption.
Qed.

(** X26: with a length of 0, where the function is to return a static
    string, the string returned is the whole line, label and tab
    included, not the name of the process: [strlcpy] with a size of 0
    moves nothing to the front of [line]. *)
Theorem pid_get_name_static_keeps_label
  strlcpy within status pid comm more name line :
  writes_nothing_at_zero within -> (INT_MIN <= pid <= INT_MAX)%Z ->
  status (show (lit "/proc/" ++ decimal pid ++ lit "/status"))
  = Some (label ++ comm ++ newline :: more) ->
  ~ In NUL comm -> ~ In newline comm -> List.length comm <= 56 ->
  List.length line = 64 ->
  exists r,
    pid_get_name strlcpy within status pid name 0 line = Ok r /\
    g_ret r = Some (label ++ comm) /\ g_name r = name.
Proof.
  intros Hw Hp Hs Hn Hl Hm Hline.
  destruct label_plain as (L0 & L1 & L2).
  destruct (status_line comm more line Hn Hl Hm Hline)
    as (l & rest & F & G & C & P).
  assert (S0 : c_str (label ++ comm ++ NUL :: NUL :: rest) = label ++ comm).
  { rewrite app_assoc. apply c_str_app. apply not_in_app; assumption. }
  unfold pid_get_name. rewrite (status_path_whole pid Hp), Hs, F, G.
  cbn [mbind]. rewrite C, P. cbn [mbind].
  destruct name as [buf|]; cbn [Nat.eqb]; rewrite Hw; cbn [mbind];
    eexists; (split; [reflexivity|]); cbn [g_ret g_name];
    rewrite S0; split; reflexivity.
Qed.

Lemma strlcpy_within_bsd_zero : writes_nothing_at_zero strlcpy_within_bsd.
Proof. intros object dst src. reflexivity. Qed.

Lemma syslogd_plain :
  ~ In NUL (lit "syslogd") /\ ~ In newline (lit "syslogd") /\
  List.length (lit "syslogd") <= 56.
Proof.
  split; [|split].
  - cbn. intuition discriminate.
  - cbn. intuition discriminate.
  - apply Nat.leb_le. reflexivity.
Qed.

Lemma pid_get_name_copies_the_name_witness :
  exists r,
    pid_get_name strlcpy_bsd strlcpy_within_bsd proc_17 17
      (Some (repeat NUL 8)) 5 (repeat NUL 64) = Ok r /\
    g_ret r = Some (lit "sysl").
Proof.
  destruct syslogd_plain as (A & B & C).
  destruct (pid_get_name_copies_the_name strlcpy_bsd strlcpy_within_bsd
              proc_17 17 (lit "syslogd") (lit "State:" ++ [newline])
              (repeat NUL 8) 5 (repeat NUL 64) strlcpy_bsd_bounded)
    as (r & P & R & _); try assumption; try reflexivity.
  - unfold INT_MIN, INT_MAX. lia.
  - apply Nat.ltb_lt. reflexivity.
  - apply Nat.leb_le. reflexivity.
  - exists r. split; [exact P | exact R].
Defined.

Lemma pid_get_name_static_keeps_label_witness :
  exists r,
    pid_get_name strlcpy_bsd strlcpy_within_bsd proc_17 17 None 0
      (repeat NUL 64) = Ok r /\
    g_ret r = Some (label ++ lit "syslogd").
Proof.
  destruct syslogd_plain as (A & B & C).
  destruct (pid_get_name_static_keeps_label strlcpy_bsd strlcpy_within_bsd
              proc_17 17 (lit "syslogd") (lit "State:" ++ [newline])
              None (repeat NUL 64) strlcpy_within_bsd_zero)
    as (r & P & R & _); try assumption; try reflexivity.
  - unfold INT_MIN, INT_MAX. lia.
  - exists r. split; [exact P | exact R].
Defined.

End NamesFacts.

(* ================================================================== *)
(** ** [run_getty] *)
(* ================================================================== *)

Module GettyFacts.
Import CStr Tokenizer WaitStatus Sys Runner Getty.
Import TokenizerFacts RunnerFacts RunPathFacts.
Local Open Scope string_scope.
Local Open Scope list_scope.

(** A command line that the tokenizer gets through is run to the end,
    whatever the system answers. *)
Lemma run_returns NSIG e cmd t s :
  tokenize cmd = Ok t -> exists v s', run NSIG e cmd s = Cont v s'.
Proof.
  intros Ht. unfold run. destruct (e_strdup_ok e); cbn [negb];
    [|eexists; eexists; reflexivity].
  rewrite Ht, (too_long_never cmd t Ht). step.
  destruct (e_fork e) as [pid|]; [|step; eexists; eexists; reflexivity].
  destruct (e_wait e) as [err|]; step.
  - match goal with
    | |- context [wait_failure_log ?er ?s0] =>
        destruct (wait_failure_log_cont er s0) as [tr E]; rewrite E
    end.
    destruct (e_devnull e); step; eexists; eexists; reflexivity.
  - match goal with
    | |- context [wait_status_log ?st ?s0] =>
        destruct (wait_status_log_cont st s0) as [tr E]; rewrite E
    end.
    destruct (e_devnull e); step; eexists; eexists; reflexivity.
Qed.

Lemma resets_app a b : resets (a ++ b) = resets a ++ resets b.
Proof. apply flat_map_app. Qed.

Lemma resets_loop l : resets (map GSigDfl l) = l.
Proof.
  induction l as [|n l IH]; [reflexivity|].
  cbn [map]. change (resets (GSigDfl n :: map GSigDfl l))
    with (n :: resets (map GSigDfl l)). rewrite IH. reflexivity.
Qed.

(** The loop, pass by pass, for a command that [run] gets through. *)
Lemma console_loop_counts NSIG cmd t :
  tokenize cmd = Ok t ->
  forall rounds,
  let evs := fst (console_loop NSIG cmd rounds) in
  prompts evs
  = List.length (filter (fun r => negb (r_stopped r)) (live rounds)) /\
  sleeps evs = List.length (filter r_stopped (live rounds)) /\
  runs evs = List.length (filter answered (live rounds)) /\
  resets evs = [] /\
  snd (console_loop NSIG cmd rounds)
  = if existsb r_shutdown rounds then GExit 0 else GWaiting.
Proof.
  intros Ht. induction rounds as [|r rounds IH]; [repeat split|].
  cbn [console_loop live existsb]. unfold answered.
  destruct (r_shutdown r); cbn [orb]; [repeat split|].
  cbv zeta in IH. destruct IH as (P & S & R & D & F).
  destruct (console_loop NSIG cmd rounds) as [evs fin].
  cbn [fst snd] in *. cbn [filter].
  destruct (r_stopped r); cbn [negb andb].
  - cbn [fst snd]. unfold prompts, sleeps, runs, resets in *.
    cbn [filter flat_map List.length app]. rewrite P, S, R, D.
    repeat split. exact F.
  - destruct (r_stopped_then r); cbn [negb].
    + cbn [fst snd app]. unfold prompts, sleeps, runs, resets in *.
      cbn [filter flat_map List.length app]. rewrite P, S, R, D.
      repeat split. exact F.
    + destruct (run_returns NSIG (r_run r) cmd t (start "/") Ht)
        as (v & s' & E).
      rewrite E. cbn [fst snd app].
      unfold prompts, sleeps, runs, resets in *.
      cbn [filter flat_map List.length app]. rewrite P, S, R, D.
      repeat split. exact F.
Qed.

Lemma resets_skip ev l :
  match ev with GSigDfl _ => False | _ => True end ->
  resets (ev :: l) = resets l.
Proof. destruct ev; intros H; try reflexivity. destruct H. Qed.

Lemma filter_sigdfl (p : gevent -> bool) l :
  (forall n, p (GSigDfl n) = false) -> filter p (map GSigDfl l) = [].
Proof.
  intros H. induction l as [|n l IH]; [reflexivity|].
  cbn [map filter]. rewrite H. exact IH.
Qed.

(** What the child does before the loop adds no prompt, sleep or run,
    and resets every signal from 1 to [NSIG - 1]. *)
Lemma setup_counts NSIG evs (fd : Z) :
  let setup :=
    [GVhangup; GClose 2; GClose 1; GClose 0; GOpen fd]
    ++ GUnblock :: map GSigDfl (seq 1 (NSIG - 1))
    ++ [GDup2 0 STDIN_FILENO; GDup2 0 STDOUT_FILENO; GDup2 0 STDERR_FILENO;
        GProcname "console"] in
  prompts (setup ++ evs) = prompts evs /\
  sleeps (setup ++ evs) = sleeps evs /\
  runs (setup ++ evs) = runs evs /\
  resets (setup ++ evs) = seq 1 (NSIG - 1) ++ resets evs.
Proof.
  cbv zeta. unfold prompts, sleeps, runs.
  rewrite <- !app_assoc. cbn [app filter].
  rewrite !filter_app, !filter_sigdfl by reflexivity. cbn [app filter].
  split; [reflexivity|]. split; [reflexivity|]. split; [reflexivity|].
  repeat (rewrite resets_skip by exact I).
  rewrite !resets_app, resets_loop.
  change (resets [GDup2 0 STDIN_FILENO; GDup2 0 STDOUT_FILENO;
                  GDup2 0 STDERR_FILENO; GProcname "console"])
    with (@nil nat).
  rewrite app_nil_r. reflexivity.
Qed.

(** The events of the loop are those of its passes, one after the
    other, for a command that [run] gets through. *)
Lemma console_loop_events NSIG cmd t :
  tokenize cmd = Ok t ->
  forall rounds,
  fst (console_loop NSIG cmd rounds)
  = flat_map (pass NSIG cmd) (live rounds).
Proof.
  intros Ht. induction rounds as [|r rounds IH]; [reflexivity|].
  cbn [console_loop live]. destruct (r_shutdown r); [reflexivity|].
  cbn [flat_map]. unfold pass at 1.
  destruct (console_loop NSIG cmd rounds) as [evs fin].
  cbn [fst] in IH. destruct (r_stopped r).
  - cbn [fst app]. rewrite IH. reflexivity.
  - destruct (r_stopped_then r).
    + cbn [fst app]. rewrite IH. reflexivity.
    + destruct (run_returns NSIG (r_run r) cmd t (start "/") Ht)
        as (v & s' & E).
      rewrite E. cbn [returned fst app]. rewrite IH. reflexivity.
Qed.

(** X27: with the console attached and a command that [run] gets
    through, what the child of [run_getty] does is, in this order: the
    setup, in which every signal is reset once, and then the passes made
    until the shutdown marker is seen, each of them a sleep where the
    console is stopped and otherwise the prompt, the reads and then, where
    the console is not stopped by then, one run of the command, whatever
    it returns; nothing else.  So there is one sleep for each stopped
    pass, one prompt for each other pass and one run for each prompt that
    is answered; the child exits with 0 when the marker is seen and not
    before. *)
Theorem console_runs_once_per_answered_prompt NSIG e cmd t :
  tokenize cmd = Ok t -> g_open e = 0%Z ->
  let child := console_child NSIG e cmd in
  let passes := live (g_rounds e) in
  fst child = attach NSIG ++ flat_map (pass NSIG cmd) passes /\
  (forall r, In r passes -> answered r = true ->
     exists status,
       pass NSIG cmd r = [GPrompt; GRead (S (r_typed r)); GRun status] /\
       returned (run NSIG (r_run r) cmd (start "/")) = Some status) /\
  prompts (fst child)
  = List.length (filter (fun r => negb (r_stopped r)) passes) /\
  sleeps (fst child) = List.length (filter r_stopped passes) /\
  runs (fst child) = List.length (filter answered passes) /\
  resets (fst child) = seq 1 (NSIG - 1) /\
  snd child
  = if existsb r_shutdown (g_rounds e) then GExit 0 else GWaiting.
Proof.
  intros Ht Ho. cbv zeta. split; [|split].
  - unfold console_child. rewrite Ho. cbn [Z.eqb negb].
    pose proof (console_loop_events NSIG cmd t Ht (g_rounds e)) as E.
    destruct (console_loop NSIG cmd (g_rounds e)) as [evs fin].
    cbn [fst] in *. rewrite E. unfold attach. app_norm; reflexivity.
  - intros r _ A. unfold answered in A. apply andb_prop in A.
    destruct A as [A1 A2]. unfold pass.
    destruct (r_stopped r); [discriminate A1|].
    destruct (r_stopped_then r); [discriminate A2|].
    destruct (run_returns NSIG (r_run r) cmd t (start "/") Ht)
      as (v & s' & E).
    rewrite E. exists v. split; reflexivity.
  - unfold console_child. rewrite Ho. cbn [Z.eqb negb].
    destruct (console_loop_counts NSIG cmd t Ht (g_rounds e))
      as (P & S & R & D & F).
    destruct (console_loop NSIG cmd (g_rounds e)) as [evs fin].
    cbn [fst snd] in *.
    destruct (setup_counts NSIG evs 0) as (P' & S' & R' & D').
    cbv zeta in P', S', R', D'.
    rewrite P', S', R', D', P, S, R, D, app_nil_r. repeat split. exact F.
Qed.

Lemma console_runs_once_per_answered_prompt_witness :
  fst (console_child 65 getty_day (lit Examples.echo_cmd))
  = attach 65 ++ [GSleep; GPrompt; GRead 1; GRun 0;
                  GPrompt; GRead 1; GRun 0] /\
  prompts (fst (console_child 65 getty_day (lit Examples.echo_cmd))) = 2 /\
  sleeps (fst (console_child 65 getty_day (lit Examples.echo_cmd))) = 1 /\
  runs (fst (console_child 65 getty_day (lit Examples.echo_cmd))) = 2 /\
  snd (console_child 65 getty_day (lit Examples.echo_cmd)) = GExit 0.
Proof.
  destruct (console_runs_once_per_answered_prompt 65 getty_day
              (lit Examples.echo_cmd) Examples.echo_tok eq_refl eq_refl)
    as (E & _ & P & S & R & _ & F).
  split; [rewrite E; vm_compute; reflexivity|].
  split; [exact P|]. split; [exact S|]. split; [exact R | exact F].
Defined.



End GettyFacts.

(* ================================================================== *)
(** ** [run_parts] when [fork] fails *)
(* ================================================================== *)

Module BatchWaitFacts.
Import CStr Tokenizer Sys Runner Batch Resources BatchWaits.
Import TokenizerFacts RunnerFacts RunPathFacts BatchFacts.
Local Open Scope string_scope.
Local Open Scope list_scope.

Lemma quiet_no_wait tr :
  forallb quiet_event tr = true -> waited tr = [] /\ created tr = [].
Proof.
  induction tr as [|ev tr IH]; intros H; [split; reflexivity|].
  cbn [forallb] in H. apply andb_prop in H. destruct H as [Q H].
  destruct (IH H) as [W C]. unfold waited, created in *.
  destruct ev; try discriminate Q; cbn [flat_map forks app map];
    split; assumption.
Qed.

Lemma waited_skip ev l :
  match ev with Waitpid _ => False | _ => True end ->
  waited (ev :: l) = waited l.
Proof. destruct ev; intros H; try reflexivity. destruct H. Qed.

Lemma created_skip ev l :
  match ev with Fork _ _ => False | _ => True end ->
  created (ev :: l) = created l.
Proof. destruct ev; intros H; try reflexivity. destruct H. Qed.

(** The loop over the scripts: one [waitpid] for each, also where no
    child was created. *)
Lemma exec_all_waits e : forall ent args i s,
  exists tr,
    exec_all e args i ent s
    = Cont tt {| p_trace := p_trace s ++ tr; p_errno := p_errno s;
                 p_cwd := p_cwd s |} /\
    waited tr = map (wait_target e) (seq i (List.length ent)) /\
    created tr = flat_map (child_of e) (seq i (List.length ent)).
Proof.
  induction ent as [|script ent IH]; intros args i s.
  - exists []. cbn [exec_all]. rewrite app_nil_r. destruct s.
    repeat split; reflexivity.
  - cbn [exec_all List.length seq map flat_map].
    unfold wait_target at 1, child_of at 1.
    destruct (b_fork e i) as [pid|]; run_step;
      match goal with
      | |- context [exec_all e ?a1 (S i) ent ?s1] =>
          destruct (IH a1 (S i) s1) as (tr & X & W & C)
      end;
      rewrite X; cbn [p_trace p_errno p_cwd];
      eexists; rewrite <- !app_assoc; cbn [app];
      (split; [reflexivity|]);
      unfold waited, created in *; cbn [flat_map forks app map fst];
      rewrite W, C; split; reflexivity.
Qed.

(** X29: once the directory is entered and opened, [run_parts] returns
    0 whatever becomes of the scripts, and it calls [waitpid] once for
    each script: with the pid of the child, or, where [fork] failed, with
    the -1 it returned, which waits for any child of the caller. *)
Theorem run_parts_waits_for_any_child e dir extra cwd entries :
  b_chdir e (resolve cwd dir) = true ->
  b_opendir e (resolve (resolve cwd dir) dir) = Some entries ->
  exists s',
    run_parts e dir extra (start cwd) = Cont 0%Z s' /\
    waited (p_trace s')
    = map (wait_target e) (seq 0 (List.length (scripts entries))) /\
    created (p_trace s')
    = flat_map (child_of e) (seq 0 (List.length (scripts entries))).
Proof.
  intros Hc Ho.
  unfold run_parts, start. run_step. unfold sys_chdir at 1. run_step.
  rewrite Hc. run_step. rewrite Ho. run_step.
  match goal with
  | |- context [collect entries [] ?s1] =>
      destruct (collect_spec entries [] s1) as (tr1 & C & Q1);
        [unfold NUM_SCRIPTS; cbn [List.length]; lia|]
  end.
  rewrite C. cbn [p_trace p_errno p_cwd app List.length].
  rewrite Nat.sub_0_r. fold (scripts entries).
  destruct (quiet_no_wait tr1 Q1) as [W1 C1].
  destruct (List.length (scripts entries) =? 0)%nat eqn:E.
  - apply Nat.eqb_eq in E. rewrite E. cbn [seq map flat_map].
    destruct (b_getcwd_ok e); run_step; eexists;
      (split; [reflexivity|]); cbn [p_trace]; app_norm;
      repeat (rewrite waited_skip by exact I);
      repeat (rewrite created_skip by exact I);
      tally; rewrite W1, C1; split; reflexivity.
  - match goal with
    | |- context [exec_all e ?a1 0 ?ent ?s1] =>
        destruct (exec_all_waits e ent a1 0 s1) as (tr2 & X & W2 & C2)
    end.
    rewrite X. cbn [p_trace p_errno p_cwd].
    match goal with
    | |- context [sys_chdir e ?o ?s1] =>
        destruct (sys_chdir_cont e o s1) as (ev & cwd' & D & Q3)
    end.
    rewrite D. cbn [p_trace p_errno p_cwd].
    assert (Q4 : forallb quiet_event [ev; Free "oldpwd"] = true).
    { cbn [forallb]. rewrite Q3. reflexivity. }
    destruct (quiet_no_wait _ Q4) as [W4 C4].
    assert (Len : List.length (qsort (scripts entries))
                  = List.length (scripts entries))
      by (apply Permutation_length, qsort_perm).
    rewrite Len in W2, C2.
    eexists. split; [reflexivity|]. cbn [p_trace]. app_norm.
    repeat (rewrite waited_skip by exact I).
    repeat (rewrite created_skip by exact I).
    tally.
    repeat (rewrite waited_skip by exact I).
    repeat (rewrite created_skip by exact I).
    tally.
    change (ev :: [Free "oldpwd"]) with [ev; Free "oldpwd"].
    rewrite W1, C1, W2, C2, ?W4, ?C4, ?app_nil_r. split; reflexivity.
Qed.

Lemma run_parts_waits_for_any_child_witness :
  exists s',
    run_parts rc_env_no_fork "/etc/rc.d" [] (start "/") = Cont 0%Z s' /\
    waited (p_trace s') = [(-1)%Z; (-1)%Z] /\
    created (p_trace s') = [].
Proof.
  destruct (run_parts_waits_for_any_child rc_env_no_fork "/etc/rc.d" [] "/"
              Examples.rc_entries eq_refl eq_refl)
    as (s' & R & W & C).
  exists s'. split; [exact R|]. split; [exact W | exact C].
Defined.

End BatchWaitFacts.

(* ================================================================== *)
(** ** From [pid_get_name] to [procname_kill] *)
(* ================================================================== *)

Module NameKillFacts.
Import CStr Tokenizer Lines HostName Printf Sys Runner ProcName Names.
Import CStrFacts TokenizerFacts LineFacts HostNameFacts PrintfFacts
  RunnerFacts ProcNameFacts NamesFacts.
Local Open Scope list_scope.

Lemma lit_show l : lit (show l) = l.
Proof. apply list_ascii_of_string_of_list_ascii. Qed.

Lemma isdigit_digit_char d : (0 <= d <= 9)%Z -> isdigit (digit_char d) = true.
Proof.
  intros H.
  destruct (digit_cases d H)
    as [->|[->|[->|[->|[->|[->|[->|[->|[->| ->]]]]]]]]]; reflexivity.
Qed.

(** The text of a pid that is not negative: digits, read back by
    [atoi]. *)
Lemma decimal_entry pid :
  (0 <= pid <= INT_MAX)%Z ->
  isdigit (hd NUL (decimal pid)) = true /\ atoi (decimal pid) = pid.
Proof.
  intros H. unfold INT_MAX in H.
  assert (Hi : (INT_MIN <= pid <= INT_MAX)%Z)
    by (unfold INT_MIN, INT_MAX; lia).
  destruct (decimal_length pid Hi) as [_ Hz].
  unfold atoi. rewrite (c_str_id _ Hz). unfold decimal in *.
  destruct (Z.ltb_spec pid 0); [lia|].
  destruct (udecimal_spec 10 pid [] ltac:(lia) ltac:(lia))
    as (d & l & E & Hd & _ & _ & _ & Dg).
  rewrite E. cbn [hd]. split; [apply isdigit_digit_char; exact Hd|].
  destruct (digit_char_plain d Hd) as (Sp & Mi & Pl & _).
  rewrite (skip_space_none _ _ Sp), (strip_sign_none _ _ Mi Pl).
  cbv beta iota. specialize (Dg [] 0%Z false ltac:(lia)).
  match goal with
  | |- context [digits ?b ?x ?a ?f] => rewrite (Dg : digits b x a f = _)
  end.
  cbn [digits]. rewrite Z.mul_0_l, Z.add_0_l. apply to_int_id. exact Hi.
Qed.

(** What [pid_get_name] leaves in an object of the caller's that has
    room for the whole name. *)
Lemma pid_get_name_whole strlcpy within status pid comm more buf len line :
  copies_bounded strlcpy -> (INT_MIN <= pid <= INT_MAX)%Z ->
  status (show (lit "/proc/" ++ decimal pid ++ lit "/status"))
  = Some (label ++ comm ++ newline :: more) ->
  ~ In NUL comm -> ~ In newline comm -> List.length comm <= 56 ->
  List.length line = 64 -> List.length comm < len ->
  len <= List.length buf ->
  exists r name,
    pid_get_name strlcpy within status pid (Some buf) len line = Ok r /\
    g_ret r = Some comm /\ g_name r = Some name /\ c_str name = comm.
Proof.
  intros Hc Hp Hs Hn Hl Hm Hline H0 H1.
  destruct (status_line comm more line Hn Hl Hm Hline)
    as (l & rest & F & G & C & P).
  unfold pid_get_name. rewrite (status_path_whole pid Hp), Hs, F, G.
  cbn [mbind]. rewrite C, P. cbn [mbind].
  destruct (Nat.eqb_spec len 0); [lia|].
  rewrite (Hc buf _ len ltac:(lia) H1). cbn [mbind].
  rewrite (c_str_app comm (NUL :: rest) Hn).
  rewrite (firstn_all2 (n := len - 1) comm) by lia.
  destruct (bounded_copy_shape comm buf len Hn ltac:(lia) ltac:(lia))
    as (Cs & _ & _).
  eexists. eexists. split; [reflexivity|]. cbn [g_ret g_name].
  rewrite Cs. repeat split. exact Cs.
Qed.

(** X30: the name [pid_get_name] finds for a process, given back to
    [procname_kill], has the signal sent to that process: the entry of
    /proc that is named after the pid is selected, and the pid given to
    [kill] is the one asked about. *)
Theorem pid_get_name_then_procname_kill
  strlcpy within status entries pid comm more k buf len line signo s :
  copies_bounded strlcpy -> (0 <= pid <= INT_MAX)%Z ->
  status (show (lit "/proc/" ++ decimal pid ++ lit "/status"))
  = Some (label ++ comm ++ newline :: more) ->
  In {| pe_d_name := show (decimal pid);
        pe_status := Some (label ++ comm ++ newline :: more);
        pe_kill_ok := k |} entries ->
  forallb well_formed entries = true ->
  ~ In NUL comm -> ~ In newline comm -> List.length comm <= 56 ->
  List.length line = 64 -> List.length comm < len ->
  len <= List.length buf ->
  exists r name count s',
    pid_get_name strlcpy within status pid (Some buf) len line = Ok r /\
    g_name r = Some name /\
    procname_kill {| k_opendir := Some entries |} (Some name) signo s
    = Cont count s' /\
    In (pid, signo, k) (kills (p_trace s')).
Proof.
  intros Hc Hp Hs He Hw Hn Hl Hm Hline H0 H1.
  assert (Hi : (INT_MIN <= pid <= INT_MAX)%Z)
    by (unfold INT_MIN, INT_MAX in *; lia).
  destruct (pid_get_name_whole strlcpy within status pid comm more buf len
              line Hc Hi Hs Hn Hl Hm Hline H0 H1)
    as (r & name & G & _ & N & Cn).
  exists r, name. unfold procname_kill. cbn [k_opendir]. step.
  match goal with
  | |- context [scan_proc name signo entries ?c ?s0] =>
      destruct (scan_proc_spec name signo entries c s0 Hw) as (tr & R & K)
  end.
  rewrite R. cbn [p_trace p_errno p_cwd].
  eexists. eexists. split; [exact G|]. split; [exact N|].
  split; [reflexivity|]. cbn [p_trace].
  rewrite !kills_app, K. apply in_or_app. left. apply in_or_app. right.
  destruct (decimal_entry pid Hp) as [Dg At].
  set (pe := {| pe_d_name := show (decimal pid);
                pe_status := Some (label ++ comm ++ newline :: more);
                pe_kill_ok := k |}) in *.
  replace (pid, signo, k) with (kill_call signo pe)
    by (unfold kill_call, pe; cbn [pe_d_name pe_kill_ok];
        rewrite lit_show, At; reflexivity).
  apply in_map. apply filter_In. split; [exact He|].
  apply (proj2 (candidate_rule (show (decimal pid)) comm more k name
                  Hn Hl Hm)).
  rewrite lit_show. split; [exact Dg|]. exists []. rewrite app_nil_r.
  exact Cn.
Qed.

Lemma pid_get_name_then_procname_kill_witness :
  exists r name count s',
    pid_get_name strlcpy_bsd strlcpy_within_bsd proc_17 17
      (Some (repeat NUL 16)) 16 (repeat NUL 64) = Ok r /\
    g_name r = Some name /\
    procname_kill {| k_opendir := Some [entry_17] |} (Some name) 15
      (start "/") = Cont count s' /\
    In (17%Z, 15%Z, true) (kills (p_trace s')).
Proof.
  destruct syslogd_plain as (A & B & C).
  apply (pid_get_name_then_procname_kill strlcpy_bsd strlcpy_within_bsd
           proc_17 [entry_17] 17 (lit "syslogd") (lit "State:" ++ [newline])
           true (repeat NUL 16) 16 (repeat NUL 64) 15 (start "/")
           strlcpy_bsd_bounded);
    first [ assumption | reflexivity | (unfold INT_MAX; lia)
          | (left; reflexivity) | (apply Nat.ltb_lt; reflexivity)
          | (apply Nat.leb_le; reflexivity) ].
Defined.

End NameKillFacts.

(* ================================================================== *)
(** ** [run_parts]: which directory is listed *)
(* ================================================================== *)

Module BatchRunFacts.
Import CStr Tokenizer Sys Runner Batch Examples BatchRuns.
Import TokenizerFacts RunnerFacts BatchFacts.
Local Open Scope string_scope.
Local Open Scope list_scope.

Lemma executed_app a b : executed (a ++ b) = executed a ++ executed b.
Proof. unfold executed. rewrite forks_app. apply flat_map_app. Qed.

Lemma executed_quiet tr : forallb quiet_event tr = true -> executed tr = [].
Proof. intros Q. unfold executed. rewrite (forks_quiet tr Q). reflexivity. Qed.

Lemma executed_skip ev l :
  quiet_event ev = true -> executed (ev :: l) = executed l.
Proof. destruct ev; intros H; try reflexivity; discriminate H. Qed.

(** An absolute path is the same from every directory; a relative one,
    looked up again from the directory it names, names a directory inside
    that one. *)
Lemma resolve_absolute cwd dir : is_absolute dir = true -> resolve cwd dir = dir.
Proof.
  unfold is_absolute, resolve. destruct dir as [|c dir]; [discriminate|].
  destruct (Ascii.ascii_dec c "/") as [->|N]; [reflexivity|].
  destruct c as [[|] [|] [|] [|] [|] [|] [|] [|]]; try discriminate;
    reflexivity.
Qed.

Lemma resolve_relative cwd dir :
  is_absolute dir = false -> resolve cwd dir = (cwd ++ "/" ++ dir)%string.
Proof.
  unfold is_absolute, resolve. destruct dir as [|c dir]; [reflexivity|].
  destruct c as [[|] [|] [|] [|] [|] [|] [|] [|]]; try discriminate;
    reflexivity.
Qed.

(** The loop over the scripts, every [fork] granted: the programs
    executed are the scripts whose [execv] succeeds. *)
Lemma exec_all_executed e :
  (forall j, is_some (b_fork e j) = true) ->
  forall ent args i s,
  2 <= List.length args ->
  exists tr,
    exec_all e args i ent s
    = Cont tt {| p_trace := p_trace s ++ tr; p_errno := p_errno s;
                 p_cwd := p_cwd s |} /\
    executed tr = map bare (filter (b_exec_ok e) ent).
Proof.
  intros Hf. induction ent as [|script ent IH]; intros args i s La.
  - exists []. cbn [exec_all]. rewrite app_nil_r. destruct s.
    split; reflexivity.
  - cbn [exec_all]. specialize (Hf i).
    destruct (b_fork e i) as [pid|]; [|discriminate Hf].
    run_step.
    match goal with
    | |- context [exec_all e ?a1 (S i) ent ?s1] =>
        destruct (IH a1 (S i) s1) as (tr & X & P);
          [rewrite !store_length; exact La|]
    end.
    rewrite X. cbn [p_trace p_errno p_cwd].
    eexists. rewrite <- !app_assoc. cbn [app]. split; [reflexivity|].
    cbn [filter]. unfold executed in *. cbn [forks flat_map snd].
    rewrite P, (argv_read_single args script La). unfold parts_child.
    destruct (b_exec_ok e script); reflexivity.
Qed.

(** [run_parts] with the directory entered, the directory of the same
    name looked up from there opened, and every [fork] granted. *)
Lemma run_parts_executed e dir extra cwd entries :
  b_chdir e (resolve cwd dir) = true ->
  b_opendir e (resolve (resolve cwd dir) dir) = Some entries ->
  (forall j, is_some (b_fork e j) = true) ->
  exists s',
    run_parts e dir extra (start cwd) = Cont 0%Z s' /\
    executed (p_trace s')
    = map bare (filter (b_exec_ok e) (qsort (scripts entries))) /\
    sequential (p_trace s') = true.
Proof.
  intros Hc Ho Hf.
  destruct (run_parts_trace e dir extra cwd entries Hc Ho Hf)
    as (s0 & R0 & _ & Q0).
  exists s0. split; [exact R0|]. split; [|exact Q0].
  revert R0. unfold run_parts, start. run_step. unfold sys_chdir at 1.
  run_step. rewrite Hc. run_step. rewrite Ho. run_step.
  match goal with
  | |- context [collect entries [] ?s1] =>
      destruct (collect_spec entries [] s1) as (tr1 & C & Q1);
        [unfold NUM_SCRIPTS; cbn [List.length]; lia|]
  end.
  rewrite C. cbn [p_trace p_errno p_cwd app List.length].
  rewrite Nat.sub_0_r. fold (scripts entries).
  pose proof (executed_quiet tr1 Q1) as X1.
  destruct (List.length (scripts entries) =? 0)%nat eqn:E.
  - apply Nat.eqb_eq in E. apply length_zero_iff_nil in E. rewrite E.
    destruct (b_getcwd_ok e); run_step; intros R; injection R as <-;
      cbn [p_trace]; app_norm;
      repeat (rewrite executed_skip by reflexivity);
      rewrite !executed_app, X1;
      repeat (rewrite executed_skip by reflexivity); reflexivity.
  - match goal with
    | |- context [exec_all e ?a1 0 ?ent ?s1] =>
        destruct (exec_all_executed e Hf ent a1 0 s1) as (tr2 & X & X2);
          [rewrite va_fill_length, repeat_length; unfold NUM_ARGS; lia|]
    end.
    rewrite X. cbn [p_trace p_errno p_cwd].
    match goal with
    | |- context [sys_chdir e ?o ?s1] =>
        destruct (sys_chdir_cont e o s1) as (ev & cwd' & D & Q3)
    end.
    rewrite D. cbn [p_trace p_errno p_cwd].
    intros R; injection R as <-. cbn [p_trace]. app_norm.
    repeat (rewrite executed_skip by reflexivity).
    rewrite !executed_app, X1.
    repeat (rewrite executed_skip by reflexivity).
    rewrite !executed_app, X2.
    rewrite (executed_skip ev _ Q3).
    repeat (rewrite executed_skip by reflexivity).
    cbn [app]. change (executed []) with (@nil (string * list string)).
    rewrite app_nil_r. reflexivity.
Qed.

Lemma filter_strongly_sorted (A : Type) (R : A -> A -> Prop) f l :
  StronglySorted R l -> StronglySorted R (filter f l).
Proof.
  induction 1 as [|a l S IH F]; cbn [filter]; [constructor|].
  destruct (f a); [|exact IH]. constructor; [exact IH|].
  rewrite Forall_forall in *. intros x I. apply filter_In in I.
  apply F. exact (proj1 I).
Qed.

(** C4, at a relative path: [run_parts] enters the directory and then
    looks the same path up again, from inside it, so the directory it
    lists is not the target, and the scripts of the target are not run;
    called with the absolute path of the same directory it does what the
    claim says.  In general: with a relative path that cannot be opened
    from inside the target nothing is forked, whatever the target holds;
    with an absolute path the programs executed are the kept names whose
    [execv] succeeds, each once, in the order of [cmp], each child waited
    for before the next is forked. *)
Theorem run_parts_misses_relative_directory :
  (b_chdir rc_env (resolve "/etc" "rc.d") = true /\
   b_opendir rc_env (resolve "/etc" "rc.d") = Some rc_entries /\
   scripts rc_entries = ["S02b"; "S01a"] /\
   let r := run_parts rc_env "rc.d" [] (start "/etc") in
   returned r = Some (-1)%Z /\ forks (p_trace (final r)) = [] /\
   p_cwd (final r) = "/etc/rc.d") /\
  (forall e dir extra cwd,
      is_absolute dir = false ->
      b_chdir e (cwd ++ "/" ++ dir)%string = true ->
      b_opendir e ((cwd ++ "/" ++ dir) ++ "/" ++ dir)%string = None ->
      let r := run_parts e dir extra (start cwd) in
      returned r = Some (-1)%Z /\ forks (p_trace (final r)) = []) /\
  (let r := run_parts rc_env "/etc/rc.d" [] (start "/etc") in
   returned r = Some 0%Z /\
   executed (p_trace (final r)) = [bare "S01a"; bare "S02b"] /\
   sequential (p_trace (final r)) = true) /\
  (forall e dir extra cwd entries,
      is_absolute dir = true ->
      b_chdir e dir = true -> b_opendir e dir = Some entries ->
      (forall j, is_some (b_fork e j) = true) ->
      exists s',
        run_parts e dir extra (start cwd) = Cont 0%Z s' /\
        executed (p_trace s')
        = map bare (filter (b_exec_ok e) (qsort (scripts entries))) /\
        StronglySorted cmp_le (map fst (executed (p_trace s'))) /\
        (forall name,
            In name (map fst (executed (p_trace s'))) <->
            In name (scripts entries) /\ b_exec_ok e name = true) /\
        sequential (p_trace s') = true).
Proof.
  split; [repeat split; vm_compute; reflexivity|].
  split; [|split; [repeat split; vm_compute; reflexivity|]].
  - intros e dir extra cwd Ha Hc Ho. cbv zeta.
    unfold run_parts, start. run_step. unfold sys_chdir. run_step.
    rewrite !(resolve_relative _ dir Ha), Hc. run_step.
    rewrite (resolve_relative _ dir Ha), Ho. run_step.
    destruct (b_getcwd_ok e); split; reflexivity.
  - intros e dir extra cwd entries Ha Hc Ho Hf.
    destruct (run_parts_executed e dir extra cwd entries) as (s' & R & X & Q).
    + rewrite (resolve_absolute cwd dir Ha). exact Hc.
    + rewrite !(resolve_absolute _ dir Ha). exact Ho.
    + exact Hf.
    + exists s'. split; [exact R|]. split; [exact X|].
      rewrite X, map_fst_bare. split; [|split; [|exact Q]].
      * apply filter_strongly_sorted, qsort_strongly_sorted.
      * intros name. rewrite filter_In. split; intros [I K]; (split; [|exact K]).
        -- exact (Permutation_in _ (qsort_perm _) I).
        -- exact (Permutation_in _ (Permutation_sym (qsort_perm _)) I).
Qed.

End BatchRunFacts.
